(** * slopinator-9000: judge, time budget, state manager and orchestrator

    A shallow embedding of the control logic of the pipeline:

    - class [IdeaJudge] of [oracles/idea-judge.ts]     (module [IdeaJudge])
    - class [PiAgent], what [execute] returns          (module [PiAgent])
    - class [TimeBudget] of [utils/time-budget.ts]     (module [TimeBudget])
    - class [StateManager] of [utils/state-manager.ts] (module [StateManager])
    - class [Slopinator9000Orchestrator]               (module [Orchestrator])

    External collaborators (the LLM session, the browser researcher, the
    coding agent, GitHub, Twitter, the file system, the clock) are an
    environment [Env]: every call is answered by a script indexed by the
    number of collaborator calls made so far, so that any behaviour of a
    collaborator, deterministic or not, is an instance.  Built-ins of the
    JavaScript runtime that the code relies on ([JSON.parse], number
    formatting) are fields of the same record.

    An idea is, at run time, whatever object [JSON.parse] made of the
    agent's answer: the casts to [GeneratedIdea] in [generateOriginalIdeas]
    and [regenerateFromFeedback] test three fields for truthiness and
    nothing else.  So the orchestrator and the judge handle an idea as a
    JSON value, a field read may find anything or nothing, and a template
    literal or a method call on what it finds may throw a TypeError. *)

From Stdlib Require Import Ascii String QArith Qminmax Qround Lqa.
From stdpp Require Import base strings list gmap pretty.

Local Close Scope Q_scope.
Local Open Scope string_scope.
Local Open Scope list_scope.

(** ** JavaScript values that cross the JSON boundary *)

#[local] Set Warnings "-register-all".

(** Numbers are rationals: every finite double is one, and the judge only
    compares, adds small integers and clamps. *)
Inductive JSON : Type :=
  | JNull
  | JBool (b : bool)
  | JNum (x : Q)
  | JStr (s : string)
  | JArr (items : list JSON)
  | JObj (fields : list (string * JSON)).

(** A thrown value: an [Error] instance with its message, or anything else. *)
Inductive Exn : Type :=
  | Error (message : string)
  | NonError (v : JSON).

(** Outcome of a fallible step: normal completion or a throw / rejection. *)
Inductive Result (A : Type) : Type :=
  | Ok (a : A)
  | Throw (e : Exn).
Arguments Ok {A} a.
Arguments Throw {A} e.

(** Own-property lookup in an object literal produced by [JSON.parse]
    (each key occurs once there). *)
Fixpoint assoc (k : string) (fields : list (string * JSON)) : option JSON :=
  match fields with
  | [] => None
  | (k', v) :: rest => if String.eqb k k' then Some v else assoc k rest
  end.

(** [v.k] for a [v] that is not [null], and for the property names the
    code reads this way, which no primitive and no array has.  [None] is
    [undefined]. *)
Definition property (v : JSON) (k : string) : option JSON :=
  match v with
  | JObj fields => assoc k fields
  | _ => None
  end.

(** [v.k]: reading a property of [null] throws a TypeError. *)
Definition get_prop (v : JSON) (k : string) : Result (option JSON) :=
  match v with
  | JNull =>
      Throw (Error ("Cannot read properties of null (reading '" +:+ k +:+ "')"))
  | _ => Ok (property v k)
  end.

(** [v?.k] where [v] may be [undefined]. *)
Definition get_prop_opt (v : option JSON) (k : string) : Result (option JSON) :=
  match v with
  | None | Some JNull => Ok None
  | Some o => get_prop o k
  end.

(** A TypeError is an [Error]; the messages are worded as V8 words them. *)
Definition TypeError (message : string) : Exn := Error message.

(** Sequencing of fallible steps that touch nothing. *)
Definition and_then {A B} (r : Result A) (k : A -> Result B) : Result B :=
  match r with
  | Ok a => k a
  | Throw e => Throw e
  end.

Notation "'let?' x ':=' r 'in' k" := (and_then r (fun x => k))
  (at level 10, x pattern, r at level 100, k at level 200).

(** [r] completed normally. *)
Definition is_Ok {A} (r : Result A) : bool :=
  match r with
  | Ok _ => true
  | Throw _ => false
  end.

(** JavaScript truthiness of a possibly undefined JSON value. *)
Definition truthy (v : option JSON) : bool :=
  match v with
  | None | Some JNull | Some (JBool false) => false
  | Some (JNum x) => negb (Qeq_bool x 0)
  | Some (JStr s) => negb (String.eqb s EmptyString)
  | Some _ => true
  end.

(** [raw.match(/\{[\s\S]*\}/)]: the match starts at the first opening brace
    and, the star being greedy, ends at the last closing brace after it. *)
Fixpoint from_first_open (s : string) : option string :=
  match s with
  | EmptyString => None
  | String c rest =>
      if Ascii.eqb c "{"%char then Some s else from_first_open rest
  end.

Fixpoint upto_last_close (s : string) : option string :=
  match s with
  | EmptyString => None
  | String c rest =>
      match upto_last_close rest with
      | Some p => Some (String c p)
      | None => if Ascii.eqb c "}"%char then Some (String c EmptyString) else None
      end
  end.

Definition match_braces (raw : string) : option string :=
  match from_first_open raw with
  | Some (String c rest) => String c <$> upto_last_close rest
  | _ => None
  end.

(** ** Data model ([types/oracles.ts], [types/results.ts]) *)

(** Only the fields the modelled code reads are kept.  A field name that
    several interfaces share ([name], [success], [errors]) carries the
    name of its record.  The values of these interfaces are built by
    TypeScript code or come from an oracle of this program's own; ideas
    and verdicts come out of [JSON.parse] and are kept as JSON. *)
Record TrendingRepo : Type := {
  repo_owner : string;
  repo_name : string;
  repo_description : string;
  stars : Z;
}.

Inductive IdeaStrategy : Type :=
  | adjacent | complementary | abstraction | inverse | transfer | niche.

(** The fields of the [GeneratedIdea] interface that the generator's
    templates set and the announcer's code reads, each of its declared
    type.  The judge and the orchestrator handle what [JSON.parse]
    returned and do not use this record; [declared], further down,
    decodes such a value when it has these fields. *)
Record GeneratedIdea : Type := {
  idea_name : string;
  tagline : string;
  idea_description : string;
  originalRepo : string;
  strategy : IdeaStrategy;
  slopFactor : Z;
}.

Inductive Recommendation : Type := SHIP | PIVOT | ABORT.

Record ResearchReport : Type := {
  report_idea : JSON;
  recommendation : Recommendation;
  report_reasoning : string;
}.

Inductive ImplementationStatus : Type := complete | partial | failed.

Record ImplementationResult : Type := {
  status : ImplementationStatus;
  repoPath : string;
}.

Record DeploymentResult : Type := {
  deploy_success : bool;
  repoUrl : string;
  deploy_errors : list string;
}.

Record TweetResult : Type := {
  tweet_success : bool;
  tweetUrl : option string;
}.

Record ErrorRecord : Type := {
  err_phase : string;
  err_error : string;
  err_timestamp : Z;
}.

Record OrchestratorState : Type := {
  runId : string;
  startTime : Z;
  trends : option (list TrendingRepo);
  ideas : option (list JSON);
  selectedIdea : option JSON;
  research : option ResearchReport;
  implementation : option ImplementationResult;
  deployment : option DeploymentResult;
  announcement : option TweetResult;
  currentPhase : string;
  errors : list ErrorRecord;
}.

Record RunResult : Type := {
  success : bool;
  result_idea : option JSON;
  result_repoUrl : option string;
  result_tweetUrl : option string;
  totalTime : Q;
  result_state : OrchestratorState;
  result_error : option string;
}.

(** The verdict of [oracles/idea-judge.ts].  The parsed JSON is cast, not
    checked, so [reasoning] and the entries of [suggestions] are whatever
    JSON the collaborator sent. *)
Inductive Level : Type := none | low | medium | high.

Record Axes : Type := {
  problemDivergence : Level;
  technicalNovelty : Level;
  audienceShift : Level;
  addedValue : Level;
  runnability : Level;
}.

Record JudgeVerdict : Type := {
  approved : bool;
  differentiationScore : Q;
  axes : Axes;
  reasoning : JSON;
  suggestions : list JSON;
}.

Record Rejection : Type := {
  rej_idea : JSON;
  rej_verdict : JudgeVerdict;
}.

(** ** Collaborators and the runtime *)

(** A prompt is kept as the data interpolated into its template; it is
    only built when every interpolation has succeeded. *)
Inductive Prompt : Type :=
  | JudgePrompt (idea : JSON) (source : TrendingRepo)
  | RegeneratePrompt (repo : TrendingRepo) (repoKey : string)
      (entries : list Rejection).

Record PiTask : Type := {
  task : string;
  instructions : Prompt;
  timeout : Z;
}.

(** What an agent session does once [execute] has started it: text deltas
    are streamed, and then either something throws, the timeout wins the
    race (and [session.abort()] may itself throw), or the prompt completes,
    possibly with an error in the agent state. *)
Inductive SessionEnd : Type :=
  | Threw (e : Exn)
  | TimedOut (abort : option Exn)
  | Prompted (agentError : option string).

Record Session : Type := {
  streamed : list string;
  ending : SessionEnd;
}.

Record PiResult : Type := {
  pi_success : bool;
  exitCode : Z;
  output : option string;
}.

(** How a promise settles, and the two callbacks that [TimeBudget.run]
    races: the operation settling and the timer firing (with the value
    [Date.now()] has at that moment). *)
Inductive Settle (T : Type) : Type :=
  | Resolves (v : T)
  | Rejects (e : Exn).
Arguments Resolves {T} v.
Arguments Rejects {T} e.

Inductive Event (T : Type) : Type :=
  | FnSettled (s : Settle T)
  | TimerFired (now : Z).
Arguments FnSettled {T} s.
Arguments TimerFired {T} now.

(** An operation under a budget either settles before the timer, which is
    then cleared, or the timer fires first and the abandoned operation may
    still settle later. *)
Inductive Behaviour (T : Type) : Type :=
  | SettlesInTime (s : Settle T)
  | Overruns (now : Z) (later : option (Settle T)).
Arguments SettlesInTime {T} s.
Arguments Overruns {T} now later.

Definition events_of {T} (b : Behaviour T) : list (Event T) :=
  match b with
  | SettlesInTime s => [FnSettled s]
  | Overruns now None => [TimerFired now]
  | Overruns now (Some s) => [TimerFired now; FnSettled s]
  end.

Record ScoutOptions : Type := {
  period : string;
  language : list string;
  minStars : Z;
}.

(** The environment.  The [nat] argument of a script is the number of
    collaborator calls made before this one ([fs_*]: the number of file
    system operations). *)
Record Env : Type := {
  (* runtime *)
  JSON_parse : string -> Result JSON;
  Number_toString : Q -> string;
  seconds_toFixed1 : Z -> string;
  js_String : JSON -> string;
  Date_now : nat -> Z;
  (* collaborators *)
  pi_session : nat -> PiTask -> Session;
  trendScout_scoutTrends : nat -> ScoutOptions -> Behaviour (list TrendingRepo);
  ideaGenerator_generateOriginalIdeas :
    nat -> option (list TrendingRepo) -> Behaviour (list JSON);
  ideaJudge_deadline : nat -> option Z;
  researcher_research : nat -> JSON -> Behaviour ResearchReport;
  implementer_implement :
    nat -> option JSON -> option ResearchReport ->
    Behaviour ImplementationResult;
  deployer_deploy :
    nat -> option ImplementationResult -> option JSON ->
    Behaviour DeploymentResult;
  announcer_announce :
    nat -> option DeploymentResult -> option JSON ->
    option ImplementationResult -> Behaviour TweetResult;
  fs_mkdir : nat -> option Exn;
  fs_writeFile : nat -> option Exn;
}.

(** Calls that leave the process or cross an oracle interface, in order. *)
Inductive Call : Type :=
  | CallPi (t : PiTask)
  | CallScoutTrends (o : ScoutOptions)
  | CallGenerateOriginalIdeas (ts : option (list TrendingRepo))
  | CallFilterIdeas (ideas : option (list JSON))
  | CallResearch (idea : JSON)
  | CallImplement (idea : option JSON) (r : option ResearchReport)
  | CallDeploy (i : option ImplementationResult) (idea : option JSON)
  | CallAnnounce (d : option DeploymentResult) (idea : option JSON)
      (i : option ImplementationResult).

(** The logger, restricted to its [warn] and [error] lines. *)
Inductive LogLevel : Type := LWarn | LError.

Record LogRecord : Type := {
  level : LogLevel;
  log_message : string;
}.

(** Everything a run can change: the orchestrator's state object, the
    calls made, the log, and the state file on disk. *)
Record World : Type := {
  st : OrchestratorState;
  trace : list Call;
  logs : list LogRecord;
  disk : option OrchestratorState;
  fs_ops : nat;
}.

(** ** The monad of asynchronous code: state and exceptions *)

Definition M (A : Type) : Type := World -> Result A * World.

Definition ret {A} (a : A) : M A := fun w => (Ok a, w).

Definition throw {A} (e : Exn) : M A := fun w => (Throw e, w).

Definition bind {A B} (c : M A) (k : A -> M B) : M B :=
  fun w =>
    match c w with
    | (Ok a, w') => k a w'
    | (Throw e, w') => (Throw e, w')
    end.

(** [try { c } catch (error) { h error }] *)
Definition try_catch {A} (c : M A) (h : Exn -> M A) : M A :=
  fun w =>
    match c w with
    | (Ok a, w') => (Ok a, w')
    | (Throw e, w') => h e w'
    end.

Definition lift {A} (r : Result A) : M A := fun w => (r, w).

Notation "'let!' x ':=' c 'in' k" := (bind c (fun x => k))
  (at level 10, x pattern, c at level 100, k at level 200).
Notation "'do!' c 'in' k" := (bind c (fun _ => k))
  (at level 10, c at level 100, k at level 200).

Definition set_st (s : OrchestratorState) (w : World) : World :=
  {| st := s; trace := trace w; logs := logs w; disk := disk w;
     fs_ops := fs_ops w |}.

Definition get_state : M OrchestratorState := fun w => (Ok (st w), w).

Definition modify_state (f : OrchestratorState -> OrchestratorState) : M unit :=
  fun w => (Ok tt, set_st (f (st w)) w).

Definition record_call (c : Call) : M nat :=
  fun w =>
    (Ok (length (trace w)),
     {| st := st w; trace := trace w ++ [c]; logs := logs w; disk := disk w;
        fs_ops := fs_ops w |}).

Definition log (l : LogLevel) (message : string) : M unit :=
  fun w =>
    (Ok tt,
     {| st := st w; trace := trace w;
        logs := logs w ++ [ {| level := l; log_message := message |} ];
        disk := disk w; fs_ops := fs_ops w |}).

(** [error instanceof Error ? error.message : fallback] *)
Definition message_or (fallback : string) (e : Exn) : string :=
  match e with
  | Error m => m
  | NonError _ => fallback
  end.

(** The double-quote character, for messages that quote a name. *)
Definition dq : string := String (ascii_of_nat 34) EmptyString.

(** [error instanceof Error ? error.message : String(error)] *)
Definition message_of (E : Env) (e : Exn) : string :=
  match e with
  | Error m => m
  | NonError v => js_String E v
  end.

(** ** Template literals and array methods on values from [JSON.parse] *)

Module JS.

(** [f] applied to the items in order, up to the first throw. *)
Fixpoint map {A B} (f : A -> Result B) (items : list A) : Result (list B) :=
  match items with
  | [] => Ok []
  | x :: rest =>
      let? y := f x in
      let? ys := map f rest in
      Ok (y :: ys)
  end.

Section Join.
Variable render : JSON -> Result string.
Variable sep : string.

(** [items.join(sep)]: [null] gives the empty string, any other item
    the string [render] makes of it. *)
Fixpoint join (items : list JSON) : Result string :=
  match items with
  | [] => Ok EmptyString
  | x :: rest =>
      let? s :=
        match x with
        | JNull => Ok EmptyString
        | _ => render x
        end in
      match rest with
      | [] => Ok s
      | _ => let? r := join rest in Ok (s +:+ sep +:+ r)
      end
  end.

End Join.

Section WithEnv.
Variable E : Env.

(** [ToString(v)], which a template literal applies to what it
    interpolates.  An array is joined with commas.  An object is
    converted by the [toString] it inherits, unless it has a property of
    that name: a value out of [JSON.parse] is never callable, and then
    neither it nor the inherited [valueOf] yields a primitive. *)
Fixpoint ToString (v : JSON) : Result string :=
  match v with
  | JNull => Ok "null"
  | JBool true => Ok "true"
  | JBool false => Ok "false"
  | JNum x => Ok (Number_toString E x)
  | JStr s => Ok s
  | JArr items => join ToString "," items
  | JObj fields =>
      match assoc "toString" fields with
      | Some _ => Throw (TypeError "Cannot convert object to primitive value")
      | None => Ok "[object Object]"
      end
  end.

(** [`${v}`] for a possibly undefined [v]. *)
Definition interpolate (v : option JSON) : Result string :=
  match v with
  | None => Ok "undefined"
  | Some v => ToString v
  end.

(** [`${o.k}`] *)
Definition field (o : JSON) (k : string) : Result string :=
  let? v := get_prop o k in
  interpolate v.

End WithEnv.

(** The receiver of [v.map(...)] or [v.join(...)], where [v] is the
    value of the expression [path]: only an array has these methods. *)
Definition array_method (path method : string) (v : option JSON)
    : Result (list JSON) :=
  match v with
  | None =>
      Throw (TypeError ("Cannot read properties of undefined (reading '"
                        +:+ method +:+ "')"))
  | Some JNull =>
      Throw (TypeError ("Cannot read properties of null (reading '"
                        +:+ method +:+ "')"))
  | Some (JArr items) => Ok items
  | Some _ => Throw (TypeError (path +:+ "." +:+ method +:+ " is not a function"))
  end.

(** [m.get(key)] on a [Map] whose keys are strings: any other key is
    not found. *)
Definition Map_get {V} (m : gmap string V) (key : option JSON) : option V :=
  match key with
  | Some (JStr k) => m !! k
  | _ => None
  end.

End JS.

(** ** [PiAgent] *)

Module PiAgent.
Section WithEnv.
Variable E : Env.

(** [task.timeout || 3600000] (no caller here sets [timeLimit]). *)
Definition timeoutMs (t : PiTask) : Z :=
  if (timeout t =? 0)%Z then 3600000%Z else timeout t.

Definition on_error (out : string) (e : Exn) : M PiResult :=
  do! log LError ("Pi agent error: " +:+ message_of E e) in
  ret {| pi_success := false; exitCode := 1; output := Some out |}.

Definition execute (t : PiTask) : M PiResult :=
  let! i := record_call (CallPi t) in
  let s := pi_session E i t in
  let out := String.concat EmptyString (streamed s) in
  match ending s with
  | Threw e => on_error out e
  | TimedOut abort =>
      do! log LWarn ("Pi task timeout after " +:+ pretty (timeoutMs t) +:+ "ms") in
      match abort with
      | Some e => on_error out e
      | None =>
          ret {| pi_success := false; exitCode := 124; output := Some out |}
      end
  | Prompted agentError =>
      let failed :=
        match agentError with
        | Some m => negb (String.eqb m EmptyString)
        | None => false
        end in
      ret {| pi_success := negb failed;
             exitCode := if failed then 1%Z else 0%Z;
             output := Some out |}
  end.
End WithEnv.
End PiAgent.

(** ** [IdeaJudge] ([oracles/idea-judge.ts]) *)

Module IdeaJudge.

Definition MIN_DIFFERENTIATION_SCORE : Q := 50.
Definition MIN_STRONG_AXES : nat := 2.

Definition failedVerdict (reason : string) : JudgeVerdict :=
  {| approved := false;
     differentiationScore := 0;
     axes := {| problemDivergence := none; technicalNovelty := none;
                audienceShift := none; addedValue := none;
                runnability := none |};
     reasoning := JStr reason;
     suggestions := [] |}.

(** [typeof v === 'string' && validLevels.has(v) ? v : 'none'] *)
Definition parseLevel (v : option JSON) : Level :=
  match v with
  | Some (JStr s) =>
      if String.eqb s "none" then none
      else if String.eqb s "low" then low
      else if String.eqb s "medium" then medium
      else if String.eqb s "high" then high
      else none
  | _ => none
  end.

(** [Object.values(axes)], in the order of the literal. *)
Definition Object_values (a : Axes) : list Level :=
  [problemDivergence a; technicalNovelty a; audienceShift a; addedValue a;
   runnability a].

Definition is_strong (v : Level) : bool :=
  match v with
  | medium | high => true
  | _ => false
  end.

Definition strongAxes (a : Axes) : nat :=
  length (List.filter is_strong (Object_values a)).

Definition runnabilityBonus (a : Axes) : Q :=
  match runnability a with
  | high => 10
  | medium => 5
  | _ => 0
  end.

(** [Math.max(0, Math.min(100, x))] when the field is a number, else 0. *)
Definition clamp_score (v : option JSON) : Q :=
  match v with
  | Some (JNum x) => Qmax 0 (Qmin 100 x)
  | _ => 0%Q
  end.

Section WithEnv.
Variable E : Env.

(** [parsed.axes?.k] *)
Definition axis (parsed : JSON) (k : string) : M (option JSON) :=
  let! a := lift (get_prop parsed "axes") in
  lift (get_prop_opt a k).

Definition parseVerdict (raw : string) (ideaName : string) : M JudgeVerdict :=
  try_catch
    (match match_braces raw with
     | None =>
         do! log LWarn ("No JSON found in judge output for " +:+ dq +:+ ideaName +:+ dq) in
         ret (failedVerdict "Could not parse LLM response")
     | Some jsonMatch =>
         let! parsed := lift (JSON_parse E jsonMatch) in
         let! ds := lift (get_prop parsed "differentiationScore") in
         let score := clamp_score ds in
         let! pd := axis parsed "problemDivergence" in
         let! tn := axis parsed "technicalNovelty" in
         let! au := axis parsed "audienceShift" in
         let! av := axis parsed "addedValue" in
         let! rn := axis parsed "runnability" in
         let axes :=
           {| problemDivergence := parseLevel pd;
              technicalNovelty := parseLevel tn;
              audienceShift := parseLevel au;
              addedValue := parseLevel av;
              runnability := parseLevel rn |} in
         let adjustedScore := Qmin 100 (score + runnabilityBonus axes) in
         let ok :=
           Qle_bool MIN_DIFFERENTIATION_SCORE adjustedScore
           && (MIN_STRONG_AXES <=? strongAxes axes)%nat in
         let! r := lift (get_prop parsed "reasoning") in
         let! sg := lift (get_prop parsed "suggestions") in
         ret {| approved := ok;
                differentiationScore := score;
                axes := axes;
                reasoning :=
                  match r with
                  | Some v => if truthy r then v else JStr "No reasoning provided"
                  | None => JStr "No reasoning provided"
                  end;
                suggestions :=
                  match sg with
                  | Some (JArr items) => items
                  | _ => []
                  end |}
     end)
    (fun error =>
       do! log LWarn ("Failed to parse judge verdict for " +:+ dq +:+ ideaName
                      +:+ dq +:+ ": " +:+ message_of E error) in
       ret (failedVerdict "JSON parse error")).

(** [(f) => `${f.name}: ${f.description}`] *)
Definition feature_line (f : JSON) : Result string :=
  let? name := JS.field E f "name" in
  let? description := JS.field E f "description" in
  Ok (name +:+ ": " +:+ description).

(** The template literal of [buildJudgePrompt] is evaluated from left to
    right.  What it takes from the source repo is of its declared type;
    what it takes from the idea is read, converted and joined here, in
    the order of the template, and any of these steps may throw. *)
Definition buildJudgePrompt (idea : JSON) (source : TrendingRepo) : Result Prompt :=
  let? name := JS.field E idea "name" in
  let? tagline := JS.field E idea "tagline" in
  let? description := JS.field E idea "description" in
  let? strategy := JS.field E idea "strategy" in
  let? mvpDefinition := JS.field E idea "mvpDefinition" in
  let? coreFeatures := get_prop idea "coreFeatures" in
  let? features := JS.array_method "idea.coreFeatures" "map" coreFeatures in
  let? lines := JS.map feature_line features in
  let? dependencies := get_prop idea "dependencies" in
  let? deps := JS.array_method "idea.dependencies" "join" dependencies in
  let? joined := JS.join (JS.ToString E) ", " deps in
  Ok (JudgePrompt idea source).

(** [!result.success || !result.output] *)
Definition call_failed (result : PiResult) : bool :=
  negb (pi_success result)
  || match output result with
     | Some o => String.eqb o EmptyString
     | None => true
     end.

(** The argument of [this.pi.execute] in [judge]. *)
Definition pi_task (prompt : Prompt) : PiTask :=
  {| task := "judge-idea-differentiation";
     instructions := prompt;
     timeout := 60000 |}.

(** The first log line interpolates [idea.name], and the prompt is built,
    before the agent is called and outside any [try].  [parseVerdict] and
    the later log lines interpolate the same [idea.name] again, which
    then gives the same string. *)
Definition judge (idea : JSON) (sourceRepo : TrendingRepo) : M JudgeVerdict :=
  let! name := lift (JS.field E idea "name") in
  let! prompt := lift (buildJudgePrompt idea sourceRepo) in
  let! result := PiAgent.execute E (pi_task prompt) in
  if call_failed result then
    do! log LWarn ("Judge LLM call failed for " +:+ dq +:+ name
                   +:+ dq +:+ ", marking as rejected") in
    ret (failedVerdict "LLM evaluation failed — erring on the side of rejection")
  else
    parseVerdict (default EmptyString (output result)) name.

Fixpoint filterIdeas_loop (ideas : list JSON)
    (sourceRepos : gmap string TrendingRepo)
    (approvedIdeas : list JSON) (rejectedIdeas : list Rejection)
    : M (list JSON * list Rejection) :=
  match ideas with
  | [] => ret (approvedIdeas, rejectedIdeas)
  | idea :: rest =>
      let! key := lift (get_prop idea "originalRepo") in
      match JS.Map_get sourceRepos key with
      | None =>
          let! name := lift (JS.field E idea "name") in
          let! repoKey := lift (JS.interpolate E key) in
          do! log LWarn ("No source repo found for " +:+ dq +:+ name
                         +:+ dq +:+ " (" +:+ repoKey
                         +:+ "), auto-approving") in
          filterIdeas_loop rest sourceRepos (approvedIdeas ++ [idea])
            rejectedIdeas
      | Some repo =>
          let! verdict := judge idea repo in
          if approved verdict then
            filterIdeas_loop rest sourceRepos (approvedIdeas ++ [idea])
              rejectedIdeas
          else
            filterIdeas_loop rest sourceRepos approvedIdeas
              (rejectedIdeas
               ++ [ {| rej_idea := idea; rej_verdict := verdict |} ])
      end
  end.

Definition filterIdeas (ideas : list JSON)
    (sourceRepos : gmap string TrendingRepo)
    : M (list JSON * list Rejection) :=
  filterIdeas_loop ideas sourceRepos [] [].

End WithEnv.

(** The task [judge] hands to the agent for an idea whose prompt can be
    built. *)
Definition judge_task (idea : JSON) (sourceRepo : TrendingRepo) : PiTask :=
  pi_task (JudgePrompt idea sourceRepo).

(** The repo [filterIdeas] finds for an idea. *)
Definition source_of (sourceRepos : gmap string TrendingRepo) (idea : JSON)
    : option TrendingRepo :=
  JS.Map_get sourceRepos (property idea "originalRepo").

End IdeaJudge.

(** ** [TimeBudget] ([utils/time-budget.ts]) *)

Module TimeBudget.

Inductive PromiseState (T : Type) : Type :=
  | Pending
  | Resolved (v : T)
  | Rejected (e : Exn).
Arguments Pending {T}.
Arguments Resolved {T} v.
Arguments Rejected {T} e.

(** The promise returned by [run] and whether its timer is still set. *)
Record RunState (T : Type) : Type := {
  promise : PromiseState T;
  timerArmed : bool;
}.
Arguments promise {T} r.
Arguments timerArmed {T} r.

(** [resolve(v)] / [reject(e)]: only a pending promise changes. *)
Definition settle {T} (p : PromiseState T) (s : Settle T) : PromiseState T :=
  match p with
  | Pending =>
      match s with
      | Resolves v => Resolved v
      | Rejects e => Rejected e
      end
  | _ => p
  end.

Section WithEnv.
Variable E : Env.

(** [new Error(`TimeBudget exceeded for "${label}": ${elapsed}s / ${budgetSeconds}s`)] *)
Definition timeout_error (label : string) (budgetSeconds startTime now : Z) : Exn :=
  Error ("TimeBudget exceeded for " +:+ dq +:+ label +:+ dq +:+ ": "
         +:+ seconds_toFixed1 E (now - startTime) +:+ "s / "
         +:+ pretty budgetSeconds +:+ "s").

(** One callback runs: the timer's (unless [clearTimeout] got there
    first), or the [then] / [catch] handler of [fn()]. *)
Definition step {T} (label : string) (budgetSeconds startTime : Z)
    (s : RunState T) (ev : Event T) : RunState T :=
  match ev with
  | TimerFired now =>
      if timerArmed s then
        {| promise :=
             settle (promise s)
               (Rejects (timeout_error label budgetSeconds startTime now));
           timerArmed := false |}
      else s
  | FnSettled r =>
      {| promise := settle (promise s) r; timerArmed := false |}
  end.

Definition run {T} (label : string) (budgetSeconds startTime : Z)
    (events : list (Event T)) : PromiseState T :=
  promise
    (fold_left (step label budgetSeconds startTime) events
       {| promise := Pending; timerArmed := true |}).

End WithEnv.
End TimeBudget.

(** ** [StateManager] ([utils/state-manager.ts]) *)

Module StateManager.
Section WithEnv.
Variable E : Env.

Definition next_fs_op : M nat :=
  fun w =>
    (Ok (fs_ops w),
     {| st := st w; trace := trace w; logs := logs w; disk := disk w;
        fs_ops := S (fs_ops w) |}).

(** [fs.mkdir(this.stateDir, { recursive: true })] *)
Definition mkdir : M unit :=
  let! i := next_fs_op in
  match fs_mkdir E i with
  | Some e => throw e
  | None => ret tt
  end.

(** [fs.writeFile(this.stateFile, JSON.stringify(state, null, 2))]: the
    file holds a snapshot of the state, overwritten as a whole. *)
Definition writeFile (snapshot : OrchestratorState) : M unit :=
  let! i := next_fs_op in
  match fs_writeFile E i with
  | Some e => throw e
  | None =>
      fun w =>
        (Ok tt,
         {| st := st w; trace := trace w; logs := logs w;
            disk := Some snapshot; fs_ops := fs_ops w |})
  end.

Definition save (state : OrchestratorState) : M unit :=
  try_catch
    (do! mkdir in
     do! writeFile state in
     ret tt)
    (fun error => log LError "Failed to save state").

End WithEnv.
End StateManager.

(** ** [config] ([utils/config.ts]) *)

(** [config.system], read from the process environment. *)
Record Config : Type := {
  dryRun : bool;
  skipGithub : bool;
  skipTwitter : bool;
}.

(** [config.timeBudgets], in seconds. *)
Module timeBudgets.
Definition trendScout : Z := 900.
Definition ideaGenerator : Z := 1200.
Definition ideaJudge : Z := 600.
Definition researcher : Z := 1800.
Definition implementer : Z := 28800.
Definition deployer : Z := 1200.
Definition announcer : Z := 600.
End timeBudgets.

(** ** [Slopinator9000Orchestrator] *)

Module Orchestrator.

(** Assignments to one field of [this.state]. *)
Definition set_currentPhase (p : string) (s : OrchestratorState) : OrchestratorState :=
  {| runId := runId s; startTime := startTime s; trends := trends s;
     ideas := ideas s; selectedIdea := selectedIdea s; research := research s;
     implementation := implementation s; deployment := deployment s;
     announcement := announcement s; currentPhase := p; errors := errors s |}.

Definition set_trends (v : list TrendingRepo) (s : OrchestratorState) : OrchestratorState :=
  {| runId := runId s; startTime := startTime s; trends := Some v;
     ideas := ideas s; selectedIdea := selectedIdea s; research := research s;
     implementation := implementation s; deployment := deployment s;
     announcement := announcement s; currentPhase := currentPhase s;
     errors := errors s |}.

Definition set_ideas (v : list JSON) (s : OrchestratorState) : OrchestratorState :=
  {| runId := runId s; startTime := startTime s; trends := trends s;
     ideas := Some v; selectedIdea := selectedIdea s; research := research s;
     implementation := implementation s; deployment := deployment s;
     announcement := announcement s; currentPhase := currentPhase s;
     errors := errors s |}.

Definition set_selected (i : JSON) (r : ResearchReport)
    (s : OrchestratorState) : OrchestratorState :=
  {| runId := runId s; startTime := startTime s; trends := trends s;
     ideas := ideas s; selectedIdea := Some i; research := Some r;
     implementation := implementation s; deployment := deployment s;
     announcement := announcement s; currentPhase := currentPhase s;
     errors := errors s |}.

Definition set_implementation (v : ImplementationResult)
    (s : OrchestratorState) : OrchestratorState :=
  {| runId := runId s; startTime := startTime s; trends := trends s;
     ideas := ideas s; selectedIdea := selectedIdea s; research := research s;
     implementation := Some v; deployment := deployment s;
     announcement := announcement s; currentPhase := currentPhase s;
     errors := errors s |}.

Definition set_deployment (v : DeploymentResult)
    (s : OrchestratorState) : OrchestratorState :=
  {| runId := runId s; startTime := startTime s; trends := trends s;
     ideas := ideas s; selectedIdea := selectedIdea s; research := research s;
     implementation := implementation s; deployment := Some v;
     announcement := announcement s; currentPhase := currentPhase s;
     errors := errors s |}.

Definition set_announcement (v : TweetResult)
    (s : OrchestratorState) : OrchestratorState :=
  {| runId := runId s; startTime := startTime s; trends := trends s;
     ideas := ideas s; selectedIdea := selectedIdea s; research := research s;
     implementation := implementation s; deployment := deployment s;
     announcement := Some v; currentPhase := currentPhase s;
     errors := errors s |}.

(** [this.state.errors.push(r)] *)
Definition push_error (r : ErrorRecord) (s : OrchestratorState) : OrchestratorState :=
  {| runId := runId s; startTime := startTime s; trends := trends s;
     ideas := ideas s; selectedIdea := selectedIdea s; research := research s;
     implementation := implementation s; deployment := deployment s;
     announcement := announcement s; currentPhase := currentPhase s;
     errors := errors s ++ [r] |}.

(** The state the constructor builds. *)
Definition initial_state (id : string) (now : Z) : OrchestratorState :=
  {| runId := id; startTime := now; trends := None; ideas := None;
     selectedIdea := None; research := None; implementation := None;
     deployment := None; announcement := None;
     currentPhase := "initialization"; errors := [] |}.

Definition initial_world (id : string) (now : Z) : World :=
  {| st := initial_state id now; trace := []; logs := []; disk := None;
     fs_ops := 0 |}.

Definition MAX_ROUNDS : nat := 2.

(** A key of the [Map] [byRepo].  A [Map] compares primitives by value
    and takes an array or an object for a key of its own: the values
    [JSON.parse] makes share nothing, so the array or object that entry
    [i] of the list holds is the key [KRef i]. *)
Inductive MapKey : Type :=
  | KUndefined
  | KNull
  | KBool (b : bool)
  | KNum (x : Q)
  | KStr (s : string)
  | KRef (i : nat).

#[global] Instance Q_eq_dec : EqDecision Q.
Proof. solve_decision. Defined.

#[global] Instance MapKey_eq_dec : EqDecision MapKey.
Proof. solve_decision. Defined.

(** The key that [entry.idea.originalRepo] is, for entry [i]; a number
    is kept in lowest terms. *)
Definition key_at (i : nat) (v : option JSON) : MapKey :=
  match v with
  | None => KUndefined
  | Some JNull => KNull
  | Some (JBool b) => KBool b
  | Some (JNum x) => KNum (Qred x)
  | Some (JStr s) => KStr s
  | Some (JArr _) | Some (JObj _) => KRef i
  end.

(** [byRepo]: a [Map] iterates in insertion order, so it is kept as an
    association list; a new key goes last, a known key keeps its place. *)
Fixpoint group_push (key : MapKey) (entry : Rejection)
    (byRepo : list (MapKey * list Rejection)) : list (MapKey * list Rejection) :=
  match byRepo with
  | [] => [(key, [entry])]
  | (k, entries) :: rest =>
      if bool_decide (k = key) then (k, entries ++ [entry]) :: rest
      else (k, entries) :: group_push key entry rest
  end.

(** The grouping loop, from entry [i] on; reading [entry.idea.originalRepo]
    throws when the idea is [null]. *)
Fixpoint group_loop (i : nat) (rejected : list Rejection)
    (byRepo : list (MapKey * list Rejection))
    : Result (list (MapKey * list Rejection)) :=
  match rejected with
  | [] => Ok byRepo
  | entry :: rest =>
      let? key := get_prop (rej_idea entry) "originalRepo" in
      group_loop (S i) rest (group_push (key_at i key) entry byRepo)
  end.

Definition group_by_repo (rejected : list Rejection)
    : Result (list (MapKey * list Rejection)) :=
  group_loop 0 rejected [].

(** [repoMap.get(repoKey)]: only a string is found. *)
Definition repo_of (repoMap : gmap string TrendingRepo) (repoKey : MapKey)
    : option (string * TrendingRepo) :=
  match repoKey with
  | KStr k => pair k <$> repoMap !! k
  | _ => None
  end.

(** A line feed. *)
Definition nl : string := String (ascii_of_nat 10) EmptyString.

(** [repoMap.set(`${trend.owner}/${trend.name}`, trend)] for every trend. *)
Definition build_repoMap (ts : list TrendingRepo) : gmap string TrendingRepo :=
  fold_left
    (fun m trend => <[repo_owner trend +:+ "/" +:+ repo_name trend := trend]> m)
    ts ∅.

Section WithEnv.
Variable E : Env.
Variable config : Config.

(** [Date.now()] / [new Date()] *)
Definition now : M Z :=
  fun w => (Ok (Date_now E (length (trace w))), w).

(** [await] on the promise [TimeBudget.run] returned.  [run] is only
    started on event sequences that begin with a settling callback, so
    the promise is never left pending (lemma [run_events_of_settled]). *)
Definition await {T} (p : TimeBudget.PromiseState T) : M T :=
  match p with
  | TimeBudget.Resolved v => ret v
  | TimeBudget.Rejected e => throw e
  | TimeBudget.Pending => throw (Error "promise never settled")
  end.

(** [TimeBudget.run(label, budget, () => oracle.method(args))] for an
    external oracle. *)
Definition budgeted {T} (label : string) (budget : Z) (c : Call)
    (script : nat -> Behaviour T) : M T :=
  let! startTime := now in
  let! i := record_call c in
  await (TimeBudget.run E label budget startTime (events_of (script i))).

Definition settle_of {T} (r : Result T) : Settle T :=
  match r with
  | Ok v => Resolves v
  | Throw e => Rejects e
  end.

(** The same for an operation that runs in this process: whether the
    timer fires before it settles is the environment's choice; when it
    does the operation is abandoned, not stopped. *)
Definition budgeted_local {T} (label : string) (budget : Z) (c : Call)
    (deadline : nat -> option Z) (fn : M T) : M T :=
  let! startTime := now in
  let! i := record_call c in
  fun w =>
    let '(r, w') := fn w in
    let b :=
      match deadline i with
      | None => SettlesInTime (settle_of r)
      | Some t => Overruns t (Some (settle_of r))
      end in
    await (TimeBudget.run E label budget startTime (events_of b)) w'.

Definition saveState : M unit :=
  let! s := get_state in
  StateManager.save E s.

Definition phase1_ScoutTrends : M unit :=
  do! modify_state (set_currentPhase "scout-trends") in
  let options :=
    {| period := "daily"; language := ["TypeScript"; "JavaScript"];
       minStars := 100 |} in
  let! found :=
    budgeted "scout-trends" timeBudgets.trendScout (CallScoutTrends options)
      (fun i => trendScout_scoutTrends E i options) in
  if (length found =? 0)%nat then throw (Error "No suitable trends found")
  else modify_state (set_trends found).

Definition phase2_GenerateIdeas : M unit :=
  do! modify_state (set_currentPhase "generate-ideas") in
  let! s := get_state in
  let! allIdeas :=
    budgeted "generate-ideas" timeBudgets.ideaGenerator
      (CallGenerateOriginalIdeas (trends s))
      (fun i => ideaGenerator_generateOriginalIdeas E i (trends s)) in
  if (length allIdeas =? 0)%nat then throw (Error "No viable ideas generated")
  else modify_state (set_ideas allIdeas).

(** The line the judging phase logs for a rejection. *)
Definition rejection_line (entry : Rejection) : Result string :=
  let? name := JS.field E (rej_idea entry) "name" in
  let score := Number_toString E (differentiationScore (rej_verdict entry)) in
  let? why := JS.ToString E (reasoning (rej_verdict entry)) in
  Ok ("Rejected " +:+ dq +:+ name +:+ dq +:+ " (score " +:+ score +:+ "): "
      +:+ why).

(** The loop that logs them, at [info] level: all that is left of it is
    that a line may throw. *)
Definition log_rejections (rejected : list Rejection) : M unit :=
  let! lines := lift (JS.map rejection_line rejected) in
  ret tt.

(** What [feedbackBlock] holds for one rejection. *)
Definition feedback_entry (e : Rejection) : Result string :=
  let? name := JS.field E (rej_idea e) "name" in
  let score := Number_toString E (differentiationScore (rej_verdict e)) in
  let? strategy := JS.field E (rej_idea e) "strategy" in
  let? why := JS.ToString E (reasoning (rej_verdict e)) in
  let? items :=
    JS.map (fun s => let? text := JS.ToString E s in Ok ("- " +:+ text))
      (suggestions (rej_verdict e)) in
  Ok ("### Rejected: " +:+ dq +:+ name +:+ dq +:+ " (score " +:+ score +:+ ")"
      +:+ nl +:+ "Strategy: " +:+ strategy +:+ nl +:+ "Reasoning: " +:+ why
      +:+ nl +:+ "Suggestions:" +:+ nl +:+ String.concat nl items).

Definition feedbackBlock (entries : list Rejection) : Result string :=
  let? blocks := JS.map feedback_entry entries in
  Ok (String.concat (nl +:+ nl) blocks).

(** The body of the [try] in [regenerateFromFeedback], for one repo; it
    returns the list [improved] as the iteration leaves it.  The idea is
    pushed before the line that logs its name: when that line throws,
    the [catch] finds the idea in the list. *)
Definition regenerate_one (repo : TrendingRepo) (repoKey : string)
    (entries : list Rejection) (improved : list JSON)
    : M (list JSON) :=
  let! result :=
    PiAgent.execute E
      {| task := "regenerate-idea-from-feedback";
         instructions := RegeneratePrompt repo repoKey entries;
         timeout := 60000 |} in
  (* if (result.success && result.output) *)
  if IdeaJudge.call_failed result then ret improved
  else
    match match_braces (default EmptyString (output result)) with
    | None => ret improved
    | Some jsonMatch =>
        let! parsed := lift (JSON_parse E jsonMatch) in
        let! n := lift (get_prop parsed "name") in
        if truthy n then
          let! d := lift (get_prop parsed "description") in
          if truthy d then
            let! f := lift (get_prop parsed "coreFeatures") in
            if truthy f then
              match JS.interpolate E n with
              | Ok _ => ret (improved ++ [parsed])
              | Throw error =>
                  do! log LWarn ("Failed to regenerate idea for " +:+ repoKey) in
                  ret (improved ++ [parsed])
              end
            else ret improved
          else ret improved
        else ret improved
    end.

Fixpoint regenerate_loop (byRepo : list (MapKey * list Rejection))
    (repoMap : gmap string TrendingRepo) (improved : list JSON)
    : M (list JSON) :=
  match byRepo with
  | [] => ret improved
  | (key, entries) :: rest =>
      match repo_of repoMap key with
      | None => regenerate_loop rest repoMap improved
      | Some (repoKey, repo) =>
          let! feedback := lift (feedbackBlock entries) in
          let! improved' :=
            try_catch (regenerate_one repo repoKey entries improved)
              (fun error =>
                 do! log LWarn ("Failed to regenerate idea for " +:+ repoKey) in
                 ret improved) in
          regenerate_loop rest repoMap improved'
      end
  end.

Definition regenerateFromFeedback (rejected : list Rejection)
    (repoMap : gmap string TrendingRepo) : M (list JSON) :=
  let! byRepo := lift (group_by_repo rejected) in
  regenerate_loop byRepo repoMap [].

(** One [TimeBudget.run] around [filterIdeas(this.state.ideas!, repoMap)]. *)
Definition judge_round (round : nat) (repoMap : gmap string TrendingRepo)
    : M (list JSON * list Rejection) :=
  let! s := get_state in
  budgeted_local ("judge-ideas-round-" +:+ pretty round) timeBudgets.ideaJudge
    (CallFilterIdeas (ideas s)) (ideaJudge_deadline E)
    (match ideas s with
     | Some l => IdeaJudge.filterIdeas E l repoMap
     | None => throw (Error "ideas is not iterable")
     end).

(** The [for] loop of [phase2b_JudgeIdeas]; [left] counts the rounds not
    yet started, [round + left = MAX_ROUNDS]. *)
Fixpoint judge_rounds (repoMap : gmap string TrendingRepo) (round left : nat)
    : M unit :=
  match left with
  | O =>
      throw (Error ("All ideas rejected by the differentiation judge after "
                    +:+ pretty MAX_ROUNDS +:+ " rounds"))
  | S left' =>
      let! (approvedIdeas, rejected) := judge_round round repoMap in
      do! log_rejections rejected in
      if (0 <? length approvedIdeas)%nat then
        modify_state (set_ideas approvedIdeas)
      else
        do! (if (round <? MAX_ROUNDS - 1)%nat then
               let! improved := regenerateFromFeedback rejected repoMap in
               if (0 <? length improved)%nat then
                 modify_state (set_ideas improved)
               else ret tt
             else ret tt) in
        judge_rounds repoMap (S round) left'
  end.

Definition phase2b_JudgeIdeas : M unit :=
  do! modify_state (set_currentPhase "judge-ideas") in
  let! s := get_state in
  let repoMap := build_repoMap (default [] (trends s)) in
  judge_rounds repoMap 0 MAX_ROUNDS.

(** The [for] loop of [phase3_ResearchIdeas].  The label of the budget
    interpolates [idea.name] inside the [try]; the warning of the [catch]
    interpolates it again, and a throw there leaves the phase. *)
Fixpoint research_loop (candidates : list JSON) : M unit :=
  match candidates with
  | [] => throw (Error "No shippable ideas after research")
  | idea :: rest =>
      let! selected :=
        try_catch
          (let! name := lift (JS.field E idea "name") in
           let! report :=
             budgeted ("research-" +:+ name) timeBudgets.researcher
               (CallResearch idea) (fun i => researcher_research E i idea) in
           match recommendation report with
           | SHIP =>
               do! modify_state (set_selected idea report) in
               ret true
           | _ => ret false
           end)
          (fun error =>
             let! name := lift (JS.field E idea "name") in
             do! log LWarn ("Research failed for " +:+ name) in
             ret false) in
      if selected then ret tt else research_loop rest
  end.

Definition phase3_ResearchIdeas : M unit :=
  do! modify_state (set_currentPhase "research") in
  let! s := get_state in
  match ideas s with
  | Some l => research_loop l
  | None => throw (Error "this.state.ideas is not iterable")
  end.

Definition phase4_Implement : M unit :=
  do! modify_state (set_currentPhase "implement") in
  let! s := get_state in
  let! result :=
    budgeted "implement" timeBudgets.implementer
      (CallImplement (selectedIdea s) (research s))
      (fun i => implementer_implement E i (selectedIdea s) (research s)) in
  match status result with
  | failed => throw (Error "Implementation failed")
  | _ => modify_state (set_implementation result)
  end.

Definition phase5_Deploy : M unit :=
  do! modify_state (set_currentPhase "deploy") in
  let! s := get_state in
  let! result :=
    budgeted "deploy" timeBudgets.deployer
      (CallDeploy (implementation s) (selectedIdea s))
      (fun i => deployer_deploy E i (implementation s) (selectedIdea s)) in
  if deploy_success result then modify_state (set_deployment result)
  else
    throw (Error ("Deployment failed: "
                  +:+ String.concat ", " (deploy_errors result))).

Definition phase6_Announce : M unit :=
  do! modify_state (set_currentPhase "announce") in
  let! s := get_state in
  let! result :=
    budgeted "announce" timeBudgets.announcer
      (CallAnnounce (deployment s) (selectedIdea s) (implementation s))
      (fun i =>
         announcer_announce E i (deployment s) (selectedIdea s)
           (implementation s)) in
  do! modify_state (set_announcement result) in
  if tweet_success result then ret tt
  else log LWarn "Tweet failed (non-fatal)".

(** The five phases that always run. *)
Definition core_phases : M unit :=
  do! phase1_ScoutTrends in
  do! saveState in
  do! phase2_GenerateIdeas in
  do! saveState in
  do! phase2b_JudgeIdeas in
  do! saveState in
  do! phase3_ResearchIdeas in
  do! saveState in
  do! phase4_Implement in
  saveState.

Definition deploy_step : M unit :=
  if skipGithub config then
    log LWarn "⏭️  Skipping deployment (SKIP_GITHUB=true)"
  else
    do! phase5_Deploy in
    saveState.

Definition announce_step : M unit :=
  if skipTwitter config then
    log LWarn "⏭️  Skipping announcement (SKIP_TWITTER=true)"
  else
    do! phase6_Announce in
    saveState.

(** The [try] block of [run]. *)
Definition pipeline : M unit :=
  do! core_phases in
  if dryRun config then ret tt
  else
    do! deploy_step in
    announce_step.

Definition seconds_since (start t : Z) : Q :=
  (inject_Z (t - start) / 1000)%Q.

(** [run()] always resolves with a [RunResult]. *)
Definition run (w : World) : RunResult * World :=
  match pipeline w with
  | (Ok _, w1) =>
      let s := st w1 in
      ({| success := true;
          result_idea := selectedIdea s;
          result_repoUrl := repoUrl <$> deployment s;
          result_tweetUrl := announcement s ≫= tweetUrl;
          totalTime :=
            seconds_since (startTime s) (Date_now E (length (trace w1)));
          result_state := s;
          result_error := None |}, w1)
  | (Throw error, w1) =>
      let msg := message_or "Unknown error" error in
      let '(_, w2) := log LError ("❌ Slopinator-9000 failed: " +:+ msg) w1 in
      let t := Date_now E (length (trace w2)) in
      let '(_, w3) :=
        modify_state
          (fun s =>
             push_error
               {| err_phase := currentPhase s; err_error := msg;
                  err_timestamp := t |} s) w2 in
      let '(_, w4) := saveState w3 in
      ({| success := false;
          result_idea := None;
          result_repoUrl := None;
          result_tweetUrl := None;
          totalTime :=
            seconds_since (startTime (st w4)) (Date_now E (length (trace w4)));
          result_state := st w4;
          result_error := Some msg |}, w4)
  end.

End WithEnv.
End Orchestrator.

(** From [w] to [w'] exactly the calls [cs] were made, in this order, and
    nothing else changed but the log. *)
Definition calls_made (cs : list Call) (w w' : World) : Prop :=
  st w' = st w /\ trace w' = trace w ++ cs /\ disk w' = disk w
  /\ fs_ops w' = fs_ops w.

(** The calls [w'] has seen beyond those of [w]. *)
Definition new_calls (w w' : World) : list Call :=
  drop (length (trace w)) (trace w').

(** The phases of a run, by tag. *)
Definition phase_table (E : Env) : list (string * M unit) :=
  [ ("scout-trends", Orchestrator.phase1_ScoutTrends E);
    ("generate-ideas", Orchestrator.phase2_GenerateIdeas E);
    ("judge-ideas", Orchestrator.phase2b_JudgeIdeas E);
    ("research", Orchestrator.phase3_ResearchIdeas E);
    ("implement", Orchestrator.phase4_Implement E);
    ("deploy", Orchestrator.phase5_Deploy E);
    ("announce", Orchestrator.phase6_Announce E) ].

(** A run started in [w0] gets to the judging phase in world [w]: the two
    phases before it have returned. *)
Definition reaches_judging (E : Env) (w0 w : World) : Prop :=
  (do! Orchestrator.phase1_ScoutTrends E in
   do! Orchestrator.saveState E in
   do! Orchestrator.phase2_GenerateIdeas E in
   Orchestrator.saveState E) w0 = (Ok tt, w).

(** It gets to the research phase in world [w]: the judging phase has
    returned as well. *)
Definition reaches_research (E : Env) (w0 w : World) : Prop :=
  exists w1,
    reaches_judging E w0 w1
    /\ (do! Orchestrator.phase2b_JudgeIdeas E in Orchestrator.saveState E) w1
       = (Ok tt, w).

(** What a run does before it starts the phase with a given tag: the
    phases before it, each with its checkpoint.  There is none when the
    configuration leaves the phase out. *)
Definition before_phase (E : Env) (config : Config) (tag : string)
    : option (M unit) :=
  if String.eqb tag "scout-trends" then Some (ret tt)
  else if String.eqb tag "generate-ideas" then
    Some (do! Orchestrator.phase1_ScoutTrends E in Orchestrator.saveState E)
  else if String.eqb tag "judge-ideas" then
    Some (do! Orchestrator.phase1_ScoutTrends E in
          do! Orchestrator.saveState E in
          do! Orchestrator.phase2_GenerateIdeas E in
          Orchestrator.saveState E)
  else if String.eqb tag "research" then
    Some (do! Orchestrator.phase1_ScoutTrends E in
          do! Orchestrator.saveState E in
          do! Orchestrator.phase2_GenerateIdeas E in
          do! Orchestrator.saveState E in
          do! Orchestrator.phase2b_JudgeIdeas E in
          Orchestrator.saveState E)
  else if String.eqb tag "implement" then
    Some (do! Orchestrator.phase1_ScoutTrends E in
          do! Orchestrator.saveState E in
          do! Orchestrator.phase2_GenerateIdeas E in
          do! Orchestrator.saveState E in
          do! Orchestrator.phase2b_JudgeIdeas E in
          do! Orchestrator.saveState E in
          do! Orchestrator.phase3_ResearchIdeas E in
          Orchestrator.saveState E)
  else if String.eqb tag "deploy" then
    if dryRun config || skipGithub config then None
    else Some (Orchestrator.core_phases E)
  else if String.eqb tag "announce" then
    if dryRun config || skipTwitter config then None
    else Some (do! Orchestrator.core_phases E in
               Orchestrator.deploy_step E config)
  else None.

(** The name of an idea can be written into a label or a log line. *)
Definition named (E : Env) (idea : JSON) : Prop :=
  is_Ok (JS.field E idea "name") = true.

(** The line [save] logs when the checkpoint could not be written. *)
Definition save_failure_line : LogRecord :=
  {| level := LError; log_message := "Failed to save state" |}.

(** The same environment with another file system. *)
Definition with_fs (mk wr : nat -> option Exn) (E : Env) : Env :=
  {| JSON_parse := JSON_parse E;
     Number_toString := Number_toString E;
     seconds_toFixed1 := seconds_toFixed1 E;
     js_String := js_String E;
     Date_now := Date_now E;
     pi_session := pi_session E;
     trendScout_scoutTrends := trendScout_scoutTrends E;
     ideaGenerator_generateOriginalIdeas := ideaGenerator_generateOriginalIdeas E;
     ideaJudge_deadline := ideaJudge_deadline E;
     researcher_research := researcher_research E;
     implementer_implement := implementer_implement E;
     deployer_deploy := deployer_deploy E;
     announcer_announce := announcer_announce E;
     fs_mkdir := mk;
     fs_writeFile := wr |}.

(** Two worlds with the same state object and the same calls made. *)
Definition agree (w w' : World) : Prop :=
  st w = st w' /\ trace w = trace w'.

(** Two computations that, from agreeing worlds, end the same way in
    agreeing worlds. *)
Definition alike {A} (c c' : M A) : Prop :=
  forall w w', agree w w' ->
    fst (c w) = fst (c' w') /\ agree (snd (c w)) (snd (c' w')).

(** The line [phase6_Announce] logs when the tweet did not go out. *)
Definition tweet_failure_line : LogRecord :=
  {| level := LWarn; log_message := "Tweet failed (non-fatal)" |}.

(** ** Relations between the worlds before and after a computation *)

(** [c] takes every world to an [R]-related one, whether it returns or
    throws. *)
Definition preserves {A} (R : World -> World -> Prop) (c : M A) : Prop :=
  forall w, R w (snd (c w)).

(** A relation that composes and does not look at the log or the disk. *)
Class Progress (R : World -> World -> Prop) : Prop := {
  progress_trans : forall w1 w2 w3, R w1 w2 -> R w2 w3 -> R w1 w3;
  progress_quiet : forall w w', st w' = st w -> trace w' = trace w -> R w w';
}.

(** The phase tag is the same. *)
Definition same_phase (w w' : World) : Prop :=
  currentPhase (st w') = currentPhase (st w).

(** Only calls satisfying [P] were added. *)
Definition calls_only (P : Call -> Prop) (w w' : World) : Prop :=
  exists cs, trace w' = trace w ++ cs /\ Forall P cs.

(** Calls to the agent. *)
Definition is_pi_call (c : Call) : Prop :=
  match c with
  | CallPi _ => True
  | _ => False
  end.

(** The state object is untouched and only calls satisfying [P] were added. *)
Definition quiet_calls (P : Call -> Prop) (w w' : World) : Prop :=
  st w' = st w /\ calls_only P w w'.

(** The batches handed to [filterIdeas], in order. *)
Definition filter_calls (cs : list Call) : list (option (list JSON)) :=
  omap (fun c => match c with CallFilterIdeas b => Some b | _ => None end) cs.

(** [deploy] and [announce] invocations. *)
Definition is_delivery (c : Call) : Prop :=
  match c with
  | CallDeploy _ _ | CallAnnounce _ _ _ => True
  | _ => False
  end.

Definition not_delivery (c : Call) : Prop := ~ is_delivery c.

(** ** The acceptance rule as the specification words it *)

Module Spec.

Definition rated_medium_or_high (l : Level) : nat :=
  match l with
  | medium | high => 1
  | none | low => 0
  end.

(** The number of the five axes rated medium or high. *)
Definition strongAxes (a : Axes) : nat :=
  rated_medium_or_high (problemDivergence a)
  + rated_medium_or_high (technicalNovelty a)
  + rated_medium_or_high (audienceShift a)
  + rated_medium_or_high (addedValue a)
  + rated_medium_or_high (runnability a).

(** +10 if runnability is high, +5 if medium. *)
Definition bonus (r : Level) : Q :=
  match r with
  | high => 10
  | medium => 5
  | none | low => 0
  end.

(** The raw score plus the bonus, capped at 100. *)
Definition adjustedScore (v : JudgeVerdict) : Q :=
  Qmin 100 (differentiationScore v + bonus (runnability (axes v))).

(** A score clamped to 0-100. *)
Definition clamp (x : Q) : Q :=
  if Qle_bool x 0 then 0%Q else if Qle_bool 100 x then 100%Q else x.

(** The collaborator's differentiation score, clamped: the number its
    JSON holds under that name, 0 when it holds none. *)
Definition told_score (parsed : JSON) : Q :=
  match property parsed "differentiationScore" with
  | Some (JNum x) => clamp x
  | _ => 0%Q
  end.

(** The level a word names; anything else rates as none. *)
Definition level_named (word : string) : Level :=
  if String.eqb word "high" then high
  else if String.eqb word "medium" then medium
  else if String.eqb word "low" then low
  else none.

(** The collaborator's rating of an axis: the level named by the string
    its JSON holds for that axis, none when there is no such string. *)
Definition rating (parsed : JSON) (axis : string) : Level :=
  match property parsed "axes" with
  | Some ratings =>
      match property ratings axis with
      | Some (JStr word) => level_named word
      | _ => none
      end
  | None => none
  end.

Definition ratings (parsed : JSON) : Axes :=
  {| problemDivergence := rating parsed "problemDivergence";
     technicalNovelty := rating parsed "technicalNovelty";
     audienceShift := rating parsed "audienceShift";
     addedValue := rating parsed "addedValue";
     runnability := rating parsed "runnability" |}.

(** The collaborator call fails or times out, or yields no text. *)
Definition call_fails (s : Session) : Prop :=
  match ending s with
  | Threw _ | TimedOut _ => True
  | Prompted (Some m) => m <> EmptyString
  | Prompted None => False
  end
  \/ String.concat EmptyString (streamed s) = EmptyString.


(** The judge calls a batch needs: one per idea whose source repo is
    known, in the order of the batch. *)
Definition judge_calls (sourceRepos : gmap string TrendingRepo)
    (batch : list JSON) : list Call :=
  omap
    (fun idea =>
       (fun repo => CallPi (IdeaJudge.judge_task idea repo))
         <$> IdeaJudge.source_of sourceRepos idea)
    batch.

(** The report of the research call with index [i] on [idea], when that
    call settles within its budget and recommends SHIP. *)
Definition ship_report (E : Env) (i : nat) (idea : JSON)
    : option ResearchReport :=
  match researcher_research E i idea with
  | SettlesInTime (Resolves report) =>
      match recommendation report with
      | SHIP => Some report
      | _ => None
      end
  | _ => None
  end.

(** Approve iff the adjusted score is at least 50 and at least two axes
    are strong; the stored score lies in 0-100. *)
Definition acceptance_rule (v : JudgeVerdict) : Prop :=
  (approved v = true <->
   (50 <= adjustedScore v)%Q /\ 2 <= strongAxes (axes v))
  /\ (0 <= differentiationScore v)%Q /\ (differentiationScore v <= 100)%Q.

End Spec.

(** ** A concrete scenario *)

(** One trending repo, a first idea too close to it, a regenerated idea
    that passes, and collaborators that can be made to fail. *)
Module Sample.

Definition widget : TrendingRepo :=
  {| repo_owner := "acme"; repo_name := "widget";
     repo_description := "A widget toolkit"; stars := 1200 |}.

(** An idea as the prompts ask the agent to write it. *)
Definition idea (name tagline description origin strategy : string)
    (slop : Q) : JSON :=
  JObj [ ("name", JStr name);
         ("tagline", JStr tagline);
         ("description", JStr description);
         ("originalRepo", JStr origin);
         ("strategy", JStr strategy);
         ("dependencies", JArr [JStr "commander"; JStr "chalk"]);
         ("coreFeatures",
          JArr [ JObj [ ("name", JStr "run");
                        ("description", JStr "Runs from the terminal");
                        ("priority", JStr "must");
                        ("estimatedHours", JNum 2) ] ]);
         ("slopFactor", JNum slop);
         ("mvpDefinition", JStr "One command that works") ].

Definition clone : JSON :=
  idea "widget-lite" "Widgets, but smaller" "A subset of widget" "acme/widget"
    "complementary" 70.

Definition gizmo : JSON :=
  idea "gizmo-cli" "Audit any design system" "A CLI that audits design tokens"
    "acme/widget" "transfer" 70.

Definition orphan : JSON :=
  idea "orphan" "From nowhere" "An idea whose source is unknown"
    "nobody/nothing" "niche" 50.

(** An idea that passes the three tests of the casts and has no
    [dependencies]. *)
Definition bare : JSON :=
  JObj [ ("name", JStr "bare-cli");
         ("description", JStr "An idea with the required fields only");
         ("originalRepo", JStr "acme/widget");
         ("coreFeatures", JArr [JObj [("name", JStr "audit")]]) ].

(** An idea that passes them with a name that no template literal can
    convert, and whose source repo is unknown. *)
Definition nameless : JSON :=
  JObj [ ("name", JObj [("toString", JNum 1)]);
         ("description", JStr "An idea whose name is an object");
         ("originalRepo", JStr "nobody/nothing");
         ("dependencies", JArr []);
         ("coreFeatures", JArr [JObj [("name", JStr "audit")]]) ].

Definition weak_verdict : JSON :=
  JObj [ ("differentiationScore", JNum 30);
         ("axes", JObj [ ("problemDivergence", JStr "low");
                         ("technicalNovelty", JStr "none");
                         ("audienceShift", JStr "low");
                         ("addedValue", JStr "medium");
                         ("runnability", JStr "low") ]);
         ("reasoning", JStr "A smaller widget is still widget");
         ("suggestions", JArr [JStr "Serve another audience"]) ].

Definition strong_verdict : JSON :=
  JObj [ ("differentiationScore", JNum 45);
         ("axes", JObj [ ("problemDivergence", JStr "high");
                         ("technicalNovelty", JStr "medium");
                         ("audienceShift", JStr "low");
                         ("addedValue", JStr "low");
                         ("runnability", JStr "high") ]);
         ("reasoning", JStr "A different problem for other people");
         ("suggestions", JArr []) ].

(** A verdict that rejects, with a reasoning that no template literal
    can convert. *)
Definition opaque_verdict : JSON :=
  JObj [ ("differentiationScore", JNum 10);
         ("reasoning", JObj [("toString", JNum 1)]) ].

(** Score 40 with high runnability and one more strong axis: the bonus
    lifts it to exactly 50. *)
Definition edge_verdict : JSON :=
  JObj [ ("differentiationScore", JNum 40);
         ("axes", JObj [ ("technicalNovelty", JStr "medium");
                         ("runnability", JStr "high") ]) ].

(** A high score carried by one axis alone, out of range and with a
    rating that is not a level. *)
Definition narrow_verdict : JSON :=
  JObj [ ("differentiationScore", JNum 250);
         ("axes", JObj [ ("problemDivergence", JStr "high");
                         ("technicalNovelty", JStr "HIGH");
                         ("audienceShift", JNum 3) ]);
         ("reasoning", JStr EmptyString);
         ("suggestions", JStr "none") ].

(** A stand-in for [JSON.parse] that knows a few documents. *)
Definition parse (text : string) : Result JSON :=
  if String.eqb text "{weak}" then Ok weak_verdict
  else if String.eqb text "{strong}" then Ok strong_verdict
  else if String.eqb text "{edge}" then Ok edge_verdict
  else if String.eqb text "{narrow}" then Ok narrow_verdict
  else if String.eqb text "{opaque}" then Ok opaque_verdict
  else if String.eqb text "{idea}" then Ok gizmo
  else if String.eqb text "{bare}" then Ok bare
  else Throw (Error "Unexpected token in JSON").

Definition says (text : string) : Session :=
  {| streamed := ["Here it is: "; text; " (end)"]; ending := Prompted None |}.

(** The agent finds [gizmo-cli] distinct and everything else too close;
    asked to regenerate, it proposes [gizmo-cli]. *)
Definition named (name : string) (idea : JSON) : bool :=
  match property idea "name" with
  | Some (JStr s) => String.eqb s name
  | _ => false
  end.

Definition agent (i : nat) (t : PiTask) : Session :=
  match instructions t with
  | JudgePrompt idea _ =>
      if named "gizmo-cli" idea then says "{strong}" else says "{weak}"
  | RegeneratePrompt _ _ _ => says "{idea}"
  end.


(** An agent whose verdicts cannot be logged. *)
Definition opaque_agent (i : nat) (t : PiTask) : Session :=
  match instructions t with
  | JudgePrompt idea _ =>
      if named "gizmo-cli" idea then says "{strong}" else says "{opaque}"
  | RegeneratePrompt _ _ _ => says "{idea}"
  end.

Definition silent_agent (i : nat) (t : PiTask) : Session :=
  {| streamed := []; ending := TimedOut None |}.

Definition report (idea : JSON) (r : Recommendation) : ResearchReport :=
  {| report_idea := idea; recommendation := r;
     report_reasoning := "researched" |}.

Definition researcher (i : nat) (idea : JSON) : Behaviour ResearchReport :=
  if named "gizmo-cli" idea then
    SettlesInTime (Resolves (report idea SHIP))
  else if named "orphan" idea then
    SettlesInTime (Rejects (Error "browser crashed"))
  else SettlesInTime (Resolves (report idea PIVOT)).

Definition built : ImplementationResult :=
  {| status := partial; repoPath := "/tmp/gizmo-cli" |}.

Definition deployed : DeploymentResult :=
  {| deploy_success := true; repoUrl := "https://github.com/acme/gizmo-cli";
     deploy_errors := [] |}.

Definition not_deployed : DeploymentResult :=
  {| deploy_success := false; repoUrl := EmptyString;
     deploy_errors := ["push rejected"; "no token"] |}.

Definition not_tweeted : TweetResult :=
  {| tweet_success := false; tweetUrl := None |}.

(** The scenario, with the agent, the implementer, the deployer and the
    file system left open. *)
Definition env (llm : nat -> PiTask -> Session)
    (implementer : Behaviour ImplementationResult)
    (deployer : Behaviour DeploymentResult)
    (fs : nat -> option Exn) : Env :=
  {| JSON_parse := parse;
     Number_toString := fun x => pretty (Qfloor x);
     seconds_toFixed1 := fun ms => pretty (ms / 1000)%Z +:+ ".0";
     js_String := fun _ => "[object Object]";
     Date_now := fun i => (1000 * Z.of_nat i)%Z;
     pi_session := llm;
     trendScout_scoutTrends := fun _ _ => SettlesInTime (Resolves [widget]);
     ideaGenerator_generateOriginalIdeas :=
       fun _ _ => SettlesInTime (Resolves [clone]);
     ideaJudge_deadline := fun _ => None;
     researcher_research := researcher;
     implementer_implement := fun _ _ _ => implementer;
     deployer_deploy := fun _ _ _ => deployer;
     announcer_announce := fun _ _ _ _ => SettlesInTime (Resolves not_tweeted);
     fs_mkdir := fun _ => None;
     fs_writeFile := fs |}.

Definition disk_ok (i : nat) : option Exn := None.
Definition disk_full (i : nat) : option Exn := Some (Error "ENOSPC").

Definition happy : Env :=
  env agent (SettlesInTime (Resolves built)) (SettlesInTime (Resolves deployed))
    disk_ok.

Definition implementer_crashes : Env :=
  env agent (SettlesInTime (Rejects (Error "agent crashed")))
    (SettlesInTime (Resolves deployed)) disk_ok.

Definition deploy_fails : Env :=
  env agent (SettlesInTime (Resolves built))
    (SettlesInTime (Resolves not_deployed)) disk_ok.

Definition judge_down : Env :=
  env silent_agent (SettlesInTime (Resolves built))
    (SettlesInTime (Resolves deployed)) disk_ok.


Definition opaque : Env :=
  env opaque_agent (SettlesInTime (Resolves built))
    (SettlesInTime (Resolves deployed)) disk_ok.

(** The same with a researcher that never recommends shipping. *)
Definition nothing_ships : Env :=
  {| JSON_parse := JSON_parse happy;
     Number_toString := Number_toString happy;
     seconds_toFixed1 := seconds_toFixed1 happy;
     js_String := js_String happy;
     Date_now := Date_now happy;
     pi_session := pi_session happy;
     trendScout_scoutTrends := trendScout_scoutTrends happy;
     ideaGenerator_generateOriginalIdeas :=
       ideaGenerator_generateOriginalIdeas happy;
     ideaJudge_deadline := ideaJudge_deadline happy;
     researcher_research :=
       fun _ idea => SettlesInTime (Resolves (report idea ABORT));
     implementer_implement := implementer_implement happy;
     deployer_deploy := deployer_deploy happy;
     announcer_announce := announcer_announce happy;
     fs_mkdir := fs_mkdir happy;
     fs_writeFile := fs_writeFile happy |}.

Definition live : Config :=
  {| dryRun := false; skipGithub := false; skipTwitter := false |}.

Definition dry : Config :=
  {| dryRun := true; skipGithub := false; skipTwitter := false |}.

Definition start : World := Orchestrator.initial_world "run-1" 0.

Definition repos : gmap string TrendingRepo :=
  Orchestrator.build_repoMap [widget].

(** The world in which the judging phase starts: trends and ideas set. *)
Definition before_judging : World :=
  set_st
    (Orchestrator.set_ideas [clone]
       (Orchestrator.set_trends [widget] (st start)))
    start.

(** The world in which the research phase starts, with three candidates. *)
Definition before_research : World :=
  set_st (Orchestrator.set_ideas [clone; orphan; gizmo; clone] (st start)) start.

(** The first judging round of that phase and the regeneration after it. *)
Definition repoMap : gmap string TrendingRepo :=
  Orchestrator.build_repoMap (default [] (trends (st before_judging))).

Definition round1 : Result (list JSON * list Rejection) * World :=
  Orchestrator.judge_round happy 0 repoMap
    (set_st (Orchestrator.set_currentPhase "judge-ideas" (st before_judging))
       before_judging).

Definition round1_rejected : list Rejection :=
  match fst round1 with
  | Ok (_, rejected) => rejected
  | Throw _ => []
  end.

Definition regeneration : Result (list JSON) * World :=
  Orchestrator.regenerateFromFeedback happy round1_rejected repoMap (snd round1).

Definition improved : list JSON :=
  match fst regeneration with
  | Ok l => l
  | Throw _ => []
  end.

End Sample.

(** ** Vocabulary for the properties of strings, groups and runs *)

From Stdlib Require Import Sorted.

(** [s.includes(c)] for one character. *)
Fixpoint has_char (c : ascii) (s : string) : bool :=
  match s with
  | EmptyString => false
  | String c' rest => Ascii.eqb c' c || has_char c rest
  end.

(** [`${trend.owner}/${trend.name}`], the key of [repoMap]. *)
Definition repo_key (t : TrendingRepo) : string :=
  repo_owner t +:+ "/" +:+ repo_name t.

(** The rejections of a list, each with the key it is grouped under;
    the first of them is entry [i]. *)
Definition keyed_from (i : nat) (rejected : list Rejection)
    : list (Orchestrator.MapKey * Rejection) :=
  imap
    (fun j r =>
       (Orchestrator.key_at (i + j) (property (rej_idea r) "originalRepo"), r))
    rejected.

Definition keyed (rejected : list Rejection)
    : list (Orchestrator.MapKey * Rejection) :=
  keyed_from 0 rejected.

(** [byRepo] once the entries of a keyed list have been pushed. *)
Definition grouped (entries : list (Orchestrator.MapKey * Rejection))
    (byRepo : list (Orchestrator.MapKey * list Rejection))
    : list (Orchestrator.MapKey * list Rejection) :=
  fold_left (fun g kr => Orchestrator.group_push (fst kr) (snd kr) g)
    entries byRepo.

(** The entries of a keyed list that have the key [k]. *)
Definition with_key (k : Orchestrator.MapKey)
    (entries : list (Orchestrator.MapKey * Rejection)) : list Rejection :=
  map snd (List.filter (fun kr => bool_decide (fst kr = k)) entries).

(** No idea of the list is [null]. *)
Definition no_null_idea (rejected : list Rejection) : Prop :=
  Forall (fun r => rej_idea r <> JNull) rejected.

(** What [filterIdeas] evaluates for an idea before any call is made for
    it: the key of its source repo and, when no repo is found, the line
    of the warning; when one is found, what [judge] interpolates. *)
Definition presents (E : Env) (sourceRepos : gmap string TrendingRepo)
    (idea : JSON) : Result unit :=
  let? key := get_prop idea "originalRepo" in
  match JS.Map_get sourceRepos key with
  | None =>
      let? name := JS.field E idea "name" in
      let? repoKey := JS.interpolate E key in
      Ok tt
  | Some repo =>
      let? prompt := IdeaJudge.buildJudgePrompt E idea repo in
      Ok tt
  end.

(** All of that succeeds. *)
Definition presentable (E : Env) (sourceRepos : gmap string TrendingRepo)
    (idea : JSON) : Prop :=
  is_Ok (presents E sourceRepos idea) = true.

(** The argument of [pi.execute] in [regenerateFromFeedback]. *)
Definition regenerate_task (repo : TrendingRepo) (repoKey : string)
    (entries : list Rejection) : PiTask :=
  {| task := "regenerate-idea-from-feedback";
     instructions := RegeneratePrompt repo repoKey entries;
     timeout := 60000 |}.

(** The agent calls a regeneration needs: one per group whose repo is
    known, in the order of the groups. *)
Definition regenerate_calls (repoMap : gmap string TrendingRepo)
    (groups : list (Orchestrator.MapKey * list Rejection)) : list Call :=
  omap
    (fun g => (fun kr => CallPi (regenerate_task (snd kr) (fst kr) (snd g)))
                <$> Orchestrator.repo_of repoMap (fst g))
    groups.

(** The options [phase1_ScoutTrends] passes to the scout. *)
Definition scout_options : ScoutOptions :=
  {| period := "daily"; language := ["TypeScript"; "JavaScript"];
     minStars := 100 |}.

(** A run started in [w0] gets to the generation phase in world [w]. *)
Definition reaches_generation (E : Env) (w0 w : World) : Prop :=
  (do! Orchestrator.phase1_ScoutTrends E in Orchestrator.saveState E) w0
  = (Ok tt, w).

(** It gets to the implementation phase in world [w]. *)
Definition reaches_implement (E : Env) (w0 w : World) : Prop :=
  exists w1,
    reaches_research E w0 w1
    /\ (do! Orchestrator.phase3_ResearchIdeas E in Orchestrator.saveState E) w1
       = (Ok tt, w).

Definition is_deploy_call (c : Call) : Prop :=
  match c with
  | CallDeploy _ _ => True
  | _ => False
  end.

Definition is_announce_call (c : Call) : Prop :=
  match c with
  | CallAnnounce _ _ _ => True
  | _ => False
  end.

(** One part of the state object is the same before and after. *)
Definition same_on {X} (proj : OrchestratorState -> X) (w w' : World) : Prop :=
  proj (st w') = proj (st w).

(** What the run has found so far is still there: the run's identity is
    the same, a result that was set is still set, and the error list has
    only been appended to. *)
Definition kept (s s' : OrchestratorState) : Prop :=
  runId s' = runId s
  /\ startTime s' = startTime s
  /\ (is_Some (trends s) -> is_Some (trends s'))
  /\ (is_Some (ideas s) -> is_Some (ideas s'))
  /\ (is_Some (selectedIdea s) -> is_Some (selectedIdea s'))
  /\ (is_Some (research s) -> is_Some (research s'))
  /\ (is_Some (implementation s) -> is_Some (implementation s'))
  /\ (is_Some (deployment s) -> is_Some (deployment s'))
  /\ (is_Some (announcement s) -> is_Some (announcement s'))
  /\ errors s `prefix_of` errors s'.

Definition grows (w w' : World) : Prop := kept (st w) (st w').

(** The state file holds the state object as it is now. *)
Definition synced (w : World) : Prop := disk w = Some (st w).

(** The place of a call in the pipeline. *)
Definition stage (c : Call) : nat :=
  match c with
  | CallScoutTrends _ => 1
  | CallGenerateOriginalIdeas _ => 2
  | CallFilterIdeas _ | CallPi _ => 3
  | CallResearch _ => 4
  | CallImplement _ _ => 5
  | CallDeploy _ _ => 6
  | CallAnnounce _ _ _ => 7
  end.

(** Stages that loop: the judging rounds and the research of candidates. *)
Definition repeats (n : nat) : bool := (n =? 3)%nat || (n =? 4)%nat.

(** [a] may be followed by [b]: a later stage, or the same looping stage. *)
Definition follows (a b : Call) : Prop :=
  stage a < stage b \/ (stage a = stage b /\ repeats (stage a) = true).

(** From [w] to [w'] the calls made lie in the stages [lo..hi] and are in
    pipeline order. *)
Definition in_stages (lo hi : nat) (w w' : World) : Prop :=
  exists cs,
    trace w' = trace w ++ cs
    /\ StronglySorted follows cs
    /\ Forall (fun c => lo <= stage c <= hi) cs.

(** ** [validateConfig] and the entry point ([utils/config.ts], [index.ts]) *)

(** [process.env], after [dotenv] has loaded its file. *)
Definition ProcessEnv : Type := gmap string string.

Module EnvConfig.

(** [process.env.K === 'true'] *)
Definition flag (env : ProcessEnv) (key : string) : bool :=
  bool_decide (env !! key = Some "true").

(** [config.system] *)
Definition system (env : ProcessEnv) : Config :=
  {| dryRun := flag env "DRY_RUN";
     skipGithub := flag env "SKIP_GITHUB";
     skipTwitter := flag env "SKIP_TWITTER" |}.

Definition required : list string := ["GITHUB_TOKEN"; "GITHUB_USERNAME"].

(** [!process.env[key]]: not set, or set to the empty string. *)
Definition unset (env : ProcessEnv) (key : string) : bool :=
  match env !! key with
  | Some v => String.eqb v EmptyString
  | None => true
  end.

Definition validateConfig (env : ProcessEnv) : Result unit :=
  let missing := List.filter (unset env) required in
  if (0 <? length missing)%nat && negb (dryRun (system env)) then
    Throw (Error ("Missing required environment variables: "
                  +:+ String.concat ", " missing))
  else Ok tt.

End EnvConfig.

Module Main.

(** [main()] of [index.ts]: the code [process.exit] is called with, and
    the run when there was one.  [logger_init] and [construct] are what
    [logger.init()] and the orchestrator's constructor throw, if they
    do; [runId] is the UUID the constructor draws. *)
Definition main (env : ProcessEnv) (logger_init construct : option Exn)
    (E : Env) (runId : string) : Z * option (RunResult * World) :=
  match logger_init with
  | Some _ => (1%Z, None)
  | None =>
      match EnvConfig.validateConfig env with
      | Throw _ => (1%Z, None)
      | Ok _ =>
          match construct with
          | Some _ => (1%Z, None)
          | None =>
              let w0 := Orchestrator.initial_world runId (Date_now E 0) in
              let result := Orchestrator.run E (EnvConfig.system env) w0 in
              ((if success (fst result) then 0 else 1)%Z, Some result)
          end
      end
  end.

End Main.

(** ** [IdeaGenerator]: validation and the template fallback *)

(** [s.includes(sub)] *)
Fixpoint includes (s sub : string) {struct s} : bool :=
  match s with
  | EmptyString => String.prefix sub EmptyString
  | String _ rest => String.prefix sub s || includes rest sub
  end.

Inductive Priority : Type := must | should | could.

Record Feature : Type := {
  feature_name : string;
  feature_description : string;
  priority : Priority;
  feature_estimatedHours : Q;
}.

Inductive Complexity : Type := simple | moderate | complex.

(** A [GeneratedIdea] with the fields the generator, the validator and
    the researcher read besides those of the record above. *)
Record DetailedIdea : Type := {
  summary : GeneratedIdea;
  dependencies : list string;
  coreFeatures : list Feature;
  complexity : Complexity;
  estimatedHours : Q;
}.

Record IdeaValidation : Type := {
  isNovel : bool;
  isBuildable : bool;
  isInteresting : bool;
  confidence : Z;
  concerns : list string;
  recommendations : list string;
}.

Module IdeaGenerator.

Definition is_must (f : Feature) : bool :=
  match priority f with
  | must => true
  | _ => false
  end.

Definition is_complex (c : Complexity) : bool :=
  match c with
  | complex => true
  | _ => false
  end.

(** The four checks of [validateIdea], in the order they are made. *)
Definition over_budget (idea : DetailedIdea) : bool :=
  negb (Qle_bool (estimatedHours idea) 8).

Definition many_dependencies (idea : DetailedIdea) : bool :=
  (5 <? length (dependencies idea))%nat.

Definition many_musts (idea : DetailedIdea) : bool :=
  (3 <? length (List.filter is_must (coreFeatures idea)))%nat.

Definition validateIdea (idea : DetailedIdea) : IdeaValidation :=
  let concerns :=
    (if over_budget idea then ["Exceeds 8 hour time budget"] else [])
    ++ (if many_dependencies idea
        then ["Too many dependencies — risk of integration issues"] else [])
    ++ (if many_musts idea
        then ["Too many " +:+ dq +:+ "must-have" +:+ dq +:+ " features for an MVP"]
        else [])
    ++ (if is_complex (complexity idea) then ["High complexity"] else []) in
  let recommendations :=
    if many_musts idea then ["Reduce must-have features to 2"] else [] in
  let confidence :=
    (70 - (if over_budget idea then 20 else 0)
        - (if many_dependencies idea then 10 else 0)
        - (if many_musts idea then 10 else 0)
        - (if is_complex (complexity idea) then 15 else 0))%Z in
  {| isNovel := true;
     isBuildable :=
       Qle_bool (estimatedHours idea) 10 && (length concerns <? 3)%nat;
     isInteresting :=
       (50 <=? slopFactor (summary idea))%Z
       || match strategy (summary idea) with
          | complementary => true
          | _ => false
          end;
     confidence := Z.max 0 (Z.min 100 confidence);
     concerns := concerns;
     recommendations := recommendations |}.

Section WithRuntime.
(** [String.prototype.toLowerCase] *)
Variable toLowerCase : string -> string.

Definition inferDependencies (repo : TrendingRepo) : list string :=
  let desc := toLowerCase (repo_description repo) in
  (if includes desc "http" || includes desc "api" || includes desc "server"
   then ["node-fetch"] else [])
  ++ (if includes desc "cli" || includes desc "command"
      then ["commander"] else [])
  ++ (if includes desc "json" || includes desc "schema" then ["zod"] else []).

Definition complementaryStrategy (repo : TrendingRepo) : DetailedIdea :=
  let name := repo_name repo +:+ "-analyzer" in
  let desc :=
    if String.eqb (repo_description repo) EmptyString then repo_name repo
    else repo_description repo in
  {| summary :=
       {| idea_name := name;
          tagline := "Developer tools for " +:+ repo_name repo;
          idea_description :=
            "Analyze and inspect " +:+ desc
            +:+ " projects. Provides insights, metrics, and recommendations for "
            +:+ repo_name repo +:+ " users.";
          originalRepo := repo_owner repo +:+ "/" +:+ repo_name repo;
          strategy := complementary;
          slopFactor := 70 |};
     dependencies := ["commander"; "chalk"] ++ inferDependencies repo;
     coreFeatures :=
       [ {| feature_name := "Analyzer";
            feature_description :=
              "Analyze " +:+ repo_name repo
              +:+ " project structure and configuration";
            priority := must; feature_estimatedHours := 2 |};
         {| feature_name := "Reporter";
            feature_description := "Generate human-readable insights report";
            priority := must; feature_estimatedHours := 3 # 2 |};
         {| feature_name := "CLI Interface";
            feature_description := "Command-line interface for the analyzer";
            priority := should; feature_estimatedHours := 1 |} ];
     complexity := moderate;
     estimatedHours := 5 |}.

(** The loop of [fallbackComplementary] over [repos.slice(0, 3)].  Nothing
    in its body throws on a typed repo, so the [catch] is not modelled. *)
Fixpoint fallback_loop (repos : list TrendingRepo) (ideas : list DetailedIdea)
    : list DetailedIdea :=
  match repos with
  | [] => ideas
  | repo :: rest =>
      let idea := complementaryStrategy repo in
      let validation := validateIdea idea in
      if isBuildable validation && (50 <? confidence validation)%Z then
        fallback_loop rest (ideas ++ [idea])
      else fallback_loop rest ideas
  end.

Definition fallbackComplementary (repos : list TrendingRepo) : list DetailedIdea :=
  fallback_loop (take 3 repos) [].

End WithRuntime.
End IdeaGenerator.

(** ** [ResearchMaster]: the risks and the rule-based decision *)

Inductive RiskLevel : Type := risk_low | risk_medium | risk_high.

Inductive Severity : Type :=
  | severity_low | severity_medium | severity_high | severity_blocker.

Inductive RiskCategory : Type := technical | market | time | scope.

Record Risk : Type := {
  category : RiskCategory;
  severity : Severity;
  risk_description : string;
  mitigation : option string;
}.

(** The fields of [ExistenceCheck] and [DependencyReport] the decision
    reads. *)
Record ExistenceCheck : Type := {
  existence_isNovel : bool;
}.

Record DependencyReport : Type := {
  overallRisk : RiskLevel;
  blockers : list string;
}.

Record Decision : Type := {
  decision_recommendation : Recommendation;
  decision_confidence : Z;
  decision_reasoning : string;
}.

Module ResearchMaster.

Definition is_blocker (r : Risk) : bool :=
  match severity r with
  | severity_blocker => true
  | _ => false
  end.

Definition is_high (r : Risk) : bool :=
  match severity r with
  | severity_high => true
  | _ => false
  end.

Definition heuristicDecision (existence : ExistenceCheck)
    (deps : DependencyReport) (risks : list Risk) : Decision :=
  let blockerRisks := List.filter is_blocker risks in
  let highRisks := List.filter is_high risks in
  if (0 <? length blockerRisks)%nat then
    {| decision_recommendation := ABORT;
       decision_confidence := 90;
       decision_reasoning :=
         "Blocker risks: "
         +:+ String.concat "; " (map risk_description blockerRisks) |}
  else if negb (existence_isNovel existence) then
    {| decision_recommendation := PIVOT;
       decision_confidence := 70;
       decision_reasoning :=
         "Similar projects exist — need stronger differentiation" |}
  else if (1 <? length highRisks)%nat
          || match overallRisk deps with
             | risk_high => true
             | _ => false
             end then
    {| decision_recommendation := PIVOT;
       decision_confidence := 65;
       decision_reasoning :=
         "Multiple high risks: "
         +:+ String.concat "; " (map risk_description highRisks) |}
  else
    let confidence := (85 - Z.of_nat (length highRisks) * 10)%Z in
    {| decision_recommendation := SHIP;
       decision_confidence := Z.max 50 confidence;
       decision_reasoning :=
         if existence_isNovel existence
         then "Novel idea with manageable risks — ship it!"
         else "Risks are acceptable, proceed with caution" |}.

Section WithEnv.
Variable E : Env.

Definition risk_name (l : RiskLevel) : string :=
  match l with
  | risk_low => "low"
  | risk_medium => "medium"
  | risk_high => "high"
  end.

Definition identifyRisks (idea : DetailedIdea) (deps : DependencyReport)
    : list Risk :=
  (if negb (Qle_bool (estimatedHours idea) 6) then
     [ {| category := time; severity := severity_medium;
          risk_description :=
            "Estimated " +:+ js_String E (JNum (estimatedHours idea))
            +:+ "h may exceed budget";
          mitigation := Some "Scope down to must-have features only" |} ]
   else [])
  ++ (if IdeaGenerator.is_complex (complexity idea) then
        [ {| category := technical; severity := severity_high;
             risk_description :=
               "High complexity may lead to incomplete implementation";
             mitigation :=
               Some ("Simplify architecture, use more " +:+ dq +:+ "any"
                     +:+ dq +:+ " types") |} ]
      else [])
  ++ match overallRisk deps with
     | risk_low => []
     | level =>
         [ {| category := technical;
              severity :=
                match level with
                | risk_high => severity_high
                | _ => severity_medium
                end;
              risk_description := "Dependency risk is " +:+ risk_name level;
              mitigation :=
                Some "Use well-known alternatives or remove risky deps" |} ]
     end
  ++ (if IdeaGenerator.many_musts idea then
        [ {| category := scope; severity := severity_medium;
             risk_description := "Too many must-have features";
             mitigation := Some ("Demote some to " +:+ dq +:+ "should"
                                 +:+ dq +:+ " priority") |} ]
      else []).

End WithEnv.
End ResearchMaster.

(** ** [TrendScout] ([oracles/trend-scout.ts]) *)

(** A repo as [GitHubClient.getTrending] lists it, and the details
    [getRepoDetails] returns, both restricted to the fields read here. *)
Record RawGitHubRepo : Type := {
  raw_url : string;
  raw_name : string;
  raw_stars : Z;
  raw_language : string;
}.

Record RepoDetails : Type := {
  html_url : string;
  details_name : string;
  owner_login : string;
  details_description : option string;
  stargazers_count : Z;
  forks_count : Z;
  open_issues_count : Z;
  details_language : option string;
  size : Z;
}.

(** A [TrendingRepo] with the fields the scout computes. *)
Record AnalyzedRepo : Type := {
  analyzed : TrendingRepo;
  ideaPotential : Z;
  repo_complexity : Complexity;
  ideaSurfaces : list string;
  repo_reasoning : string;
}.

(** The GitHub client: each request is answered by a script indexed by
    the number of requests made before it. *)
Inductive GitHubCall : Type :=
  | GetTrending (period : string) (languages : list string)
  | GetRepoDetails (owner repo : string).

Definition is_details_call (c : GitHubCall) : Prop :=
  match c with
  | GetRepoDetails _ _ => True
  | GetTrending _ _ => False
  end.

Record GitHub : Type := {
  github_getTrending :
    nat -> string -> list string -> Result (list RawGitHubRepo);
  github_getRepoDetails : nat -> string -> string -> Result RepoDetails;
}.

(** [s] without the prefix [p], when it starts with it. *)
Fixpoint strip_prefix (p s : string) : option string :=
  match p, s with
  | EmptyString, _ => Some s
  | String a p', String b s' => if Ascii.eqb a b then strip_prefix p' s' else None
  | String _ _, EmptyString => None
  end.

(** The longest prefix of [s] without a slash, and what follows it. *)
Fixpoint span_no_slash (s : string) : string * string :=
  match s with
  | EmptyString => (EmptyString, EmptyString)
  | String c rest =>
      if Ascii.eqb c "/"%char then (EmptyString, s)
      else let (a, b) := span_no_slash rest in (String c a, b)
  end.

(** [([^/]+)\/([^/]+)] at the start of [s]: both groups are greedy, and
    giving back characters of the first never helps, since a slash must
    follow it. *)
Definition owner_and_repo (s : string) : option (string * string) :=
  match span_no_slash s with
  | (EmptyString, _) => None
  | (owner, String _ rest) =>
      match span_no_slash rest with
      | (EmptyString, _) => None
      | (repo, _) => Some (owner, repo)
      end
  | (_, EmptyString) => None
  end.

(** [url.match(/github\.com\/([^/]+)\/([^/]+)/)]: the leftmost match. *)
Fixpoint match_github_url (url : string) : option (string * string) :=
  match url with
  | EmptyString => None
  | String _ rest =>
      match strip_prefix "github.com/" url with
      | Some after =>
          match owner_and_repo after with
          | Some groups => Some groups
          | None => match_github_url rest
          end
      | None => match_github_url rest
      end
  end.

Module TrendScout.

(** [[...repos].sort((a, b) => b.ideaPotential - a.ideaPotential)]: the
    sort is stable and the comparator orders by potential, so the result
    is the stable sort by descending potential, written here as an
    insertion sort. *)
Fixpoint insert_by_potential (x : AnalyzedRepo) (l : list AnalyzedRepo)
    : list AnalyzedRepo :=
  match l with
  | [] => [x]
  | y :: rest =>
      if (ideaPotential x <? ideaPotential y)%Z
      then y :: insert_by_potential x rest
      else x :: y :: rest
  end.

Definition rankByPotential (repos : list AnalyzedRepo) : list AnalyzedRepo :=
  foldr insert_by_potential [] repos.

Definition assessComplexity (repo : RepoDetails) : Complexity :=
  if (size repo <? 500)%Z then simple
  else if (size repo <? 5000)%Z then moderate
  else complex.

Section WithRuntime.
(** [String.prototype.toLowerCase] *)
Variable toLowerCase : string -> string.

(** [(repo.stargazers_count as number) || 0] and the like are the number
    itself: the API sends integers. *)
Definition calculateIdeaPotential (repo : RepoDetails) : Z :=
  let stars := stargazers_count repo in
  let forks := forks_count repo in
  let issues := open_issues_count repo in
  let language := default EmptyString (details_language repo) in
  let description := toLowerCase (default EmptyString (details_description repo)) in
  let score := 50%Z in
  let score := if (10 <? issues)%Z then (score + 10)%Z else score in
  let score := if (50 <? forks)%Z then (score + 10)%Z else score in
  let score := if (500 <? stars)%Z then (score + 5)%Z else score in
  let score :=
    if String.eqb language "TypeScript" then (score + 15)%Z
    else if String.eqb language "JavaScript" then (score + 10)%Z
    else score in
  let score := if (size repo <? 1000)%Z then (score + 10)%Z else score in
  let score := if (10000 <? size repo)%Z then (score - 15)%Z else score in
  let score := if includes description "cli" then (score + 10)%Z else score in
  let score := if includes description "framework" then (score + 5)%Z else score in
  let score := if includes description "plugin" then (score + 10)%Z else score in
  let score := if includes description "api" then (score + 5)%Z else score in
  Z.max 0 (Z.min 100 score).

Definition detectIdeaSurfaces (repo : RepoDetails) : list string :=
  let desc := toLowerCase (default EmptyString (details_description repo)) in
  let surfaces :=
    (if includes desc "framework"
     then ["complementary-tool"; "alternative-implementation"] else [])
    ++ (if includes desc "cli" || includes desc "command"
        then ["gui-wrapper"; "web-version"] else [])
    ++ (if includes desc "library" || includes desc "lib"
        then ["specific-use-case"; "simplified-version"] else [])
    ++ (if includes desc "api" then ["api-wrapper"; "sdk-generator"] else [])
    ++ (if includes desc "tool" || includes desc "utility"
        then ["niche-specialization"] else []) in
  if (length surfaces =? 0)%nat then surfaces ++ ["general-derivative"]
  else surfaces.

Definition explainScore (repo : RepoDetails) (score : Z) : string :=
  let language := default EmptyString (details_language repo) in
  let issues := open_issues_count repo in
  let reasons :=
    (if String.eqb language "TypeScript" then ["TypeScript (preferred language)"]
     else if String.eqb language "JavaScript" then ["JavaScript ecosystem"]
     else [])
    ++ (if (10 <? issues)%Z then ["Active community engagement"] else [])
    ++ (if (75 <=? score)%Z then ["High idea potential"]
        else if (60 <=? score)%Z then ["Good idea potential"]
        else []) in
  let joined := String.concat ", " reasons in
  if String.eqb joined EmptyString then "Decent baseline metrics" else joined.

Variable gh : GitHub.

(** The scout's own effects: the requests made so far, and a throw. *)
Definition Scout (A : Type) : Type :=
  list GitHubCall -> Result A * list GitHubCall.

Definition analyzeRepo (repoUrl : string) : Scout AnalyzedRepo :=
  fun calls =>
    match match_github_url repoUrl with
    | None => (Throw (Error ("Invalid GitHub URL: " +:+ repoUrl)), calls)
    | Some (owner, repo) =>
        let calls' := calls ++ [GetRepoDetails owner repo] in
        match github_getRepoDetails gh (length calls) owner repo with
        | Throw e => (Throw e, calls')
        | Ok details =>
            let potential := calculateIdeaPotential details in
            (Ok {| analyzed :=
                     {| repo_owner := owner_login details;
                        repo_name := details_name details;
                        repo_description :=
                          default EmptyString (details_description details);
                        stars := stargazers_count details |};
                   ideaPotential := potential;
                   repo_complexity := assessComplexity details;
                   ideaSurfaces := detectIdeaSurfaces details;
                   repo_reasoning := explainScore details potential |},
             calls')
        end
    end.

(** The loop over the periods: it stops at the first period with
    results, and ends with the results of the last period asked. *)
Fixpoint fetch (periods : list string) (languages : list string)
    (repos : list RawGitHubRepo) : Scout (list RawGitHubRepo) :=
  fun calls =>
    match periods with
    | [] => (Ok repos, calls)
    | period :: rest =>
        let calls' := calls ++ [GetTrending period languages] in
        match github_getTrending gh (length calls) period languages with
        | Throw e => (Throw e, calls')
        | Ok found =>
            if (0 <? length found)%nat then (Ok found, calls')
            else fetch rest languages found calls'
        end
    end.

(** The loop that analyses the candidates; a failed analysis is skipped. *)
Fixpoint analyze_all (candidates : list RawGitHubRepo)
    (done : list AnalyzedRepo) : Scout (list AnalyzedRepo) :=
  fun calls =>
    match candidates with
    | [] => (Ok done, calls)
    | repo :: rest =>
        match analyzeRepo (raw_url repo) calls with
        | (Ok analysisResult, calls') =>
            analyze_all rest (done ++ [analysisResult]) calls'
        | (Throw _, calls') => analyze_all rest done calls'
        end
    end.

Definition periods_for (period : string) : list string :=
  [period]
  ++ (if String.eqb period "daily" then ["weekly"; "monthly"]
      else if String.eqb period "weekly" then ["monthly"]
      else []).

(** The filter of [scoutTrends], for options without [topics] and
    [maxAge], which the orchestrator does not set. *)
Definition passes (options : ScoutOptions) (repo : RawGitHubRepo) : bool :=
  negb (negb (minStars options =? 0)%Z && (raw_stars repo <? minStars options)%Z)
  && negb ((0 <? length (language options))%nat
           && negb (existsb (String.eqb (raw_language repo)) (language options))).

Definition scoutTrends (options : ScoutOptions) : Scout (list AnalyzedRepo) :=
  fun calls =>
    match fetch (periods_for (period options)) (language options) [] calls with
    | (Throw e, calls') => (Throw e, calls')
    | (Ok repos, calls') =>
        let filtered := List.filter (passes options) repos in
        match analyze_all (take 10 filtered) [] calls' with
        | (Throw e, calls'') => (Throw e, calls'')
        | (Ok analyzedRepos, calls'') =>
            (Ok (take 5 (rankByPotential analyzedRepos)), calls'')
        end
    end.

End WithRuntime.
End TrendScout.

(** ** The tweet templates and [TwitterAnnouncer] *)

(** The text of a tweet, as its UTF-16 code units: [length] and
    [substring] count those. *)
Definition JsText : Type := list N.

(** The code units of a literal that is all ASCII. *)
Definition units (s : string) : JsText :=
  map N_of_ascii (list_ascii_of_string s).

Fixpoint starts_with (text sub : JsText) : bool :=
  match sub, text with
  | [], _ => true
  | a :: sub', b :: text' => N.eqb a b && starts_with text' sub'
  | _ :: _, [] => false
  end.

(** [text.includes(sub)] *)
Fixpoint text_includes (text sub : JsText) : bool :=
  match text with
  | [] => starts_with [] sub
  | _ :: rest => starts_with text sub || text_includes rest sub
  end.

Module TweetTemplates.

Inductive TweetStyle : Type := honest | meme | technical | chaotic.

Record TweetData : Type := {
  data_name : string;
  data_description : string;
  githubUrl : string;
  hours : Q;
  data_originalRepo : string;
  data_strategy : IdeaStrategy;
}.

Section WithRuntime.
(** The four templates; their wording is not modelled. *)
Variable templates : TweetStyle -> TweetData -> JsText.
(** [new Date().getHours()] and [Math.random()] *)
Variable hour : Z.
Variable random : Q.

Definition composeTweetText (style : TweetStyle) (data : TweetData) : JsText :=
  let text := templates style data in
  if (length text <=? 280)%nat then text
  else take 277 text ++ units "...".

(** The double that the literal [0.7] denotes. *)
Definition double_0_7 : Q := 3152519739159347 # 4503599627370496.

Definition selectTweetStyle (slopFactor : Z) (complexity : Complexity)
    : TweetStyle :=
  if (23 <=? hour)%Z || (hour <? 6)%Z then chaotic
  else if (80 <? slopFactor)%Z then meme
  else if IdeaGenerator.is_complex complexity then technical
  else if negb (Qle_bool random double_0_7) then technical
  else honest.

End WithRuntime.
End TweetTemplates.

(** The idea of the declared type that a JSON value is, as far as the
    fields kept in [GeneratedIdea] go. *)
Definition strategy_named (s : string) : option IdeaStrategy :=
  if String.eqb s "adjacent" then Some adjacent
  else if String.eqb s "complementary" then Some complementary
  else if String.eqb s "abstraction" then Some abstraction
  else if String.eqb s "inverse" then Some inverse
  else if String.eqb s "transfer" then Some transfer
  else if String.eqb s "niche" then Some niche
  else None.

Definition declared (v : JSON) : option GeneratedIdea :=
  match property v "name", property v "tagline", property v "description",
        property v "originalRepo", property v "strategy",
        property v "slopFactor" with
  | Some (JStr n), Some (JStr t), Some (JStr d), Some (JStr o), Some (JStr s),
    Some (JNum x) =>
      match strategy_named s with
      | Some how =>
          if Qeq_bool x (inject_Z (Qfloor x)) then
            Some {| idea_name := n; tagline := t; idea_description := d;
                    originalRepo := o; strategy := how;
                    slopFactor := Qfloor x |}
          else None
      | None => None
      end
  | _, _, _, _, _, _ => None
  end.

Module TwitterAnnouncer.
Section WithRuntime.
Variable templates :
  TweetTemplates.TweetStyle -> TweetTemplates.TweetData -> JsText.
Variable hour : Z.
Variable random : Q.
(** [String.prototype.toLowerCase] *)
Variable toLowerCase : JsText -> JsText.
(** The id [TwitterClient.tweet] makes up. *)
Variable fakeId : string.
(** Two fields the records above do not keep: [idea.complexity] and
    [implementation.totalHours]. *)
Variable idea_complexity : GeneratedIdea -> Complexity.
Variable totalHours : ImplementationResult -> Q.

Definition banned : list JsText :=
  [units "spam"; units "scam"; units "click here"].

Definition validateTweet (text : JsText) : bool :=
  if (280 <? length text)%nat then false
  else if negb (text_includes text (units "github.com"))
          && negb (text_includes text (units "twitter.com/dryrun")) then false
  else if existsb (fun word => text_includes (toLowerCase text) word) banned
  then false
  else true.

(** [TwitterClient.tweet]: posting is switched off, and an answer is
    made up. *)
Definition tweet (text : JsText) : string * string :=
  (fakeId, "https://twitter.com/dev/null/status/" +:+ fakeId).

Definition failed_tweet : TweetResult :=
  {| tweet_success := false; tweetUrl := None |}.

(** [announce]: the arguments are as the orchestrator passes them, so any
    of them may be [undefined].  Reading [idea.name] for the first log
    line is outside the [try]; reading [deployment.repoUrl] and
    [implementation.totalHours] is inside it. *)
Definition announce (deployment : option DeploymentResult)
    (idea : option GeneratedIdea) (implementation : option ImplementationResult)
    : Result TweetResult :=
  match idea with
  | None =>
      Throw (Error "Cannot read properties of undefined (reading 'name')")
  | Some idea =>
      let style :=
        TweetTemplates.selectTweetStyle hour random (slopFactor idea)
          (idea_complexity idea) in
      match deployment, implementation with
      | Some deployment, Some implementation =>
          let text :=
            TweetTemplates.composeTweetText templates style
              {| TweetTemplates.data_name := idea_name idea;
                 TweetTemplates.data_description := tagline idea;
                 TweetTemplates.githubUrl := repoUrl deployment;
                 TweetTemplates.hours := totalHours implementation;
                 TweetTemplates.data_originalRepo := originalRepo idea;
                 TweetTemplates.data_strategy := strategy idea |} in
          if validateTweet text then
            Ok {| tweet_success := true; tweetUrl := Some (snd (tweet text)) |}
          else Ok failed_tweet
      | _, _ => Ok failed_tweet
      end
  end.

End WithRuntime.
End TwitterAnnouncer.

(** ** More of the scenario *)

Module Fixture.

(** The scenario with another scout, generator and announcer. *)
Definition with_oracles
    (scout : Behaviour (list TrendingRepo))
    (generator : Behaviour (list JSON))
    (announcer :
       option DeploymentResult -> option JSON ->
       option ImplementationResult -> Behaviour TweetResult)
    (E : Env) : Env :=
  {| JSON_parse := JSON_parse E;
     Number_toString := Number_toString E;
     seconds_toFixed1 := seconds_toFixed1 E;
     js_String := js_String E;
     Date_now := Date_now E;
     pi_session := pi_session E;
     trendScout_scoutTrends := fun _ _ => scout;
     ideaGenerator_generateOriginalIdeas := fun _ _ => generator;
     ideaJudge_deadline := ideaJudge_deadline E;
     researcher_research := researcher_research E;
     implementer_implement := implementer_implement E;
     deployer_deploy := deployer_deploy E;
     announcer_announce := fun _ => announcer;
     fs_mkdir := fs_mkdir E;
     fs_writeFile := fs_writeFile E |}.

Definition silent_announcer
    (d : option DeploymentResult) (i : option JSON)
    (m : option ImplementationResult) : Behaviour TweetResult :=
  SettlesInTime (Resolves Sample.not_tweeted).

Definition no_trends : Env :=
  with_oracles (SettlesInTime (Resolves []))
    (SettlesInTime (Resolves [Sample.clone])) silent_announcer Sample.happy.

Definition no_ideas : Env :=
  with_oracles (SettlesInTime (Resolves [Sample.widget]))
    (SettlesInTime (Resolves [])) silent_announcer Sample.happy.

Definition broken : ImplementationResult :=
  {| status := failed; repoPath := "/tmp/gizmo-cli" |}.

Definition broken_build : Env :=
  Sample.env Sample.agent (SettlesInTime (Resolves broken))
    (SettlesInTime (Resolves Sample.deployed)) Sample.disk_ok.

Definition no_github : Config :=
  {| dryRun := false; skipGithub := true; skipTwitter := false |}.

(** The worlds a run of the scenario goes through. *)
Definition after_scout (E : Env) : World :=
  snd ((do! Orchestrator.phase1_ScoutTrends E in Orchestrator.saveState E)
         Sample.start).

Definition after_generation (E : Env) : World :=
  snd ((do! Orchestrator.phase2_GenerateIdeas E in Orchestrator.saveState E)
         (after_scout E)).

Definition after_judging (E : Env) : World :=
  snd ((do! Orchestrator.phase2b_JudgeIdeas E in Orchestrator.saveState E)
         (after_generation E)).

Definition after_research (E : Env) : World :=
  snd ((do! Orchestrator.phase3_ResearchIdeas E in Orchestrator.saveState E)
         (after_judging E)).

(** A judging phase that starts with three ideas, one of them with an
    unknown source. *)
Definition mixed : World :=
  set_st
    (Orchestrator.set_ideas [Sample.clone; Sample.gizmo; Sample.orphan]
       (Orchestrator.set_trends [Sample.widget] (st Sample.start)))
    Sample.start.

Definition judging (w : World) : World :=
  set_st (Orchestrator.set_currentPhase "judge-ideas" (st w)) w.

Definition round1 (E : Env) (w : World)
    : Result (list JSON * list Rejection) * World :=
  Orchestrator.judge_round E 0
    (Orchestrator.build_repoMap (default [] (trends (st w)))) (judging w).

Definition round1_rejected (E : Env) (w : World) : list Rejection :=
  match fst (round1 E w) with
  | Ok (_, rejected) => rejected
  | Throw _ => []
  end.

(** An idea planned for twelve hours, as in the generator's tests. *)
Definition gizmo : GeneratedIdea :=
  {| idea_name := "gizmo-cli"; tagline := "Audit any design system";
     idea_description := "A CLI that audits design tokens";
     originalRepo := "acme/widget"; strategy := transfer; slopFactor := 70 |}.

Definition twelve_hours : DetailedIdea :=
  {| summary := gizmo;
     dependencies := ["a"; "b"];
     coreFeatures := [];
     complexity := complex;
     estimatedHours := 12 |}.

Definition novel : ExistenceCheck := {| existence_isNovel := true |}.

Definition healthy : DependencyReport :=
  {| overallRisk := risk_low; blockers := [] |}.

Definition details : RepoDetails :=
  {| html_url := "https://github.com/acme/widget";
     details_name := "widget";
     owner_login := "acme";
     details_description := Some "A CLI framework";
     stargazers_count := 1200;
     forks_count := 80;
     open_issues_count := 12;
     details_language := Some "TypeScript";
     size := 800 |}.

(** A runtime for the announcer: one template for every style, midday,
    and the identity standing in for the lower-casing. *)
Definition template (style : TweetTemplates.TweetStyle)
    (data : TweetTemplates.TweetData) : JsText :=
  units ("Just shipped " +:+ TweetTemplates.data_name data +:+ " "
         +:+ TweetTemplates.githubUrl data).

Definition announce
    : option DeploymentResult -> option GeneratedIdea ->
      option ImplementationResult -> Result TweetResult :=
  TwitterAnnouncer.announce template 12 (1 # 2) id "42"
    (fun _ => moderate) (fun _ => 5%Q).

(** The announcer of the code, for an idea that has the fields of the
    declared type; it is not asked about any other. *)
Definition announcer (d : option DeploymentResult) (i : option JSON)
    (m : option ImplementationResult) : Behaviour TweetResult :=
  match i with
  | Some v =>
      match declared v with
      | Some idea =>
          SettlesInTime (Orchestrator.settle_of (announce d (Some idea) m))
      | None => SettlesInTime (Rejects (Error "not an idea"))
      end
  | None => SettlesInTime (Orchestrator.settle_of (announce d None m))
  end.

Definition announcing : Env :=
  with_oracles (SettlesInTime (Resolves [Sample.widget]))
    (SettlesInTime (Resolves [Sample.clone])) announcer Sample.happy.

End Fixture.


(** * Properties *)

(** ** The monad *)

Lemma bind_Ok {A B} (c : M A) (k : A -> M B) w a w' :
  c w = (Ok a, w') -> bind c k w = k a w'.
Proof. intros H. unfold bind. now rewrite H. Qed.

Lemma bind_Throw {A B} (c : M A) (k : A -> M B) w e w' :
  c w = (Throw e, w') -> bind c k w = (Throw e, w').
Proof. intros H. unfold bind. now rewrite H. Qed.

Lemma bind_lift_Ok {A B} (a : A) (k : A -> M B) w :
  bind (lift (Ok a)) k w = k a w.
Proof. reflexivity. Qed.

Lemma bind_lift_Throw {A B} (e : Exn) (k : A -> M B) w :
  bind (lift (@Throw A e)) k w = (Throw e, w).
Proof. reflexivity. Qed.

(** ** TimeBudget *)

Section TimeBudgetFacts.
Variable E : Env.
Context {T : Type}.
Variables (label : string) (budgetSeconds startTime : Z).

(** Once the promise has settled, no later callback changes it. *)
Lemma settled_is_final (events : list (Event T)) (s : TimeBudget.RunState T) :
  TimeBudget.promise s <> TimeBudget.Pending ->
  TimeBudget.promise
    (fold_left (TimeBudget.step E label budgetSeconds startTime) events s)
  = TimeBudget.promise s.
Proof.
  revert s. induction events as [|ev events IH]; intros s Hs; [reflexivity|].
  cbn [fold_left].
  assert (Hstep : TimeBudget.promise
                    (TimeBudget.step E label budgetSeconds startTime s ev)
                  = TimeBudget.promise s).
  { destruct s as [p armed], ev as [r|t]; cbn in *.
    - destruct p; [congruence| |]; reflexivity.
    - destruct armed; cbn; [|reflexivity].
      destruct p; [congruence| |]; reflexivity. }
  rewrite IH; [exact Hstep|]. now rewrite Hstep.
Qed.

Lemma run_events_of_settled (b : Behaviour T) :
  TimeBudget.run E label budgetSeconds startTime (events_of b)
  = match b with
    | SettlesInTime (Resolves v) => TimeBudget.Resolved v
    | SettlesInTime (Rejects e) => TimeBudget.Rejected e
    | Overruns t _ =>
        TimeBudget.Rejected
          (TimeBudget.timeout_error E label budgetSeconds startTime t)
    end.
Proof.
  destruct b as [[v|e]|t [[v|e]|]]; reflexivity.
Qed.
End TimeBudgetFacts.

(** C5.  Whichever callback runs first decides the promise [TimeBudget.run]
    returns, whatever happens afterwards: if the operation settles first
    the promise resolves with its value or rejects with its own error,
    unchanged; if the timer fires first the promise rejects with an error
    whose message names the label, the elapsed seconds and the budget. *)
Theorem TimeBudget_run_first_callback_wins
    (E : Env) (T : Type) (label : string) (budgetSeconds startTime : Z)
    (first : Event T) (later : list (Event T)) :
  TimeBudget.run E label budgetSeconds startTime (first :: later)
  = match first with
    | FnSettled (Resolves v) => TimeBudget.Resolved v
    | FnSettled (Rejects e) => TimeBudget.Rejected e
    | TimerFired t =>
        TimeBudget.Rejected
          (Error ("TimeBudget exceeded for " +:+ dq +:+ label +:+ dq +:+ ": "
                  +:+ seconds_toFixed1 E (t - startTime) +:+ "s / "
                  +:+ pretty budgetSeconds +:+ "s"))
    end.
Proof.
  unfold TimeBudget.run. cbn [fold_left].
  rewrite settled_is_final.
  - destruct first as [[v|e]|t]; reflexivity.
  - destruct first as [[v|e]|t]; discriminate.
Qed.


(** ** The judge *)

Lemma Qle_bool_false (x y : Q) : Qle_bool x y = false -> (y < x)%Q.
Proof.
  intros H. apply Qnot_le_lt. intros Hle. apply Qle_bool_iff in Hle. congruence.
Qed.

Ltac Qcmp H :=
  first [rewrite <- Qeq_alt in H | rewrite <- Qlt_alt in H | rewrite <- Qgt_alt in H].

(** [Math.max(0, Math.min(100, x))] is the clamp of the specification. *)
Lemma clamp_score_spec (x : Q) :
  Qmax 0 (Qmin 100 x) = Spec.clamp x.
Proof.
  unfold Spec.clamp, Qmax, Qmin, GenericMinMax.gmax, GenericMinMax.gmin.
  destruct (Qle_bool x 0) eqn:H0;
    [apply Qle_bool_iff in H0 | apply Qle_bool_false in H0];
  (destruct (Qle_bool 100 x) eqn:H1;
    [apply Qle_bool_iff in H1 | apply Qle_bool_false in H1]);
  match goal with |- context [(?a ?= x)%Q] => destruct (a ?= x)%Q eqn:C1 end;
  Qcmp C1; try lra;
  match goal with |- context [match (?a ?= ?b)%Q with _ => _ end] =>
    destruct (a ?= b)%Q eqn:C2 end;
  Qcmp C2; try lra; try reflexivity.
Qed.

Lemma clamp_score_range (v : option JSON) :
  (0 <= IdeaJudge.clamp_score v)%Q /\ (IdeaJudge.clamp_score v <= 100)%Q.
Proof.
  destruct v as [[| |x| | |]|]; cbn; try lra.
  split.
  - apply Q.le_max_l.
  - apply Q.max_lub; [lra | apply Q.le_min_l].
Qed.

Lemma strongAxes_spec (a : Axes) : IdeaJudge.strongAxes a = Spec.strongAxes a.
Proof. destruct a as [[] [] [] [] []]; reflexivity. Qed.

Lemma runnabilityBonus_spec (a : Axes) :
  IdeaJudge.runnabilityBonus a = Spec.bonus (runnability a).
Proof. unfold IdeaJudge.runnabilityBonus. now destruct (runnability a). Qed.

Lemma failedVerdict_rule (reason : string) :
  Spec.acceptance_rule (IdeaJudge.failedVerdict reason).
Proof.
  unfold Spec.acceptance_rule, Spec.adjustedScore. cbn. repeat split; try lra.
  intros [_ H]. lia.
Qed.

Lemma computed_verdict_rule (ds : option JSON) (a : Axes) (r : JSON) (sg : list JSON) :
  Spec.acceptance_rule
    {| approved :=
         Qle_bool IdeaJudge.MIN_DIFFERENTIATION_SCORE
           (Qmin 100 (IdeaJudge.clamp_score ds + IdeaJudge.runnabilityBonus a))
         && (IdeaJudge.MIN_STRONG_AXES <=? IdeaJudge.strongAxes a)%nat;
       differentiationScore := IdeaJudge.clamp_score ds;
       axes := a; reasoning := r; suggestions := sg |}.
Proof.
  unfold Spec.acceptance_rule, Spec.adjustedScore. cbn [approved differentiationScore axes].
  rewrite andb_true_iff, Qle_bool_iff, Nat.leb_le.
  rewrite strongAxes_spec, runnabilityBonus_spec.
  unfold IdeaJudge.MIN_DIFFERENTIATION_SCORE, IdeaJudge.MIN_STRONG_AXES.
  pose proof (clamp_score_range ds). tauto.
Qed.

Lemma calls_made_nil w : calls_made [] w w.
Proof. unfold calls_made. rewrite app_nil_r. repeat split. Qed.

Lemma calls_made_app cs1 cs2 w1 w2 w3 :
  calls_made cs1 w1 w2 -> calls_made cs2 w2 w3 -> calls_made (cs1 ++ cs2) w1 w3.
Proof.
  unfold calls_made. intros (?&?&?&?) (?&Ht&?&?).
  repeat split; try congruence. rewrite Ht. rewrite app_assoc. congruence.
Qed.

Lemma calls_made_log l m w : calls_made [] w (snd (log l m w)).
Proof. unfold calls_made. cbn. rewrite app_nil_r. repeat split. Qed.

Lemma calls_made_record c w : calls_made [c] w (snd (record_call c w)).
Proof. repeat split. Qed.

Lemma get_prop_opt_Ok (v : option JSON) (k : string) :
  exists r, get_prop_opt v k = Ok r.
Proof. destruct v as [[]|]; cbn; eauto. Qed.

Lemma level_named_spec (v : option JSON) :
  IdeaJudge.parseLevel v
  = match v with
    | Some (JStr word) => Spec.level_named word
    | _ => none
    end.
Proof.
  destruct v as [[| | |s| |]|]; try reflexivity.
  unfold IdeaJudge.parseLevel, Spec.level_named.
  destruct (String.eqb s "none") eqn:Hn.
  - apply String.eqb_eq in Hn. subst s. reflexivity.
  - destruct (String.eqb s "low") eqn:Hl.
    + apply String.eqb_eq in Hl. subst s. reflexivity.
    + destruct (String.eqb s "medium") eqn:Hm.
      * apply String.eqb_eq in Hm. subst s. reflexivity.
      * now destruct (String.eqb s "high").
Qed.

(** What [parseVerdict] returns, case by case.  It never throws, and
    what it makes of a parsed answer are the score and the ratings the
    answer holds. *)
Lemma parseVerdict_spec (E : Env) (raw ideaName : string) (w : World) :
  exists v w',
    IdeaJudge.parseVerdict E raw ideaName w = (Ok v, w')
    /\ calls_made [] w w'
    /\ Spec.acceptance_rule v
    /\ (match_braces raw = None ->
        v = IdeaJudge.failedVerdict "Could not parse LLM response")
    /\ (forall m e, match_braces raw = Some m -> JSON_parse E m = Throw e ->
        v = IdeaJudge.failedVerdict "JSON parse error")
    /\ (forall m parsed, match_braces raw = Some m ->
        JSON_parse E m = Ok parsed ->
        differentiationScore v = Spec.told_score parsed
        /\ axes v = Spec.ratings parsed).
Proof.
  unfold IdeaJudge.parseVerdict, try_catch.
  destruct (match_braces raw) as [m|] eqn:Hm.
  - destruct (JSON_parse E m) as [parsed|e] eqn:Hp.
    + destruct parsed as [|b|x|s|items|fields]; cbn;
        repeat match goal with
        | |- context [get_prop_opt ?v ?k] =>
            let a := fresh "a" in
            let Ha := fresh "Ha" in
            destruct (get_prop_opt_Ok v k) as [a Ha]; rewrite Ha
        end; cbn;
        eexists _, _; (split; [reflexivity|]);
        (split; [first [apply calls_made_nil | apply calls_made_log]|]);
        (split; [first [apply failedVerdict_rule | apply computed_verdict_rule]|]);
        (split; [discriminate|]);
        (split; [intros m' e' [= <-]; congruence|]);
        intros m' parsed' [= <-] Hp'; rewrite Hp in Hp';
        injection Hp' as <-; try (split; reflexivity).
      cbn [differentiationScore axes]. split.
      * unfold Spec.told_score, IdeaJudge.clamp_score. cbn [property].
        destruct (assoc "differentiationScore" fields) as [[| |x| | |]|];
          try reflexivity.
        apply clamp_score_spec.
      * unfold Spec.ratings, Spec.rating. cbn [property].
        rewrite !level_named_spec.
        destruct (assoc "axes" fields) as [ratings|] eqn:Hax;
          cbn in Ha, Ha0, Ha1, Ha2, Ha3.
        -- destruct ratings; cbn in Ha, Ha0, Ha1, Ha2, Ha3;
             injection Ha as <-; injection Ha0 as <-; injection Ha1 as <-;
             injection Ha2 as <-; injection Ha3 as <-; reflexivity.
        -- injection Ha as <-; injection Ha0 as <-; injection Ha1 as <-;
             injection Ha2 as <-; injection Ha3 as <-; reflexivity.
    + cbn. eexists _, _. split; [reflexivity|].
      split; [apply calls_made_log|].
      split; [apply failedVerdict_rule|].
      split; [discriminate|].
      split; [reflexivity|].
      intros m' parsed' [= <-] Hp'. congruence.
  - cbn. eexists _, _. split; [reflexivity|].
    split; [apply calls_made_log|].
    split; [apply failedVerdict_rule|].
    split; [reflexivity|].
    split; intros; discriminate.
Qed.

Lemma execute_spec (E : Env) (t : PiTask) (w : World) :
  let s := pi_session E (length (trace w)) t in
  exists r w',
    PiAgent.execute E t w = (Ok r, w')
    /\ calls_made [CallPi t] w w'
    /\ output r = Some (String.concat EmptyString (streamed s))
    /\ pi_success r
       = match ending s with
         | Prompted (Some m) => String.eqb m EmptyString
         | Prompted None => true
         | _ => false
         end.
Proof.
  unfold PiAgent.execute, PiAgent.on_error, bind, record_call, log, ret. cbn.
  destruct (ending (pi_session E (length (trace w)) t)) as [e|[e|]|[m|]];
    eexists _, _; (split; [reflexivity|]); cbn;
    repeat split; try reflexivity.
  now destruct (String.eqb m EmptyString).
Qed.

Lemma call_failed_iff (E : Env) (t : PiTask) (w : World) r w' :
  PiAgent.execute E t w = (Ok r, w') ->
  IdeaJudge.call_failed r = true
  <-> Spec.call_fails (pi_session E (length (trace w)) t).
Proof.
  intros Hex.
  destruct (execute_spec E t w) as (r0 & w0 & Hex0 & _ & Hout & Hsucc).
  rewrite Hex in Hex0. injection Hex0 as <- <-.
  unfold IdeaJudge.call_failed, Spec.call_fails.
  rewrite Hout, Hsucc, orb_true_iff, negb_true_iff.
  set (s := pi_session E (length (trace w)) t).
  assert (Hout' : String.eqb (String.concat EmptyString (streamed s)) EmptyString = true
                  <-> String.concat EmptyString (streamed s) = EmptyString)
    by apply String.eqb_eq.
  rewrite Hout'.
  destruct (ending s) as [e|a|[m|]]; try tauto.
  - rewrite String.eqb_neq. tauto.
  - intuition discriminate.
Qed.

(** The prompt, once built, is the data it was built from, and the first
    thing it takes from the idea is the name [judge] logs before. *)
Lemma buildJudgePrompt_Ok (E : Env) (idea : JSON) (repo : TrendingRepo) p :
  IdeaJudge.buildJudgePrompt E idea repo = Ok p ->
  p = JudgePrompt idea repo /\ exists name, JS.field E idea "name" = Ok name.
Proof.
  unfold IdeaJudge.buildJudgePrompt.
  destruct (JS.field E idea "name") as [name|e]; [|discriminate].
  intros H. split; [|eauto]. cbn [and_then] in H.
  repeat match type of H with
         | and_then ?r _ = _ => destruct r; cbn [and_then] in H; [|discriminate]
         end.
  congruence.
Qed.

Lemma buildJudgePrompt_Throw (E : Env) (idea : JSON) (repo : TrendingRepo) e :
  IdeaJudge.buildJudgePrompt E idea repo = Throw e ->
  JS.field E idea "name" = Throw e \/ exists name, JS.field E idea "name" = Ok name.
Proof.
  unfold IdeaJudge.buildJudgePrompt.
  destruct (JS.field E idea "name") as [name|e']; cbn [and_then].
  - intros _. right. eauto.
  - intros [= ->]. now left.
Qed.

(** Everything [judge] does.  When the prompt cannot be built it throws
    what the building threw, the agent not called; otherwise it makes one
    agent call and returns the failed verdict or what [parseVerdict]
    makes of the output. *)
Lemma judge_spec (E : Env) (idea : JSON) (repo : TrendingRepo) (w : World) :
  let t := IdeaJudge.judge_task idea repo in
  let s := pi_session E (length (trace w)) t in
  let out := String.concat EmptyString (streamed s) in
  match IdeaJudge.buildJudgePrompt E idea repo with
  | Throw e => IdeaJudge.judge E idea repo w = (Throw e, w)
  | Ok _ =>
      exists v w',
        IdeaJudge.judge E idea repo w = (Ok v, w')
        /\ calls_made [CallPi t] w w'
        /\ Spec.acceptance_rule v
        /\ (Spec.call_fails s ->
            v = IdeaJudge.failedVerdict
                  "LLM evaluation failed — erring on the side of rejection")
        /\ (~ Spec.call_fails s -> match_braces out = None ->
            v = IdeaJudge.failedVerdict "Could not parse LLM response")
        /\ (~ Spec.call_fails s -> forall m e, match_braces out = Some m ->
            JSON_parse E m = Throw e ->
            v = IdeaJudge.failedVerdict "JSON parse error")
        /\ (~ Spec.call_fails s -> forall m parsed, match_braces out = Some m ->
            JSON_parse E m = Ok parsed ->
            differentiationScore v = Spec.told_score parsed
            /\ axes v = Spec.ratings parsed)
  end.
Proof.
  intros t s out. unfold IdeaJudge.judge.
  destruct (IdeaJudge.buildJudgePrompt E idea repo) as [p|e] eqn:Hb.
  - destruct (buildJudgePrompt_Ok E idea repo p Hb) as [-> [name Hname]].
    unfold bind at 1, lift. rewrite Hname.
    unfold bind at 1. cbn [IdeaJudge.pi_task].
    change (IdeaJudge.pi_task (JudgePrompt idea repo)) with t.
    destruct (execute_spec E t w) as (r & w1 & Hex & Hc1 & Hout & _).
    pose proof (call_failed_iff E t w r w1 Hex) as Hfail. fold s in Hfail, Hout.
    rewrite (bind_Ok _ _ _ _ _ Hex).
    destruct (IdeaJudge.call_failed r) eqn:Hcf.
    + cbn. eexists _, _. split; [reflexivity|].
      split.
      { change [CallPi t] with ([CallPi t] ++ []).
        eapply calls_made_app; [exact Hc1 | apply calls_made_log]. }
      split; [apply failedVerdict_rule|].
      assert (Spec.call_fails s) by now apply Hfail.
      split; [reflexivity|]. repeat split; intros; contradiction.
    + assert (Hnf : ~ Spec.call_fails s).
      { intros H. apply Hfail in H. congruence. }
      rewrite Hout. cbn [default]. fold out.
      destruct (parseVerdict_spec E out name w1)
        as (v & w2 & Hpv & Hc2 & Hrule & Hnone & Hthrow & Htold).
      exists v, w2. split; [exact Hpv|].
      split.
      { change [CallPi t] with ([CallPi t] ++ []).
        eapply calls_made_app; eassumption. }
      split; [exact Hrule|].
      split; [intros; contradiction|].
      repeat split; intros; eauto; now apply (Htold m parsed).
  - destruct (buildJudgePrompt_Throw E idea repo e Hb) as [Hname|[name Hname]];
      unfold bind at 1, lift; rewrite Hname; [reflexivity|].
    unfold bind at 1. reflexivity.
Qed.



(** ** Batch filtering *)

Lemma judge_calls_cons (sourceRepos : gmap string TrendingRepo) idea rest :
  Spec.judge_calls sourceRepos (idea :: rest)
  = match IdeaJudge.source_of sourceRepos idea with
    | Some repo =>
        CallPi (IdeaJudge.judge_task idea repo) :: Spec.judge_calls sourceRepos rest
    | None => Spec.judge_calls sourceRepos rest
    end.
Proof.
  unfold Spec.judge_calls. cbn.
  now destruct (IdeaJudge.source_of sourceRepos idea).
Qed.

Lemma judge_calls_app (sourceRepos : gmap string TrendingRepo) l1 l2 :
  Spec.judge_calls sourceRepos (l1 ++ l2)
  = Spec.judge_calls sourceRepos l1 ++ Spec.judge_calls sourceRepos l2.
Proof.
  induction l1 as [|idea rest IH]; [reflexivity|].
  cbn [app]. rewrite !judge_calls_cons, IH.
  now destruct (IdeaJudge.source_of sourceRepos idea).
Qed.

(** An idea that is not [null] is looked up under its [originalRepo]. *)
Lemma get_prop_property (v : JSON) (k : string) r :
  get_prop v k = Ok r -> r = property v k /\ v <> JNull.
Proof. destruct v; cbn; intros [= <-]; now split. Qed.

Lemma presentable_source (E : Env) (sourceRepos : gmap string TrendingRepo) idea :
  presentable E sourceRepos idea ->
  get_prop idea "originalRepo" = Ok (property idea "originalRepo").
Proof.
  unfold presentable, presents. destruct idea; cbn; try reflexivity.
  discriminate.
Qed.

(** What [filterIdeas] does with a batch.  It returns when every idea is
    presentable, having made the judge calls of the batch; otherwise it
    throws what the first idea that is not presentable throws, having
    made the judge calls of the ideas before it. *)
Lemma filterIdeas_loop_spec (E : Env) (sourceRepos : gmap string TrendingRepo)
    (batch : list JSON) :
  forall (acc_a : list JSON) (acc_r : list Rejection) (w : World),
  (Forall (presentable E sourceRepos) batch
   /\ exists a r w',
       IdeaJudge.filterIdeas_loop E batch sourceRepos acc_a acc_r w
       = (Ok (acc_a ++ a, acc_r ++ r), w')
       /\ calls_made (Spec.judge_calls sourceRepos batch) w w'
       /\ Permutation (a ++ map rej_idea r) batch
       /\ sublist a batch
       /\ sublist (map rej_idea r) batch
       /\ (forall idea, In idea batch ->
           IdeaJudge.source_of sourceRepos idea = None -> In idea a)
       /\ (forall x, In x r ->
           is_Some (IdeaJudge.source_of sourceRepos (rej_idea x))
           /\ rej_idea x <> JNull
           /\ (exists name, JS.field E (rej_idea x) "name" = Ok name)
           /\ approved (rej_verdict x) = false
           /\ Spec.acceptance_rule (rej_verdict x)))
  \/ (exists pre idea post e w',
        batch = pre ++ idea :: post
        /\ Forall (presentable E sourceRepos) pre
        /\ presents E sourceRepos idea = Throw e
        /\ IdeaJudge.filterIdeas_loop E batch sourceRepos acc_a acc_r w
           = (Throw e, w')
        /\ calls_made (Spec.judge_calls sourceRepos pre) w w').
Proof.
  induction batch as [|idea rest IH]; intros acc_a acc_r w.
  - left. split; [constructor|]. exists [], [], w. cbn. rewrite !app_nil_r.
    split; [reflexivity|]. split; [apply calls_made_nil|].
    split; [constructor|]. split; [constructor|]. split; [constructor|].
    split; [intros ? []|intros ? []].
  - cbn [IdeaJudge.filterIdeas_loop].
    destruct (get_prop idea "originalRepo") as [key|e] eqn:Hkey.
    2:{ right. exists [], idea, rest, e, w. cbn [app].
        split; [reflexivity|]. split; [constructor|].
        split; [unfold presents; now rewrite Hkey|].
        split; [apply bind_lift_Throw|]. apply calls_made_nil. }
    destruct (get_prop_property _ _ _ Hkey) as [-> Hnn].
    rewrite bind_lift_Ok.
    assert (Hsrc : JS.Map_get sourceRepos (property idea "originalRepo")
                   = IdeaJudge.source_of sourceRepos idea) by reflexivity.
    rewrite Hsrc.
    destruct (IdeaJudge.source_of sourceRepos idea) as [repo|] eqn:Hrepo.
    + (* a known source: the judge *)
      pose proof (judge_spec E idea repo w) as Hj. cbv zeta in Hj.
      destruct (IdeaJudge.buildJudgePrompt E idea repo) as [p|e] eqn:Hb.
      2:{ right. exists [], idea, rest, e, w. cbn [app].
          split; [reflexivity|]. split; [constructor|].
          split.
          { unfold presents. rewrite Hkey. cbn [and_then]. rewrite Hsrc; try rewrite Hrepo; rewrite Hb.
            reflexivity. }
          split; [now apply bind_Throw|]. apply calls_made_nil. }
      assert (Hpres : presentable E sourceRepos idea).
      { unfold presentable, presents. rewrite Hkey. cbn [and_then].
        rewrite Hsrc; try rewrite Hrepo; rewrite Hb. reflexivity. }
      destruct (buildJudgePrompt_Ok E idea repo p Hb) as [_ Hname].
      destruct Hj as (v & w1 & Hj & Hc1 & Hrule & _).
      rewrite (bind_Ok _ _ _ _ _ Hj).
      destruct (approved v) eqn:Hv.
      * destruct (IH (acc_a ++ [idea]) acc_r w1)
          as [(Hall & a & r & w2 & Hl & Hc2 & Hp & Hsa & Hsr & Hn & Hr)
             |(pre & bad & post & e & w2 & -> & Hall & Hbad & Hl & Hc2)].
        -- left. split; [now constructor|].
           exists (idea :: a), r, w2.
           rewrite Hl, <- app_assoc. split; [reflexivity|].
           rewrite judge_calls_cons, Hrepo.
           split; [eapply (calls_made_app [_]); eassumption|].
           split; [cbn; now constructor|].
           split; [now constructor|].
           split; [now constructor|].
           split; [|exact Hr].
           intros i [<-|Hi] Hnone; [now left | right; now apply Hn].
        -- right. exists (idea :: pre), bad, post, e, w2.
           split; [reflexivity|]. split; [now constructor|].
           split; [exact Hbad|]. split; [exact Hl|].
           rewrite judge_calls_cons, Hrepo.
           eapply (calls_made_app [_]); eassumption.
      * destruct (IH acc_a (acc_r ++ [ {| rej_idea := idea; rej_verdict := v |} ]) w1)
          as [(Hall & a & r & w2 & Hl & Hc2 & Hp & Hsa & Hsr & Hn & Hr)
             |(pre & bad & post & e & w2 & -> & Hall & Hbad & Hl & Hc2)].
        -- left. split; [now constructor|].
           exists a, ({| rej_idea := idea; rej_verdict := v |} :: r), w2.
           rewrite Hl, <- app_assoc. split; [reflexivity|].
           rewrite judge_calls_cons, Hrepo.
           split; [eapply (calls_made_app [_]); eassumption|].
           split.
           { cbn. rewrite <- Permutation_middle. now constructor. }
           split; [now constructor|].
           split; [cbn; now constructor|].
           split.
           { intros i [<-|Hi] Hnone; [congruence | now apply Hn]. }
           intros x [<-|Hx]; [|now apply Hr].
           cbn [rej_idea rej_verdict]. rewrite Hrepo.
           split; [eauto|]. split; [exact Hnn|]. split; [exact Hname|].
           split; [exact Hv | exact Hrule].
        -- right. exists (idea :: pre), bad, post, e, w2.
           split; [reflexivity|]. split; [now constructor|].
           split; [exact Hbad|]. split; [exact Hl|].
           rewrite judge_calls_cons, Hrepo.
           eapply (calls_made_app [_]); eassumption.
    + (* no source: the warning, then approved *)
      destruct (JS.field E idea "name") as [name|e] eqn:Hname.
      2:{ right. exists [], idea, rest, e, w. cbn [app].
          split; [reflexivity|]. split; [constructor|].
          split.
          { unfold presents. rewrite Hkey. cbn [and_then].
            rewrite Hsrc; try rewrite Hrepo; rewrite Hname. reflexivity. }
          split; [apply bind_lift_Throw|]. apply calls_made_nil. }
      rewrite bind_lift_Ok.
      destruct (JS.interpolate E (property idea "originalRepo")) as [repoKey|e] eqn:Hrk.
      2:{ right. exists [], idea, rest, e, w. cbn [app].
          split; [reflexivity|]. split; [constructor|].
          split.
          { unfold presents. rewrite Hkey. cbn [and_then].
            rewrite Hsrc; try rewrite Hrepo; rewrite Hname. cbn [and_then]. rewrite Hrk. reflexivity. }
          split; [apply bind_lift_Throw|]. apply calls_made_nil. }
      assert (Hpres : presentable E sourceRepos idea).
      { unfold presentable, presents. rewrite Hkey. cbn [and_then].
        rewrite Hsrc; try rewrite Hrepo; rewrite Hname. cbn [and_then]. rewrite Hrk. reflexivity. }
      rewrite bind_lift_Ok.
      set (w1 := snd (log LWarn
                 ("No source repo found for " +:+ dq +:+ name
                  +:+ dq +:+ " (" +:+ repoKey +:+ "), auto-approving") w)).
      rewrite (bind_Ok (log LWarn _) _ w tt w1 eq_refl).
      destruct (IH (acc_a ++ [idea]) acc_r w1)
        as [(Hall & a & r & w2 & Hl & Hc2 & Hp & Hsa & Hsr & Hn & Hr)
           |(pre & bad & post & e & w2 & -> & Hall & Hbad & Hl & Hc2)].
      * left. split; [now constructor|].
        exists (idea :: a), r, w2.
        rewrite Hl, <- app_assoc. split; [reflexivity|].
        rewrite judge_calls_cons, Hrepo.
        split.
        { change (Spec.judge_calls sourceRepos rest)
            with ([] ++ Spec.judge_calls sourceRepos rest).
          eapply calls_made_app; [apply calls_made_log | exact Hc2]. }
        split; [cbn; now constructor|].
        split; [now constructor|].
        split; [now constructor|].
        split; [|exact Hr].
        intros i [<-|Hi] Hnone; [now left | right; now apply Hn].
      * right. exists (idea :: pre), bad, post, e, w2.
        split; [reflexivity|]. split; [now constructor|].
        split; [exact Hbad|]. split; [exact Hl|].
        rewrite judge_calls_cons, Hrepo.
        change (Spec.judge_calls sourceRepos pre)
          with ([] ++ Spec.judge_calls sourceRepos pre).
        eapply calls_made_app; [apply calls_made_log | exact Hc2].
Qed.

Lemma new_calls_made cs w w' : calls_made cs w w' -> new_calls w w' = cs.
Proof.
  intros (_ & Ht & _). unfold new_calls. rewrite Ht.
  now rewrite drop_app_length.
Qed.


(** [filterIdeas], either way. *)
Lemma filterIdeas_spec (E : Env) (batch : list JSON)
    (sourceRepos : gmap string TrendingRepo) (w : World) :
  (Forall (presentable E sourceRepos) batch
   /\ exists a r w',
       IdeaJudge.filterIdeas E batch sourceRepos w = (Ok (a, r), w')
       /\ calls_made (Spec.judge_calls sourceRepos batch) w w'
       /\ Permutation (a ++ map rej_idea r) batch
       /\ sublist a batch
       /\ sublist (map rej_idea r) batch
       /\ (forall idea, In idea batch ->
           IdeaJudge.source_of sourceRepos idea = None -> In idea a)
       /\ (forall x, In x r ->
           is_Some (IdeaJudge.source_of sourceRepos (rej_idea x))
           /\ rej_idea x <> JNull
           /\ (exists name, JS.field E (rej_idea x) "name" = Ok name)
           /\ approved (rej_verdict x) = false
           /\ Spec.acceptance_rule (rej_verdict x)))
  \/ (exists pre idea post e w',
        batch = pre ++ idea :: post
        /\ Forall (presentable E sourceRepos) pre
        /\ presents E sourceRepos idea = Throw e
        /\ IdeaJudge.filterIdeas E batch sourceRepos w = (Throw e, w')
        /\ calls_made (Spec.judge_calls sourceRepos pre) w w').
Proof. apply (filterIdeas_loop_spec E sourceRepos batch [] [] w). Qed.

Lemma presentable_not_Throw (E : Env) (sourceRepos : gmap string TrendingRepo)
    pre idea post e :
  Forall (presentable E sourceRepos) (pre ++ idea :: post) ->
  presents E sourceRepos idea = Throw e -> False.
Proof.
  intros Hall Hbad. apply Forall_app in Hall as [_ Hall].
  apply Forall_cons in Hall as [Hi _]. unfold presentable in Hi.
  rewrite Hbad in Hi. discriminate.
Qed.


(** ** What a computation preserves *)

Section Preserves.
Context (R : World -> World -> Prop) `{!Progress R}.

Lemma progress_refl w : R w w.
Proof. now apply progress_quiet. Qed.

Lemma preserves_ret {A} (a : A) : preserves R (ret a).
Proof. intros w. apply progress_refl. Qed.

Lemma preserves_throw {A} (e : Exn) : preserves R (throw (A := A) e).
Proof. intros w. apply progress_refl. Qed.

Lemma preserves_lift {A} (r : Result A) : preserves R (lift r).
Proof. intros w. apply progress_refl. Qed.

Lemma preserves_get_state : preserves R get_state.
Proof. intros w. apply progress_refl. Qed.

Lemma preserves_log l m : preserves R (log l m).
Proof. intros w. now apply progress_quiet. Qed.

Lemma preserves_bind {A B} (c : M A) (k : A -> M B) :
  preserves R c -> (forall a, preserves R (k a)) -> preserves R (bind c k).
Proof.
  intros Hc Hk w. unfold bind. specialize (Hc w).
  destruct (c w) as [[a|e] w1]; cbn in *; [|exact Hc].
  eapply progress_trans; [exact Hc | apply Hk].
Qed.

Lemma preserves_try_catch {A} (c : M A) (h : Exn -> M A) :
  preserves R c -> (forall e, preserves R (h e)) -> preserves R (try_catch c h).
Proof.
  intros Hc Hh w. unfold try_catch. specialize (Hc w).
  destruct (c w) as [[a|e] w1]; cbn in *; [exact Hc|].
  eapply progress_trans; [exact Hc | apply Hh].
Qed.

Lemma preserves_save E s : preserves R (StateManager.save E s).
Proof.
  intros w. apply progress_quiet;
    unfold StateManager.save, StateManager.mkdir, StateManager.writeFile,
      StateManager.next_fs_op, try_catch, bind, throw, ret, log; cbn;
    destruct (fs_mkdir E (fs_ops w)); cbn; try reflexivity;
    destruct (fs_writeFile E (S (fs_ops w))); reflexivity.
Qed.
End Preserves.

#[export] Instance same_phase_progress : Progress same_phase.
Proof.
  split; unfold same_phase.
  - intros w1 w2 w3 H1 H2. congruence.
  - intros w w' Hs _. now rewrite Hs.
Qed.

#[export] Instance calls_only_progress (P : Call -> Prop) : Progress (calls_only P).
Proof.
  split; unfold calls_only.
  - intros w1 w2 w3 (cs1 & H1 & F1) (cs2 & H2 & F2).
    exists (cs1 ++ cs2). split.
    + rewrite H2, H1. now rewrite app_assoc.
    + now apply Forall_app.
  - intros w w' _ Ht. exists []. split; [now rewrite app_nil_r | constructor].
Qed.

Ltac preserves_step :=
  match goal with
  | |- preserves _ (bind _ _) => apply preserves_bind; [exact _ .. | | intros ?]
  | |- preserves _ (try_catch _ _) =>
      apply preserves_try_catch; [exact _ .. | | intros ?]
  | |- preserves _ (ret _) => apply preserves_ret; exact _
  | |- preserves _ (throw _) => apply preserves_throw; exact _
  | |- preserves _ (lift _) => apply preserves_lift; exact _
  | |- preserves _ get_state => apply preserves_get_state; exact _
  | |- preserves _ (log _ _) => apply preserves_log; exact _
  | |- preserves _ (StateManager.save _ _) => apply preserves_save; exact _
  | |- preserves _ (match ?x with _ => _ end) => destruct x
  end.

(** The phases, for any relation that allows the calls [okc] and the
    state updates that leave the phase tag alone. *)
Section PhasesPreserve.
Context (R : World -> World -> Prop) `{!Progress R}.
Variable okc : Call -> Prop.
Hypothesis R_call : forall c, okc c -> preserves R (record_call c).
Hypothesis R_modify :
  forall f, (forall s, currentPhase (f s) = currentPhase s) ->
            preserves R (modify_state f).
Hypothesis okc_pi : forall t, okc (CallPi t).
Variable E : Env.

Lemma preserves_now : preserves R (Orchestrator.now E).
Proof. intros w. apply progress_refl; assumption. Qed.

Lemma preserves_await {T} (p : TimeBudget.PromiseState T) :
  preserves R (Orchestrator.await p).
Proof. destruct p; cbn [Orchestrator.await]; preserves_step. Qed.

Lemma preserves_budgeted {T} label budget c (script : nat -> Behaviour T) :
  okc c -> preserves R (Orchestrator.budgeted E label budget c script).
Proof.
  intros Hc. unfold Orchestrator.budgeted.
  preserves_step; [apply preserves_now|].
  preserves_step; [now apply R_call|]. apply preserves_await.
Qed.

Lemma preserves_budgeted_local {T} label budget c deadline (fn : M T) :
  okc c -> preserves R fn ->
  preserves R (Orchestrator.budgeted_local E label budget c deadline fn).
Proof.
  intros Hc Hfn. unfold Orchestrator.budgeted_local.
  preserves_step; [apply preserves_now|].
  preserves_step; [now apply R_call|].
  intros w. specialize (Hfn w). destruct (fn w) as [r w1]. cbn in Hfn.
  eapply progress_trans; [exact Hfn | apply preserves_await].
Qed.

Lemma preserves_execute t : preserves R (PiAgent.execute E t).
Proof.
  unfold PiAgent.execute, PiAgent.on_error.
  preserves_step; [now apply R_call, okc_pi|].
  repeat preserves_step.
Qed.

Lemma preserves_parseVerdict raw n : preserves R (IdeaJudge.parseVerdict E raw n).
Proof. unfold IdeaJudge.parseVerdict, IdeaJudge.axis. repeat preserves_step. Qed.

Lemma preserves_judge idea repo : preserves R (IdeaJudge.judge E idea repo).
Proof.
  unfold IdeaJudge.judge.
  preserves_step; [preserves_step|].
  preserves_step; [preserves_step|].
  preserves_step; [apply preserves_execute|].
  preserves_step; [repeat preserves_step | apply preserves_parseVerdict].
Qed.

Lemma preserves_filterIdeas batch repos :
  preserves R (IdeaJudge.filterIdeas E batch repos).
Proof.
  unfold IdeaJudge.filterIdeas. generalize (@nil JSON) (@nil Rejection).
  induction batch as [|idea rest IH]; intros acc_a acc_r; cbn [IdeaJudge.filterIdeas_loop].
  - preserves_step.
  - preserves_step; [preserves_step|].
    preserves_step.
    + preserves_step; [apply preserves_judge|]. preserves_step; apply IH.
    + preserves_step; [preserves_step|].
      preserves_step; [preserves_step|].
      preserves_step; [preserves_step | apply IH].
Qed.

Lemma preserves_regenerate_loop byRepo repos improved :
  preserves R (Orchestrator.regenerate_loop E byRepo repos improved).
Proof.
  revert improved.
  induction byRepo as [|[key entries] rest IH];
    intros improved; cbn [Orchestrator.regenerate_loop].
  - preserves_step.
  - preserves_step; [|apply IH]. destruct p as [repoKey repo].
    preserves_step; [preserves_step|].
    preserves_step; [|apply IH].
    preserves_step; [|repeat preserves_step].
    unfold Orchestrator.regenerate_one.
    preserves_step; [apply preserves_execute|].
    repeat preserves_step.
Qed.

Lemma preserves_regenerateFromFeedback rejected repos :
  preserves R (Orchestrator.regenerateFromFeedback E rejected repos).
Proof.
  unfold Orchestrator.regenerateFromFeedback.
  preserves_step; [preserves_step | apply preserves_regenerate_loop].
Qed.

Lemma preserves_log_rejections rejected :
  preserves R (Orchestrator.log_rejections E rejected).
Proof. unfold Orchestrator.log_rejections. repeat preserves_step. Qed.

Lemma preserves_judge_rounds repos round left :
  (forall x, okc (CallFilterIdeas x)) ->
  preserves R (Orchestrator.judge_rounds E repos round left).
Proof.
  intros Hfilter. revert round. induction left as [|left IH]; intros round;
    cbn [Orchestrator.judge_rounds].
  - preserves_step.
  - preserves_step.
    + unfold Orchestrator.judge_round. preserves_step; [preserves_step|].
      apply preserves_budgeted_local; [now apply Hfilter|].
      preserves_step; [apply preserves_filterIdeas | preserves_step].
    + destruct a as [approvedIdeas rejected].
      preserves_step; [apply preserves_log_rejections|].
      preserves_step; [now apply R_modify|].
      preserves_step; [|apply IH].
      preserves_step; [|preserves_step].
      preserves_step; [apply preserves_regenerateFromFeedback|].
      preserves_step; [now apply R_modify | preserves_step].
Qed.

Lemma preserves_research_loop candidates :
  (forall i, okc (CallResearch i)) ->
  preserves R (Orchestrator.research_loop E candidates).
Proof.
  intros Hresearch. induction candidates as [|idea rest IH]; cbn [Orchestrator.research_loop].
  - preserves_step.
  - preserves_step; [|preserves_step; [preserves_step | apply IH]].
    preserves_step; [|repeat preserves_step].
    preserves_step; [preserves_step|].
    preserves_step; [apply preserves_budgeted; now apply Hresearch|].
    preserves_step; [|preserves_step|preserves_step].
    preserves_step; [now apply R_modify | preserves_step].
Qed.
End PhasesPreserve.

(** *** The phase tag survives everything but [set_currentPhase] *)

Section SamePhase.
Variable E : Env.

Lemma same_phase_call c : True -> preserves same_phase (record_call c).
Proof. intros _ w. reflexivity. Qed.

Lemma same_phase_modify f :
  (forall s, currentPhase (f s) = currentPhase s) ->
  preserves same_phase (modify_state f).
Proof. intros Hf w. apply Hf. Qed.

Lemma same_phase_budgeted {T} label budget c (script : nat -> Behaviour T) :
  preserves same_phase (Orchestrator.budgeted E label budget c script).
Proof.
  eapply preserves_budgeted with (okc := fun _ => True);
    auto using same_phase_call; exact _.
Qed.

Lemma same_phase_judge_rounds repos round left :
  preserves same_phase (Orchestrator.judge_rounds E repos round left).
Proof.
  eapply preserves_judge_rounds with (okc := fun _ => True);
    auto using same_phase_call, same_phase_modify; exact _.
Qed.

Lemma same_phase_research_loop candidates :
  preserves same_phase (Orchestrator.research_loop E candidates).
Proof.
  eapply preserves_research_loop with (okc := fun _ => True);
    auto using same_phase_call, same_phase_modify; exact _.
Qed.

(** A phase leaves its own tag in [currentPhase], however it ends. *)
Lemma phase_sets_tag {A} (tag : string) (body : M A) (w : World) :
  preserves same_phase body ->
  currentPhase
    (st (snd ((do! modify_state (Orchestrator.set_currentPhase tag) in body) w)))
  = tag.
Proof.
  intros Hb. unfold bind, modify_state. cbn.
  specialize (Hb (set_st (Orchestrator.set_currentPhase tag (st w)) w)).
  unfold same_phase in Hb. exact Hb.
Qed.

Ltac phase_tag :=
  apply phase_sets_tag;
  repeat first
    [ preserves_step
    | apply same_phase_budgeted
    | apply same_phase_judge_rounds
    | apply same_phase_research_loop
    | apply same_phase_modify; reflexivity ].

Lemma phase1_tag w :
  currentPhase (st (snd (Orchestrator.phase1_ScoutTrends E w))) = "scout-trends".
Proof. unfold Orchestrator.phase1_ScoutTrends. phase_tag. Qed.

Lemma phase2_tag w :
  currentPhase (st (snd (Orchestrator.phase2_GenerateIdeas E w))) = "generate-ideas".
Proof. unfold Orchestrator.phase2_GenerateIdeas. phase_tag. Qed.

Lemma phase2b_tag w :
  currentPhase (st (snd (Orchestrator.phase2b_JudgeIdeas E w))) = "judge-ideas".
Proof. unfold Orchestrator.phase2b_JudgeIdeas. phase_tag. Qed.

Lemma phase3_tag w :
  currentPhase (st (snd (Orchestrator.phase3_ResearchIdeas E w))) = "research".
Proof. unfold Orchestrator.phase3_ResearchIdeas. phase_tag. Qed.

Lemma phase4_tag w :
  currentPhase (st (snd (Orchestrator.phase4_Implement E w))) = "implement".
Proof. unfold Orchestrator.phase4_Implement. phase_tag. Qed.

Lemma phase5_tag w :
  currentPhase (st (snd (Orchestrator.phase5_Deploy E w))) = "deploy".
Proof. unfold Orchestrator.phase5_Deploy. phase_tag. Qed.

Lemma phase6_tag w :
  currentPhase (st (snd (Orchestrator.phase6_Announce E w))) = "announce".
Proof. unfold Orchestrator.phase6_Announce. phase_tag. Qed.
End SamePhase.


(** ** StateManager *)

Lemma save_spec (E : Env) (s : OrchestratorState) (w : World) :
  exists w',
    StateManager.save E s w = (Ok tt, w')
    /\ st w' = st w /\ trace w' = trace w
    /\ match fs_mkdir E (fs_ops w) with
       | Some _ => disk w' = disk w /\ logs w' = logs w ++ [save_failure_line]
       | None =>
           match fs_writeFile E (S (fs_ops w)) with
           | Some _ => disk w' = disk w /\ logs w' = logs w ++ [save_failure_line]
           | None => disk w' = Some s /\ logs w' = logs w
           end
       end.
Proof.
  unfold StateManager.save, StateManager.mkdir, StateManager.writeFile,
    StateManager.next_fs_op, try_catch, bind, throw, ret, log. cbn.
  destruct (fs_mkdir E (fs_ops w)); cbn.
  - eexists. repeat split.
  - destruct (fs_writeFile E (S (fs_ops w))); cbn; eexists; repeat split.
Qed.

Lemma saveState_Ok (E : Env) (w : World) :
  exists w',
    Orchestrator.saveState E w = (Ok tt, w')
    /\ st w' = st w /\ trace w' = trace w.
Proof.
  unfold Orchestrator.saveState, bind, get_state.
  destruct (save_spec E (st w) w) as (w' & H & Hs & Ht & _). eauto.
Qed.


(** ** The run *)

Lemma bind_inv_Throw {A B} (c : M A) (k : A -> M B) w e w1 :
  bind c k w = (Throw e, w1) ->
  c w = (Throw e, w1)
  \/ exists a w0, c w = (Ok a, w0) /\ k a w0 = (Throw e, w1).
Proof.
  unfold bind. destruct (c w) as [[a|e0] w0]; intros H.
  - right. eauto.
  - left. injection H as -> ->. reflexivity.
Qed.

Lemma saveState_not_Throw (E : Env) w e w1 :
  Orchestrator.saveState E w <> (Throw e, w1).
Proof.
  destruct (saveState_Ok E w) as (w' & H & _). rewrite H. discriminate.
Qed.

Ltac found_phase H tag_lemma :=
  eexists _, _, _; split; [|split; [exact H|]];
  [unfold phase_table; cbn; tauto
  | match type of H with ?p ?w0 = _ =>
      let T := fresh in pose proof (tag_lemma w0) as T; rewrite H in T; exact T
    end].

Ltac next_step H :=
  apply bind_inv_Throw in H as [H | (? & ? & _ & H)].

(** When the [try] block throws, the throw is that of one phase and the
    world is the one that phase left. *)
Lemma pipeline_throw_is_phase_throw (E : Env) (config : Config) w e w1 :
  Orchestrator.pipeline E config w = (Throw e, w1) ->
  exists tag phase w0,
    In (tag, phase) (phase_table E)
    /\ phase w0 = (Throw e, w1)
    /\ currentPhase (st w1) = tag.
Proof.
  intros H. unfold Orchestrator.pipeline in H.
  next_step H.
  - unfold Orchestrator.core_phases in H.
    next_step H; [found_phase H (phase1_tag E)|].
    next_step H; [now apply saveState_not_Throw in H|].
    next_step H; [found_phase H (phase2_tag E)|].
    next_step H; [now apply saveState_not_Throw in H|].
    next_step H; [found_phase H (phase2b_tag E)|].
    next_step H; [now apply saveState_not_Throw in H|].
    next_step H; [found_phase H (phase3_tag E)|].
    next_step H; [now apply saveState_not_Throw in H|].
    next_step H; [found_phase H (phase4_tag E)|].
    now apply saveState_not_Throw in H.
  - destruct (dryRun config); [discriminate H|].
    next_step H.
    + unfold Orchestrator.deploy_step in H.
      destruct (skipGithub config); [discriminate H|].
      next_step H; [found_phase H (phase5_tag E)|].
      now apply saveState_not_Throw in H.
    + unfold Orchestrator.announce_step in H.
      destruct (skipTwitter config); [discriminate H|].
      next_step H; [found_phase H (phase6_tag E)|].
      now apply saveState_not_Throw in H.
Qed.

(** What [run] returns once the [try] block has thrown. *)
Lemma run_after_throw
    (E : Env) (config : Config) (w : World) (e : Exn) (w1 : World) :
  Orchestrator.pipeline E config w = (Throw e, w1) ->
  let msg := message_or "Unknown error" e in
  let r := fst (Orchestrator.run E config w) in
  let wf := snd (Orchestrator.run E config w) in
  success r = false
  /\ result_error r = Some msg
  /\ result_state r
     = Orchestrator.push_error
         {| err_phase := currentPhase (st w1); err_error := msg;
            err_timestamp := Date_now E (length (trace w1)) |} (st w1)
  /\ trace wf = trace w1
  /\ (exists w3,
        st w3 = result_state r /\ trace w3 = trace w1
        /\ fs_ops w3 = fs_ops w1
        /\ StateManager.save E (result_state r) w3 = (Ok tt, wf)).
Proof.
  intros Hp msg r wf.
  subst r wf. unfold Orchestrator.run. rewrite Hp.
  cbn [log modify_state]. unfold Orchestrator.saveState, bind, get_state.
  match goal with |- context [StateManager.save E ?s ?w3] =>
    destruct (save_spec E s w3) as (w4 & Hs & Hst & Htr & Hd); rewrite Hs
  end.
  cbn [fst snd success result_error result_state]. cbn in Hst, Htr.
  rewrite Hst.
  split; [reflexivity|]. split; [reflexivity|]. split; [reflexivity|].
  split; [exact Htr|].
  eexists. split; [|split; [|split; [|exact Hs]]]; reflexivity.
Qed.

Lemma bind_inv_Ok {A B} (c : M A) (k : A -> M B) w b w' :
  bind c k w = (Ok b, w') ->
  exists a w0, c w = (Ok a, w0) /\ k a w0 = (Ok b, w').
Proof.
  unfold bind. destruct (c w) as [[a|e0] w0]; intros H; [eauto | discriminate H].
Qed.


Lemma pipeline_throws_in_research (E : Env) (config : Config) w0 w e w' :
  reaches_research E w0 w ->
  Orchestrator.phase3_ResearchIdeas E w = (Throw e, w') ->
  Orchestrator.pipeline E config w0 = (Throw e, w').
Proof.
  unfold reaches_research, reaches_judging. intros (w1 & Hr & Hj) Hp.
  apply bind_inv_Ok in Hr as (? & wa & H1 & Hr).
  apply bind_inv_Ok in Hr as (? & wb & H2 & Hr).
  apply bind_inv_Ok in Hr as (? & wc & H3 & H4).
  apply bind_inv_Ok in Hj as (? & wd & H5 & H6).
  unfold Orchestrator.pipeline, Orchestrator.core_phases.
  apply bind_Throw.
  rewrite (bind_Ok _ _ _ _ _ H1), (bind_Ok _ _ _ _ _ H2),
    (bind_Ok _ _ _ _ _ H3), (bind_Ok _ _ _ _ _ H4),
    (bind_Ok _ _ _ _ _ H5), (bind_Ok _ _ _ _ _ H6).
  now apply bind_Throw.
Qed.

Lemma run_fails_with (E : Env) (config : Config) w0 m w1 :
  Orchestrator.pipeline E config w0 = (Throw (Error m), w1) ->
  let r := fst (Orchestrator.run E config w0) in
  success r = false
  /\ result_error r = Some m
  /\ currentPhase (result_state r) = currentPhase (st w1).
Proof.
  intros Hp r.
  destruct (run_after_throw E config w0 (Error m) w1 Hp) as (Hs & He & Hst & _).
  fold r in Hs, He, Hst. repeat split; [exact Hs | exact He | now rewrite Hst].
Qed.

(** A phase that throws where the run has got to makes the [try] block
    throw, in the world the phase left. *)
Lemma phase_throw_is_pipeline_throw (E : Env) (config : Config)
    (tag : string) (phase pre : M unit) w w0 e w1 :
  In (tag, phase) (phase_table E) ->
  before_phase E config tag = Some pre ->
  pre w = (Ok tt, w0) ->
  phase w0 = (Throw e, w1) ->
  Orchestrator.pipeline E config w = (Throw e, w1).
Proof.
  intros Hin Hpre Hrun Hph. unfold phase_table in Hin. cbn [In] in Hin.
  unfold Orchestrator.pipeline, Orchestrator.core_phases.
  repeat (destruct Hin as [Hin|Hin]); try contradiction;
    injection Hin as <- <-; cbn in Hpre.
  - injection Hpre as <-. injection Hrun as <-.
    apply bind_Throw. now apply bind_Throw.
  - injection Hpre as <-.
    apply bind_inv_Ok in Hrun as ([] & wa & H1 & H2).
    apply bind_Throw.
    rewrite (bind_Ok _ _ _ _ _ H1), (bind_Ok _ _ _ _ _ H2).
    now apply bind_Throw.
  - injection Hpre as <-.
    apply bind_inv_Ok in Hrun as ([] & wa & H1 & Hrun).
    apply bind_inv_Ok in Hrun as ([] & wb & H2 & Hrun).
    apply bind_inv_Ok in Hrun as ([] & wc & H3 & H4).
    apply bind_Throw.
    rewrite (bind_Ok _ _ _ _ _ H1), (bind_Ok _ _ _ _ _ H2),
      (bind_Ok _ _ _ _ _ H3), (bind_Ok _ _ _ _ _ H4).
    now apply bind_Throw.
  - injection Hpre as <-.
    apply bind_inv_Ok in Hrun as ([] & wa & H1 & Hrun).
    apply bind_inv_Ok in Hrun as ([] & wb & H2 & Hrun).
    apply bind_inv_Ok in Hrun as ([] & wc & H3 & Hrun).
    apply bind_inv_Ok in Hrun as ([] & wd & H4 & Hrun).
    apply bind_inv_Ok in Hrun as ([] & we & H5 & H6).
    apply bind_Throw.
    rewrite (bind_Ok _ _ _ _ _ H1), (bind_Ok _ _ _ _ _ H2),
      (bind_Ok _ _ _ _ _ H3), (bind_Ok _ _ _ _ _ H4),
      (bind_Ok _ _ _ _ _ H5), (bind_Ok _ _ _ _ _ H6).
    now apply bind_Throw.
  - injection Hpre as <-.
    apply bind_inv_Ok in Hrun as ([] & wa & H1 & Hrun).
    apply bind_inv_Ok in Hrun as ([] & wb & H2 & Hrun).
    apply bind_inv_Ok in Hrun as ([] & wc & H3 & Hrun).
    apply bind_inv_Ok in Hrun as ([] & wd & H4 & Hrun).
    apply bind_inv_Ok in Hrun as ([] & we & H5 & Hrun).
    apply bind_inv_Ok in Hrun as ([] & wf & H6 & Hrun).
    apply bind_inv_Ok in Hrun as ([] & wg & H7 & H8).
    apply bind_Throw.
    rewrite (bind_Ok _ _ _ _ _ H1), (bind_Ok _ _ _ _ _ H2),
      (bind_Ok _ _ _ _ _ H3), (bind_Ok _ _ _ _ _ H4),
      (bind_Ok _ _ _ _ _ H5), (bind_Ok _ _ _ _ _ H6),
      (bind_Ok _ _ _ _ _ H7), (bind_Ok _ _ _ _ _ H8).
    now apply bind_Throw.
  - destruct (dryRun config); [discriminate Hpre|].
    destruct (skipGithub config) eqn:Hskip; [discriminate Hpre|].
    cbn in Hpre. injection Hpre as <-.
    fold (Orchestrator.core_phases E). rewrite (bind_Ok _ _ _ _ _ Hrun).
    apply bind_Throw. unfold Orchestrator.deploy_step. rewrite Hskip.
    now apply bind_Throw.
  - destruct (dryRun config); [discriminate Hpre|].
    destruct (skipTwitter config) eqn:Hskip; [discriminate Hpre|].
    cbn in Hpre. injection Hpre as <-.
    fold (Orchestrator.core_phases E).
    apply bind_inv_Ok in Hrun as ([] & wa & H1 & H2).
    rewrite (bind_Ok _ _ _ _ _ H1), (bind_Ok _ _ _ _ _ H2).
    unfold Orchestrator.announce_step. rewrite Hskip.
    now apply bind_Throw.
Qed.

(** The tag a phase of the table leaves, however it ends. *)
Lemma phase_table_tag (E : Env) (tag : string) (phase : M unit) w :
  In (tag, phase) (phase_table E) ->
  currentPhase (st (snd (phase w))) = tag.
Proof.
  unfold phase_table. cbn [In].
  intros Hin. repeat (destruct Hin as [Hin|Hin]); try contradiction;
    injection Hin as <- <-.
  - apply phase1_tag.
  - apply phase2_tag.
  - apply phase2b_tag.
  - apply phase3_tag.
  - apply phase4_tag.
  - apply phase5_tag.
  - apply phase6_tag.
Qed.

(** C4.  When the run has got to a phase and that phase throws, whether
    the oracle rejected, a business rule threw or the time budget ran
    out, nothing runs after it: no later phase makes a call.  [run]
    returns [success = false] with the thrown message as [error] and the
    phase's tag in [state.currentPhase]; it has appended one record with
    that tag, the message and the time to [state.errors] and changed
    nothing else of the state the phase left, and has handed the state to
    [save], which writes it when the file system lets it. *)
Theorem failing_phase_aborts_run
    (E : Env) (config : Config) (tag : string) (phase pre : M unit)
    (w w0 : World) (e : Exn) (w1 : World) :
  In (tag, phase) (phase_table E) ->
  before_phase E config tag = Some pre ->
  pre w = (Ok tt, w0) ->
  phase w0 = (Throw e, w1) ->
  let msg := message_or "Unknown error" e in
  let r := fst (Orchestrator.run E config w) in
  let wf := snd (Orchestrator.run E config w) in
  success r = false
  /\ result_error r = Some msg
  /\ (forall m, e = Error m -> result_error r = Some m)
  /\ currentPhase (result_state r) = tag
  /\ errors (result_state r)
     = errors (st w1)
       ++ [ {| err_phase := tag; err_error := msg;
               err_timestamp := Date_now E (length (trace w1)) |} ]
  /\ (runId (result_state r) = runId (st w1)
      /\ startTime (result_state r) = startTime (st w1)
      /\ trends (result_state r) = trends (st w1)
      /\ ideas (result_state r) = ideas (st w1)
      /\ selectedIdea (result_state r) = selectedIdea (st w1)
      /\ research (result_state r) = research (st w1)
      /\ implementation (result_state r) = implementation (st w1)
      /\ deployment (result_state r) = deployment (st w1)
      /\ announcement (result_state r) = announcement (st w1))
  /\ st wf = result_state r
  /\ trace wf = trace w1
  /\ (exists w3,
        st w3 = result_state r /\ trace w3 = trace w1
        /\ StateManager.save E (result_state r) w3 = (Ok tt, wf))
  /\ (fs_mkdir E (fs_ops w1) = None ->
      fs_writeFile E (S (fs_ops w1)) = None ->
      disk wf = Some (result_state r)).
Proof.
  intros Hin Hpre Hrun Hph msg r wf.
  pose proof (phase_throw_is_pipeline_throw E config tag phase pre w w0 e w1
                Hin Hpre Hrun Hph) as Hp.
  assert (Htag : currentPhase (st w1) = tag).
  { pose proof (phase_table_tag E tag phase w0 Hin) as T.
    now rewrite Hph in T. }
  destruct (run_after_throw E config w e w1 Hp)
    as (Hs & He & Hst & Htr & w3 & Hs3 & Ht3 & Hf3 & Hsave).
  fold msg r wf in Hs, He, Hst, Htr, Hs3, Hsave.
  destruct (save_spec E (result_state r) w3) as (w4 & Hsave' & Hs4 & Ht4 & Hd).
  rewrite Hsave in Hsave'. injection Hsave' as <-.
  split; [exact Hs|]. split; [exact He|].
  split; [intros m Hm; rewrite He; unfold msg; now rewrite Hm|].
  split; [rewrite Hst; exact Htag|].
  split; [rewrite Hst, Htag; reflexivity|].
  split; [rewrite Hst; repeat split|].
  split; [congruence|]. split; [exact Htr|].
  split; [exists w3; repeat split; assumption|].
  intros Hm Hw. rewrite Hf3, Hm, Hw in Hd. apply Hd.
Qed.

(** *** No phase before [deploy] calls the deployer or the announcer *)

Section NoDelivery.
Variable E : Env.

Lemma internal_call c : not_delivery c -> preserves (calls_only not_delivery) (record_call c).
Proof.
  intros Hc w. exists [c]. split; [reflexivity|]. now constructor.
Qed.

Lemma internal_modify f : preserves (calls_only not_delivery) (modify_state f).
Proof. intros w. exists []. cbn. split; [now rewrite app_nil_r | constructor]. Qed.

Lemma internal_budgeted {T} label budget c (script : nat -> Behaviour T) :
  not_delivery c ->
  preserves (calls_only not_delivery) (Orchestrator.budgeted E label budget c script).
Proof.
  intros Hc. eapply preserves_budgeted with (okc := not_delivery);
    auto using internal_call; exact _.
Qed.

Lemma internal_saveState : preserves (calls_only not_delivery) (Orchestrator.saveState E).
Proof. unfold Orchestrator.saveState. repeat preserves_step. Qed.

Lemma internal_core_phases :
  preserves (calls_only not_delivery) (Orchestrator.core_phases E).
Proof.
  unfold Orchestrator.core_phases, Orchestrator.phase1_ScoutTrends,
    Orchestrator.phase2_GenerateIdeas, Orchestrator.phase2b_JudgeIdeas,
    Orchestrator.phase3_ResearchIdeas, Orchestrator.phase4_Implement.
  repeat first
    [ preserves_step
    | apply internal_saveState
    | apply internal_modify
    | apply internal_budgeted; unfold not_delivery; cbn; tauto
    | eapply preserves_judge_rounds with (okc := not_delivery);
        auto using internal_call, internal_modify;
        solve [exact _ | unfold not_delivery; cbn; tauto]
    | eapply preserves_research_loop with (okc := not_delivery);
        auto using internal_call, internal_modify;
        solve [exact _ | unfold not_delivery; cbn; tauto] ].
Qed.
End NoDelivery.

(** C7.  With the dry-run flag set, a run makes no call to the deployer
    and none to the announcer, whatever the two skip flags say. *)
Theorem dry_run_never_deploys_or_announces
    (E : Env) (config : Config) (w : World) :
  dryRun config = true ->
  Forall (fun c => ~ is_delivery c)
    (new_calls w (snd (Orchestrator.run E config w))).
Proof.
  intros Hdry.
  assert (Hcore : calls_only (fun c => ~ is_delivery c) w
                    (snd (Orchestrator.pipeline E config w))).
  { unfold Orchestrator.pipeline. rewrite Hdry.
    apply preserves_bind; [exact _ | apply internal_core_phases |].
    intros ?. apply preserves_ret. exact _. }
  assert (Htrace : trace (snd (Orchestrator.run E config w))
                   = trace (snd (Orchestrator.pipeline E config w))).
  { unfold Orchestrator.run.
    destruct (Orchestrator.pipeline E config w) as [[[]|e] w1]; [reflexivity|].
    cbn [log modify_state]. unfold Orchestrator.saveState, bind, get_state.
    match goal with |- context [StateManager.save E ?s ?w3] =>
      destruct (save_spec E s w3) as (w4 & Hs & _ & Htr & _); rewrite Hs
    end.
    exact Htr. }
  destruct Hcore as (cs & Hcs & Hall).
  unfold new_calls. rewrite Htrace, Hcs, drop_app_length. exact Hall.
Qed.


(** ** The research phase *)

Lemma budgeted_eq (E : Env) {T} label budget c (script : nat -> Behaviour T) w :
  Orchestrator.budgeted E label budget c script w
  = (match script (length (trace w)) with
     | SettlesInTime (Resolves v) => Ok v
     | SettlesInTime (Rejects e) => Throw e
     | Overruns t _ =>
         Throw (TimeBudget.timeout_error E label budget
                  (Date_now E (length (trace w))) t)
     end,
     snd (record_call c w)).
Proof.
  unfold Orchestrator.budgeted, bind, Orchestrator.now. cbn [record_call].
  rewrite run_events_of_settled.
  destruct (script (length (trace w))) as [[v|e]|t l]; reflexivity.
Qed.

Lemma named_Ok (E : Env) idea :
  named E idea -> exists name, JS.field E idea "name" = Ok name.
Proof.
  unfold named. destruct (JS.field E idea "name"); [eauto | discriminate].
Qed.

Lemma research_loop_cons (E : Env) idea rest w :
  match JS.field E idea "name" with
  | Throw e => Orchestrator.research_loop E (idea :: rest) w = (Throw e, w)
  | Ok _ =>
      match Spec.ship_report E (length (trace w)) idea with
      | Some report =>
          exists w',
            Orchestrator.research_loop E (idea :: rest) w = (Ok tt, w')
            /\ st w' = Orchestrator.set_selected idea report (st w)
            /\ trace w' = trace w ++ [CallResearch idea]
      | None =>
          exists w',
            Orchestrator.research_loop E (idea :: rest) w
            = Orchestrator.research_loop E rest w'
            /\ st w' = st w
            /\ trace w' = trace w ++ [CallResearch idea]
      end
  end.
Proof.
  cbn [Orchestrator.research_loop].
  destruct (JS.field E idea "name") as [name|e]; [|reflexivity].
  unfold try_catch, bind. cbn [lift].
  rewrite budgeted_eq. unfold Spec.ship_report.
  destruct (researcher_research E (length (trace w)) idea) as [[report|e]|t l].
  - destruct (recommendation report); cbn;
      eexists; (split; [reflexivity | split; reflexivity]).
  - cbn. eexists; (split; [reflexivity | split; reflexivity]).
  - cbn. eexists; (split; [reflexivity | split; reflexivity]).
Qed.

Lemma research_loop_ships (E : Env) chosen post report :
  forall pre w,
    Forall (named E) (pre ++ [chosen]) ->
    (forall k idea, pre !! k = Some idea ->
                    Spec.ship_report E (length (trace w) + k) idea = None) ->
    Spec.ship_report E (length (trace w) + length pre) chosen = Some report ->
    exists w',
      Orchestrator.research_loop E (pre ++ chosen :: post) w = (Ok tt, w')
      /\ st w' = Orchestrator.set_selected chosen report (st w)
      /\ trace w' = trace w ++ map CallResearch (pre ++ [chosen]).
Proof.
  induction pre as [|idea pre IH]; intros w Hnamed Hpre Hship.
  - cbn [app length] in *. rewrite Nat.add_0_r in Hship.
    apply Forall_cons in Hnamed as [Hn _]. destruct (named_Ok E _ Hn) as [name Hname].
    pose proof (research_loop_cons E chosen post w) as H.
    rewrite Hname, Hship in H. exact H.
  - cbn [app] in Hnamed. apply Forall_cons in Hnamed as [Hn Hnamed].
    destruct (named_Ok E _ Hn) as [name Hname].
    pose proof (research_loop_cons E idea (pre ++ chosen :: post) w) as H.
    rewrite Hname in H.
    rewrite <- (Nat.add_0_r (length (trace w))), (Hpre 0 idea eq_refl) in H.
    destruct H as (w1 & Hl & Hs & Ht).
    destruct (IH w1 Hnamed) as (w' & Hl' & Hs' & Ht').
    + intros k i Hk. rewrite Ht, length_app. cbn [length].
      rewrite <- Nat.add_assoc. now apply (Hpre (S k)).
    + rewrite Ht, length_app. cbn [length].
      rewrite <- Nat.add_assoc. exact Hship.
    + exists w'. cbn [app]. rewrite Hl, Hl'. split; [reflexivity|].
      split; [now rewrite Hs', Hs|].
      rewrite Ht', Ht, <- app_assoc. reflexivity.
Qed.

Lemma research_loop_exhausted (E : Env) :
  forall candidates w,
    Forall (named E) candidates ->
    (forall k idea, candidates !! k = Some idea ->
                    Spec.ship_report E (length (trace w) + k) idea = None) ->
    exists w',
      Orchestrator.research_loop E candidates w
      = (Throw (Error "No shippable ideas after research"), w')
      /\ st w' = st w
      /\ trace w' = trace w ++ map CallResearch candidates.
Proof.
  induction candidates as [|idea rest IH]; intros w Hnamed Hall.
  - exists w. cbn. now rewrite app_nil_r.
  - apply Forall_cons in Hnamed as [Hn Hnamed].
    destruct (named_Ok E _ Hn) as [name Hname].
    pose proof (research_loop_cons E idea rest w) as H. rewrite Hname in H.
    rewrite <- (Nat.add_0_r (length (trace w))), (Hall 0 idea eq_refl) in H.
    destruct H as (w1 & Hl & Hs & Ht).
    destruct (IH w1 Hnamed) as (w' & Hl' & Hs' & Ht').
    + intros k i Hk. rewrite Ht, length_app. cbn [length].
      rewrite <- Nat.add_assoc. now apply (Hall (S k)).
    + exists w'. rewrite Hl, Hl'. split; [reflexivity|].
      split; [now rewrite Hs', Hs|].
      rewrite Ht', Ht, <- app_assoc. reflexivity.
Qed.

(** An idea whose name cannot be written into the label stops the loop
    with what the template literal throws. *)
Lemma research_loop_unnamed (E : Env) bad post e :
  forall pre w,
    Forall (named E) pre ->
    (forall k idea, pre !! k = Some idea ->
                    Spec.ship_report E (length (trace w) + k) idea = None) ->
    JS.field E bad "name" = Throw e ->
    exists w',
      Orchestrator.research_loop E (pre ++ bad :: post) w = (Throw e, w')
      /\ st w' = st w
      /\ trace w' = trace w ++ map CallResearch pre.
Proof.
  induction pre as [|idea pre IH]; intros w Hnamed Hpre Hbad.
  - pose proof (research_loop_cons E bad post w) as H. rewrite Hbad in H.
    exists w. cbn [app map]. rewrite app_nil_r. auto.
  - apply Forall_cons in Hnamed as [Hn Hnamed].
    destruct (named_Ok E _ Hn) as [name Hname].
    pose proof (research_loop_cons E idea (pre ++ bad :: post) w) as H.
    rewrite Hname in H.
    rewrite <- (Nat.add_0_r (length (trace w))), (Hpre 0 idea eq_refl) in H.
    destruct H as (w1 & Hl & Hs & Ht).
    destruct (IH w1 Hnamed) as (w' & Hl' & Hs' & Ht').
    + intros k i Hk. rewrite Ht, length_app. cbn [length].
      rewrite <- Nat.add_assoc. now apply (Hpre (S k)).
    + exact Hbad.
    + exists w'. cbn [app]. rewrite Hl, Hl'. split; [reflexivity|].
      split; [now rewrite Hs', Hs|].
      rewrite Ht', Ht, <- app_assoc. reflexivity.
Qed.

(** ** Deploy and announce *)

Lemma phase6_resolved (E : Env) (w : World) (tweet : TweetResult) :
  announcer_announce E (length (trace w)) (deployment (st w))
    (selectedIdea (st w)) (implementation (st w))
  = SettlesInTime (Resolves tweet) ->
  exists w',
    Orchestrator.phase6_Announce E w = (Ok tt, w')
    /\ st w' = Orchestrator.set_announcement tweet
                 (Orchestrator.set_currentPhase "announce" (st w))
    /\ trace w'
       = trace w ++ [CallAnnounce (deployment (st w)) (selectedIdea (st w))
                       (implementation (st w))]
    /\ logs w' = logs w ++ (if tweet_success tweet then [] else [tweet_failure_line]).
Proof.
  intros Hres.
  unfold Orchestrator.phase6_Announce, bind, modify_state, get_state.
  rewrite budgeted_eq. cbn. rewrite Hres. cbn.
  destruct (tweet_success tweet); cbn; eexists;
    (split; [reflexivity|]); repeat split.
  now rewrite app_nil_r.
Qed.

Lemma phase5_unsuccessful (E : Env) (w : World) (d : DeploymentResult) :
  deployer_deploy E (length (trace w)) (implementation (st w)) (selectedIdea (st w))
  = SettlesInTime (Resolves d) ->
  deploy_success d = false ->
  exists w',
    Orchestrator.phase5_Deploy E w
    = (Throw (Error ("Deployment failed: "
                     +:+ String.concat ", " (deploy_errors d))), w')
    /\ st w' = Orchestrator.set_currentPhase "deploy" (st w)
    /\ trace w'
       = trace w ++ [CallDeploy (implementation (st w)) (selectedIdea (st w))].
Proof.
  intros Hres Hfail.
  unfold Orchestrator.phase5_Deploy, bind, modify_state, get_state.
  rewrite budgeted_eq. cbn. rewrite Hres. cbn. rewrite Hfail.
  eexists. split; [reflexivity|]. repeat split.
Qed.

(** C9.  A failed announcement does not fail the run, a failed
    deployment does.  If the run reaches the announce phase and the
    announcer resolves with [success = false], the result is stored in
    [state.announcement], a warning is logged and the run returns
    [success = true].  If the run reaches the deploy phase and the
    deployer resolves with [success = false], the run returns
    [success = false] with the deployment error, [currentPhase] is
    [deploy], and the announcer is not called. *)
Theorem announce_failure_is_not_fatal_deploy_failure_is
    (E : Env) (config : Config) (w0 w1 : World) :
  dryRun config = false ->
  Orchestrator.core_phases E w0 = (Ok tt, w1) ->
  (forall w tweet,
      skipTwitter config = false ->
      Orchestrator.deploy_step E config w1 = (Ok tt, w) ->
      announcer_announce E (length (trace w)) (deployment (st w))
        (selectedIdea (st w)) (implementation (st w))
      = SettlesInTime (Resolves tweet) ->
      tweet_success tweet = false ->
      let r := fst (Orchestrator.run E config w0) in
      let wf := snd (Orchestrator.run E config w0) in
      success r = true
      /\ result_error r = None
      /\ announcement (result_state r) = Some tweet
      /\ errors (result_state r) = errors (st w)
      /\ In tweet_failure_line (logs wf))
  /\ (forall d,
      skipGithub config = false ->
      deployer_deploy E (length (trace w1)) (implementation (st w1))
        (selectedIdea (st w1))
      = SettlesInTime (Resolves d) ->
      deploy_success d = false ->
      let r := fst (Orchestrator.run E config w0) in
      let wf := snd (Orchestrator.run E config w0) in
      success r = false
      /\ result_error r
         = Some ("Deployment failed: " +:+ String.concat ", " (deploy_errors d))
      /\ currentPhase (result_state r) = "deploy"
      /\ deployment (result_state r) = deployment (st w1)
      /\ new_calls w1 wf
         = [CallDeploy (implementation (st w1)) (selectedIdea (st w1))]).
Proof.
  intros Hdry Hcore. split.
  - intros w tweet Hskip Hdeploy Hres Hfail r wf.
    destruct (phase6_resolved E w tweet Hres) as (w2 & Hp6 & Hs2 & Ht2 & Hl2).
    destruct (save_spec E (st w2) w2) as (w3 & Hsave & Hs3 & Ht3 & Hd3).
    assert (Hpipe : Orchestrator.pipeline E config w0 = (Ok tt, w3)).
    { unfold Orchestrator.pipeline.
      rewrite (bind_Ok _ _ _ _ _ Hcore), Hdry.
      rewrite (bind_Ok _ _ _ _ _ Hdeploy).
      unfold Orchestrator.announce_step. rewrite Hskip.
      rewrite (bind_Ok _ _ _ _ _ Hp6).
      unfold Orchestrator.saveState, bind, get_state. exact Hsave. }
    subst r wf. unfold Orchestrator.run. rewrite Hpipe.
    cbn [fst snd success result_error result_state].
    rewrite Hs3, Hs2. repeat split.
    assert (Hin : In tweet_failure_line (logs w2)).
    { rewrite Hl2, Hfail. apply in_or_app. right. now left. }
    destruct (fs_mkdir E (fs_ops w2)); [|destruct (fs_writeFile E (S (fs_ops w2)))];
      destruct Hd3 as [_ ->]; try exact Hin; apply in_or_app; now left.
  - intros d Hskip Hres Hfail r wf.
    destruct (phase5_unsuccessful E w1 d Hres Hfail) as (w2 & Hp5 & Hs2 & Ht2).
    assert (Hpipe : Orchestrator.pipeline E config w0
                    = (Throw (Error ("Deployment failed: "
                         +:+ String.concat ", " (deploy_errors d))), w2)).
    { unfold Orchestrator.pipeline.
      rewrite (bind_Ok _ _ _ _ _ Hcore), Hdry.
      unfold Orchestrator.deploy_step. rewrite Hskip.
      apply bind_Throw. now apply bind_Throw. }
    subst r wf. unfold Orchestrator.run. rewrite Hpipe.
    cbn [log modify_state]. unfold Orchestrator.saveState, bind, get_state.
    match goal with |- context [StateManager.save E ?s ?w3] =>
      destruct (save_spec E s w3) as (w4 & Hs & Hst & Htr & _); rewrite Hs
    end.
    cbn [fst snd success result_error result_state message_or].
    cbn in Hst, Htr. rewrite Hst. cbn. rewrite Hs2.
    repeat split.
    unfold new_calls. rewrite Htr, Ht2. apply drop_app_length.
Qed.


(** ** Groups of rejections *)

Lemma keyed_from_cons (i : nat) (x : Rejection) (l : list Rejection) :
  keyed_from i (x :: l)
  = (Orchestrator.key_at i (property (rej_idea x) "originalRepo"), x)
    :: keyed_from (S i) l.
Proof.
  unfold keyed_from. cbn [imap]. rewrite Nat.add_0_r. f_equal.
  apply imap_ext. intros j r _. cbn. now rewrite Nat.add_succ_r.
Qed.

Lemma keyed_from_app (i : nat) (l more : list Rejection) :
  keyed_from i (l ++ more) = keyed_from i l ++ keyed_from (i + length l) more.
Proof.
  unfold keyed_from. rewrite imap_app. f_equal.
  apply imap_ext. intros j r _. cbn. now rewrite Nat.add_assoc.
Qed.

Lemma keyed_from_snd (i : nat) (l : list Rejection) :
  map snd (keyed_from i l) = l.
Proof.
  revert i. induction l as [|x l IH]; intros i; [reflexivity|].
  rewrite keyed_from_cons. cbn. now rewrite IH.
Qed.

Lemma keyed_from_length (i : nat) (l : list Rejection) :
  length (keyed_from i l) = length l.
Proof. now rewrite <- (length_map snd), keyed_from_snd. Qed.

(** The grouping loop throws exactly when it meets an idea that is
    [null]; otherwise it pushes the entries under their keys. *)
Lemma group_loop_spec (l : list Rejection) :
  forall i byRepo,
    (no_null_idea l
     /\ Orchestrator.group_loop i l byRepo = Ok (grouped (keyed_from i l) byRepo))
    \/ (~ no_null_idea l /\ exists e, Orchestrator.group_loop i l byRepo = Throw e).
Proof.
  unfold no_null_idea.
  induction l as [|x l IH]; intros i byRepo.
  - left. split; [constructor | reflexivity].
  - cbn [Orchestrator.group_loop]. rewrite keyed_from_cons.
    destruct (rej_idea x) eqn:Hx; cbn [get_prop and_then];
      try (destruct (IH (S i)
                       (Orchestrator.group_push
                          (Orchestrator.key_at i (property (rej_idea x) "originalRepo"))
                          x byRepo))
             as [[Hall Hl]|[Hnot [e He]]];
           rewrite Hx in *;
           [ left; split;
             [constructor; [rewrite Hx; discriminate | exact Hall] | exact Hl]
           | right; split;
             [intros H; apply Forall_cons in H as [_ H]; now apply Hnot | eauto] ]).
    right. split; [|eauto].
    intros H. apply Forall_cons in H as [H _]. now apply H.
Qed.

Lemma grouped_snoc l kr byRepo :
  grouped (l ++ [kr]) byRepo
  = Orchestrator.group_push (fst kr) (snd kr) (grouped l byRepo).
Proof. unfold grouped. now rewrite fold_left_app. Qed.

Lemma group_push_keys (k : Orchestrator.MapKey) (x : Rejection) g :
  map fst (Orchestrator.group_push k x g)
  = if bool_decide (k ∈ map fst g) then map fst g else map fst g ++ [k].
Proof.
  induction g as [|[k0 es0] rest IH]; cbn.
  - rewrite bool_decide_false; [reflexivity | apply not_elem_of_nil].
  - destruct (bool_decide (k0 = k)) eqn:Hk.
    + apply bool_decide_eq_true in Hk as ->. cbn.
      now rewrite bool_decide_true by apply list_elem_of_here.
    + apply bool_decide_eq_false in Hk. cbn. rewrite IH.
      destruct (bool_decide (k ∈ map fst rest)) eqn:Hin.
      * apply bool_decide_eq_true in Hin.
        now rewrite bool_decide_true by now apply list_elem_of_further.
      * apply bool_decide_eq_false in Hin.
        rewrite bool_decide_false; [reflexivity|].
        intros [H|H]%elem_of_cons; [congruence | contradiction].
Qed.

Lemma group_push_In (k : Orchestrator.MapKey) (x : Rejection) g k' es :
  NoDup (map fst g) ->
  In (k', es) (Orchestrator.group_push k x g) ->
  (k' <> k /\ In (k', es) g)
  \/ (k' = k
      /\ exists es0, es = es0 ++ [x]
                     /\ (In (k, es0) g \/ (es0 = [] /\ ~ In k (map fst g)))).
Proof.
  induction g as [|[k0 es0] rest IH]; cbn; intros Hnd Hin.
  - destruct Hin as [[= <- <-]|[]]. right. split; [reflexivity|].
    exists []. split; [reflexivity|]. right. split; [reflexivity | tauto].
  - apply NoDup_cons in Hnd as [Hk0 Hnd].
    destruct (bool_decide (k0 = k)) eqn:Hk.
    + apply bool_decide_eq_true in Hk as ->.
      destruct Hin as [[= <- <-]|Hin].
      * right. split; [reflexivity|]. exists es0. split; [reflexivity|].
        left. now left.
      * left. split; [|now right]. intros ->. apply Hk0.
        apply list_elem_of_In, in_map_iff. exists (k, es). now split.
    + apply bool_decide_eq_false in Hk.
      destruct Hin as [[= <- <-]|Hin].
      * left. split; [exact Hk | now left].
      * destruct (IH Hnd Hin) as [[Hne Hi]|[-> (es1 & -> & Hes)]].
        -- left. split; [exact Hne | now right].
        -- right. split; [reflexivity|]. exists es1. split; [reflexivity|].
           destruct Hes as [Hi|[-> Hni]]; [left; now right|].
           right. split; [reflexivity|]. intros [H|H]; [congruence | contradiction].
Qed.

Lemma with_key_snoc k l kr :
  with_key k (l ++ [kr])
  = with_key k l ++ (if bool_decide (fst kr = k) then [snd kr] else []).
Proof.
  unfold with_key. rewrite List.filter_app, map_app. cbn.
  now destruct (bool_decide (fst kr = k)).
Qed.

Lemma with_key_none k l :
  (forall kr, In kr l -> fst kr <> k) -> with_key k l = [].
Proof.
  unfold with_key. induction l as [|x l IH]; intros H; [reflexivity|]. cbn.
  rewrite bool_decide_false by (apply H; now left).
  apply IH. intros y Hy. apply H. now right.
Qed.

(** Pushing a keyed list into an empty [Map] partitions it by key. *)
Lemma grouped_invariant (l : list (Orchestrator.MapKey * Rejection)) :
  NoDup (map fst (grouped l []))
  /\ (forall k entries, In (k, entries) (grouped l []) ->
        entries <> [] /\ entries = with_key k l)
  /\ (forall kr, In kr l -> In (fst kr) (map fst (grouped l []))).
Proof.
  induction l as [|x l IH] using rev_ind.
  - cbn. split; [constructor|]. split; [intros ? ? []|intros ? []].
  - destruct IH as (Hnd & Hgroups & Hkeys).
    rewrite grouped_snoc.
    set (g := grouped l []) in *.
    split; [|split].
    + rewrite group_push_keys.
      destruct (bool_decide (fst x ∈ map fst g)) eqn:Hin; [exact Hnd|].
      apply bool_decide_eq_false in Hin.
      apply NoDup_app. split; [exact Hnd|]. split.
      * intros k Hk ->%list_elem_of_singleton. now apply Hin.
      * apply NoDup_singleton.
    + intros k entries Hin. rewrite with_key_snoc.
      apply (group_push_In _ _ _ _ _ Hnd) in Hin
        as [[Hne Hin]|[-> (es0 & -> & Hes)]].
      * destruct (Hgroups k entries Hin) as [Hnil Heq].
        split; [exact Hnil|].
        rewrite bool_decide_false by congruence. now rewrite app_nil_r.
      * split; [now destruct es0|].
        rewrite bool_decide_true by reflexivity. f_equal.
        destruct Hes as [Hin|[-> Hni]]; [now apply Hgroups|].
        symmetry. apply with_key_none. intros kr Hr Hk. apply Hni.
        rewrite <- Hk. now apply Hkeys.
    + intros r Hr. rewrite group_push_keys.
      apply in_app_or in Hr as [Hr|[<-|[]]].
      * specialize (Hkeys r Hr).
        destruct (bool_decide _); [exact Hkeys|]. apply in_or_app. now left.
      * destruct (bool_decide (fst x ∈ map fst g)) eqn:Hin.
        -- apply bool_decide_eq_true in Hin. now apply list_elem_of_In.
        -- apply in_or_app. right. now left.
Qed.

Lemma grouped_keys_prefix (l more : list (Orchestrator.MapKey * Rejection)) :
  map fst (grouped l []) `prefix_of` map fst (grouped (l ++ more) []).
Proof.
  induction more as [|x more IH] using rev_ind.
  - now rewrite app_nil_r.
  - rewrite app_assoc, grouped_snoc, group_push_keys.
    destruct (bool_decide _); [exact IH|].
    etrans; [exact IH|]. now apply prefix_app_r.
Qed.

Lemma grouped_length (l : list (Orchestrator.MapKey * Rejection)) :
  length (grouped l []) <= length l.
Proof.
  induction l as [|x l IH] using rev_ind; [reflexivity|].
  rewrite grouped_snoc, length_app. cbn.
  rewrite <- (length_map fst (Orchestrator.group_push _ _ _)), group_push_keys.
  rewrite <- (length_map fst) in IH.
  destruct (bool_decide _); [lia|]. rewrite length_app. cbn. lia.
Qed.

(** What [group_by_repo] returns. *)
Lemma group_by_repo_Ok (rejected : list Rejection) groups :
  Orchestrator.group_by_repo rejected = Ok groups ->
  no_null_idea rejected /\ groups = grouped (keyed rejected) [].
Proof.
  unfold Orchestrator.group_by_repo. intros H.
  destruct (group_loop_spec rejected 0 []) as [[Hall Hl]|[_ [e He]]];
    rewrite H in *; [|discriminate].
  split; [exact Hall|]. injection Hl as ->. reflexivity.
Qed.

Lemma group_by_repo_no_null (rejected : list Rejection) :
  no_null_idea rejected ->
  Orchestrator.group_by_repo rejected = Ok (grouped (keyed rejected) []).
Proof.
  intros Hall. destruct (group_loop_spec rejected 0 []) as [[_ Hl]|[Hnot _]];
    [exact Hl | contradiction].
Qed.

(** Every rejection sits in the group of its key. *)
Lemma grouped_member (rejected : list Rejection) (i : nat) (r : Rejection) :
  rejected !! i = Some r ->
  let k := Orchestrator.key_at i (property (rej_idea r) "originalRepo") in
  exists entries, In (k, entries) (grouped (keyed rejected) []) /\ In r entries.
Proof.
  intros Hi k.
  assert (Hin : In (k, r) (keyed rejected)).
  { apply list_elem_of_In, list_elem_of_lookup. exists i.
    unfold keyed, keyed_from. rewrite list_lookup_imap, Hi. reflexivity. }
  destruct (grouped_invariant (keyed rejected)) as (_ & Hgroups & Hkeys).
  pose proof (Hkeys _ Hin) as Hk. cbn [fst] in Hk.
  apply in_map_iff in Hk as ([k' entries] & Hk' & Hg). cbn in Hk'. subst k'.
  exists entries. split; [exact Hg|].
  destruct (Hgroups _ _ Hg) as [_ ->]. unfold with_key.
  apply in_map_iff. exists (k, r). split; [reflexivity|].
  apply List.filter_In. split; [exact Hin|]. now apply bool_decide_eq_true.
Qed.

(** ** The judging rounds *)

#[export] Instance quiet_calls_progress (P : Call -> Prop) : Progress (quiet_calls P).
Proof.
  split; unfold quiet_calls.
  - intros w1 w2 w3 [S1 C1] [S2 C2]. split; [congruence|].
    eapply progress_trans; eassumption.
  - intros w w' Hs Ht. split; [exact Hs|]. now apply progress_quiet.
Qed.

Lemma quiet_pi_call t : is_pi_call (CallPi t) ->
  preserves (quiet_calls is_pi_call) (record_call (CallPi t)).
Proof.
  intros _ w. split; [reflexivity|]. exists [CallPi t].
  split; [reflexivity|]. now repeat constructor.
Qed.





Lemma JS_map_Throw {A B} (f : A -> Result B) (l : list A) e :
  JS.map f l = Throw e ->
  exists pre x post,
    l = pre ++ x :: post
    /\ Forall (fun x => is_Ok (f x) = true) pre
    /\ f x = Throw e.
Proof.
  induction l as [|x l IH]; cbn [JS.map]; [discriminate|].
  destruct (f x) as [y|e'] eqn:Hx; cbn [and_then].
  - destruct (JS.map f l) as [ys|e'']; cbn [and_then]; [discriminate|].
    intros [= ->]. destruct (IH eq_refl) as (pre & bad & post & -> & Hpre & Hbad).
    exists (x :: pre), bad, post. split; [reflexivity|].
    split; [|exact Hbad]. constructor; [now rewrite Hx | exact Hpre].
  - intros [= ->]. exists [], x, l. split; [reflexivity|].
    split; [constructor | exact Hx].
Qed.

(** The loop that logs the rejections touches nothing; it throws what
    the first line that cannot be written throws. *)
Lemma log_rejections_eq (E : Env) rejected w :
  Orchestrator.log_rejections E rejected w
  = (match JS.map (Orchestrator.rejection_line E) rejected with
     | Ok _ => Ok tt
     | Throw e => Throw e
     end, w).
Proof.
  unfold Orchestrator.log_rejections, bind, lift.
  now destruct (JS.map (Orchestrator.rejection_line E) rejected).
Qed.



(** [regenerateFromFeedback] leaves the state alone and only talks to
    the agent, however it ends. *)
Lemma regenerate_quiet (E : Env) rejected repos w :
  quiet_calls is_pi_call w
    (snd (Orchestrator.regenerateFromFeedback E rejected repos w)).
Proof.
  eapply preserves_regenerateFromFeedback with (okc := is_pi_call).
  - exact _.
  - intros [] Hc; try contradiction. now apply quiet_pi_call.
  - intros t. exact I.
Qed.




Lemma budgeted_local_eq (E : Env) {T} label budget c deadline (fn : M T) w :
  Orchestrator.budgeted_local E label budget c deadline fn w
  = let w1 := snd (record_call c w) in
    (match deadline (length (trace w)) with
     | None => fst (fn w1)
     | Some t =>
         Throw (TimeBudget.timeout_error E label budget
                  (Date_now E (length (trace w))) t)
     end,
     snd (fn w1)).
Proof.
  unfold Orchestrator.budgeted_local, bind, Orchestrator.now. cbn [record_call snd].
  destruct (fn _) as [r w1]. cbn [fst snd].
  rewrite run_events_of_settled.
  destruct (deadline (length (trace w))) as [t|]; [reflexivity|].
  destruct r; reflexivity.
Qed.


Lemma judge_round_eq (E : Env) round repos w :
  Orchestrator.judge_round E round repos w
  = Orchestrator.budgeted_local E
      ("judge-ideas-round-" +:+ pretty round) timeBudgets.ideaJudge
      (CallFilterIdeas (ideas (st w))) (ideaJudge_deadline E)
      (match ideas (st w) with
       | Some l => IdeaJudge.filterIdeas E l repos
       | None => throw (Error "ideas is not iterable")
       end) w.
Proof. reflexivity. Qed.

(** One judging round hands the current ideas to [filterIdeas], which
    judges those with a known source, in order, as far as it gets: all of
    them when every idea is presentable. *)
Lemma judge_round_spec (E : Env) round repos w :
  let w' := snd (Orchestrator.judge_round E round repos w) in
  st w' = st w
  /\ match ideas (st w) with
     | Some batch =>
         exists judged,
           judged `prefix_of` batch
           /\ trace w'
              = trace w ++ CallFilterIdeas (Some batch)
                           :: Spec.judge_calls repos judged
           /\ (Forall (presentable E repos) batch -> judged = batch)
     | None => trace w' = trace w ++ [CallFilterIdeas None]
     end.
Proof.
  rewrite judge_round_eq, budgeted_local_eq. cbv zeta. cbn [snd].
  destruct (ideas (st w)) as [batch|]; [|cbn; split; reflexivity].
  destruct (filterIdeas_spec E batch repos
              (snd (record_call (CallFilterIdeas (Some batch)) w)))
    as [(Hall & a & r & w' & Hl & (Hs & Ht & _) & _)
       |(pre & idea & post & e & w' & -> & Hpre & Hbad & Hl & (Hs & Ht & _))];
    rewrite Hl; cbn [snd]; (split; [exact Hs|]).
  - exists batch. split; [reflexivity|]. split; [|reflexivity].
    rewrite Ht. cbn. now rewrite <- app_assoc.
  - exists pre. split; [now exists (idea :: post)|]. split.
    + rewrite Ht. cbn. now rewrite <- app_assoc.
    + intros Hall. destruct (presentable_not_Throw E repos pre idea post e Hall Hbad).
Qed.

Lemma presentable_named (E : Env) (repos : gmap string TrendingRepo) idea :
  presentable E repos idea -> named E idea.
Proof.
  unfold presentable, presents, named, IdeaJudge.buildJudgePrompt.
  destruct (get_prop idea "originalRepo") as [key|]; cbn [and_then]; [|discriminate].
  destruct (JS.Map_get repos key);
    destruct (JS.field E idea "name"); cbn [and_then is_Ok];
    intros H; try reflexivity; discriminate H.
Qed.

(** A round that returns has judged the whole batch, every idea of which
    was presentable; what it rejected has a known source. *)
Lemma judge_round_Ok (E : Env) round repos w a r w' :
  Orchestrator.judge_round E round repos w = (Ok (a, r), w') ->
  exists batch,
    ideas (st w) = Some batch
    /\ Forall (presentable E repos) batch
    /\ trace w'
       = trace w ++ CallFilterIdeas (Some batch) :: Spec.judge_calls repos batch
    /\ Permutation (a ++ map rej_idea r) batch
    /\ sublist a batch
    /\ Forall (fun x => is_Some (IdeaJudge.source_of repos (rej_idea x))
                        /\ approved (rej_verdict x) = false) r.
Proof.
  rewrite judge_round_eq, budgeted_local_eq. cbv zeta.
  destruct (ideaJudge_deadline E (length (trace w))); [discriminate|].
  destruct (ideas (st w)) as [batch|]; [|discriminate].
  destruct (filterIdeas_spec E batch repos
              (snd (record_call (CallFilterIdeas (Some batch)) w)))
    as [(Hall & a0 & r0 & w0 & Hl & (Hs & Ht & _) & Hperm & Hsa & _ & _ & Hrej)
       |(pre & idea & post & e & w0 & _ & _ & _ & Hl & _)];
    rewrite Hl; cbn [fst snd]; intros [= <- <- <-].
  exists batch. split; [reflexivity|]. split; [exact Hall|].
  split; [rewrite Ht; cbn; now rewrite <- app_assoc|].
  split; [exact Hperm|]. split; [exact Hsa|].
  apply Forall_forall. intros x Hx. apply list_elem_of_In in Hx.
  destruct (Hrej x Hx) as (H1 & _ & _ & H4 & _). now split.
Qed.




(** The ideas the judging phase leaves behind when it returns have all
    been presented to the judge: their names can be written. *)
Lemma judge_rounds_named (E : Env) repos :
  forall left round w w',
    Orchestrator.judge_rounds E repos round left w = (Ok tt, w') ->
    exists l, ideas (st w') = Some l /\ Forall (named E) l.
Proof.
  induction left as [|left IH]; intros round w w'; cbn [Orchestrator.judge_rounds];
    [discriminate|].
  intros H. apply bind_inv_Ok in H as ([a r] & w1 & Hround & H).
  apply bind_inv_Ok in H as ([] & w2 & _ & H).
  destruct (0 <? length a)%nat.
  - injection H as <-. exists a. split; [reflexivity|].
    apply judge_round_Ok in Hround as (batch & _ & Hall & _ & _ & Hsub & _).
    apply Forall_forall. intros x Hx.
    apply (presentable_named E repos).
    apply (proj1 (Forall_forall _ _) Hall).
    eapply elem_of_submseteq; [exact Hx|]. now apply sublist_submseteq.
  - apply bind_inv_Ok in H as ([] & w3 & _ & H). exact (IH _ _ _ H).
Qed.

Lemma researched_ideas_are_named (E : Env) w0 w :
  reaches_research E w0 w ->
  exists l, ideas (st w) = Some l /\ Forall (named E) l.
Proof.
  intros (w1 & _ & H). apply bind_inv_Ok in H as ([] & w2 & Hphase & Hsave).
  destruct (saveState_Ok E w2) as (w3 & Hs & Hst & _).
  rewrite Hs in Hsave. injection Hsave as <-. rewrite Hst.
  unfold Orchestrator.phase2b_JudgeIdeas in Hphase.
  apply bind_inv_Ok in Hphase as ([] & ? & _ & Hphase).
  apply bind_inv_Ok in Hphase as (? & ? & _ & Hphase).
  exact (judge_rounds_named E _ _ _ _ _ Hphase).
Qed.


(** ** The research phase in a run *)

(** C3.  The research phase takes the candidates one at a time, in list
    order, and writes the name of each into the label of its research.
    If every idea before [chosen] fails its research, overruns the
    budget or gets a recommendation other than SHIP, and [chosen] gets
    SHIP, the phase returns with [chosen] as selected idea and its report
    stored, after researching exactly the ideas up to [chosen]: those
    after it are never researched.  If no candidate gets SHIP, all are
    researched and the phase throws, which fails the run.  An idea whose
    name cannot be written, when the loop comes to it, is not researched:
    the phase throws there, and no later idea is researched.  No run
    brings such an idea to the phase: the judging phase has written the
    name of every idea it lets through. *)
Theorem research_selects_first_shippable
    (E : Env) (w : World) (candidates : list JSON) :
  ideas (st w) = Some candidates ->
  let n := length (trace w) in
  (forall pre chosen post report,
      candidates = pre ++ chosen :: post ->
      Forall (named E) (pre ++ [chosen]) ->
      (forall k idea, pre !! k = Some idea ->
                      Spec.ship_report E (n + k) idea = None) ->
      Spec.ship_report E (n + length pre) chosen = Some report ->
      exists w',
        Orchestrator.phase3_ResearchIdeas E w = (Ok tt, w')
        /\ selectedIdea (st w') = Some chosen
        /\ research (st w') = Some report
        /\ currentPhase (st w') = "research"
        /\ new_calls w w' = map CallResearch (pre ++ [chosen]))
  /\ (Forall (named E) candidates ->
      (forall k idea, candidates !! k = Some idea ->
                      Spec.ship_report E (n + k) idea = None) ->
      (exists w',
          Orchestrator.phase3_ResearchIdeas E w
          = (Throw (Error "No shippable ideas after research"), w')
          /\ selectedIdea (st w') = selectedIdea (st w)
          /\ currentPhase (st w') = "research"
          /\ new_calls w w' = map CallResearch candidates)
      /\ forall config w0,
          reaches_research E w0 w ->
          let r := fst (Orchestrator.run E config w0) in
          success r = false
          /\ result_error r = Some "No shippable ideas after research"
          /\ currentPhase (result_state r) = "research")
  /\ (forall pre bad post e,
      candidates = pre ++ bad :: post ->
      Forall (named E) pre ->
      (forall k idea, pre !! k = Some idea ->
                      Spec.ship_report E (n + k) idea = None) ->
      JS.field E bad "name" = Throw e ->
      exists w',
        Orchestrator.phase3_ResearchIdeas E w = (Throw e, w')
        /\ selectedIdea (st w') = selectedIdea (st w)
        /\ currentPhase (st w') = "research"
        /\ new_calls w w' = map CallResearch pre)
  /\ (forall w0, reaches_research E w0 w -> Forall (named E) candidates).
Proof.
  intros Hideas n.
  set (w0 := set_st (Orchestrator.set_currentPhase "research" (st w)) w).
  assert (Hphase : Orchestrator.phase3_ResearchIdeas E w
                   = Orchestrator.research_loop E candidates w0).
  { unfold Orchestrator.phase3_ResearchIdeas, bind, modify_state, get_state.
    cbn. now rewrite Hideas. }
  rewrite Hphase. split; [|split; [|split]].
  - intros pre chosen post report -> Hnamed Hpre Hship.
    destruct (research_loop_ships E chosen post report pre w0 Hnamed Hpre Hship)
      as (w' & Hl & Hs & Ht).
    exists w'. split; [exact Hl|]. rewrite Hs. repeat split.
    unfold new_calls. rewrite Ht. apply drop_app_length.
  - intros Hnamed Hall.
    destruct (research_loop_exhausted E candidates w0 Hnamed Hall)
      as (w' & Hl & Hs & Ht).
    split.
    + exists w'. split; [exact Hl|]. rewrite Hs. repeat split.
      unfold new_calls. rewrite Ht. apply drop_app_length.
    + intros config v0 Hreach r. rewrite <- Hphase in Hl.
      pose proof (pipeline_throws_in_research E config v0 w _ w' Hreach Hl) as Hp.
      destruct (run_fails_with E config v0 _ w' Hp) as (H1 & H2 & H3).
      fold r in H1, H2, H3. repeat split; [exact H1 | exact H2 |].
      rewrite H3, Hs. reflexivity.
  - intros pre bad post e -> Hnamed Hpre Hbad.
    destruct (research_loop_unnamed E bad post e pre w0 Hnamed Hpre Hbad)
      as (w' & Hl & Hs & Ht).
    exists w'. split; [exact Hl|]. rewrite Hs. repeat split.
    unfold new_calls. rewrite Ht. apply drop_app_length.
  - intros v0 Hreach.
    destruct (researched_ideas_are_named E v0 w Hreach) as (l & Hl & Hnamed).
    rewrite Hideas in Hl. now injection Hl as <-.
Qed.

(** ** The file system is invisible to a run *)

Lemma alike_ret {A} (a : A) : alike (ret a) (ret a).
Proof. intros w w' H. now split. Qed.

Lemma alike_throw {A} (e : Exn) : alike (throw (A := A) e) (throw e).
Proof. intros w w' H. now split. Qed.

Lemma alike_lift {A} (r : Result A) : alike (lift r) (lift r).
Proof. intros w w' H. now split. Qed.

Lemma alike_log l m : alike (log l m) (log l m).
Proof. intros w w' H. now split. Qed.

Lemma alike_get_state : alike get_state get_state.
Proof. intros w w' [Hs Ht]. cbn. split; [now rewrite Hs | now split]. Qed.

Lemma alike_modify_state f : alike (modify_state f) (modify_state f).
Proof. intros w w' [Hs Ht]. cbn. split; [reflexivity|]. split; cbn; congruence. Qed.

Lemma alike_record_call c : alike (record_call c) (record_call c).
Proof. intros w w' [Hs Ht]. cbn. split; [|split; cbn]; congruence. Qed.

Lemma alike_bind {A B} (c c' : M A) (k k' : A -> M B) :
  alike c c' -> (forall a, alike (k a) (k' a)) -> alike (bind c k) (bind c' k').
Proof.
  intros Hc Hk w w' Hw. unfold bind. destruct (Hc w w' Hw) as [Hr Hw1].
  destruct (c w) as [[a|e] w1], (c' w') as [[a'|e'] w1']; cbn in *;
    try discriminate.
  - injection Hr as <-. now apply Hk.
  - injection Hr as <-. now split.
Qed.

Lemma alike_try_catch {A} (c c' : M A) (h h' : Exn -> M A) :
  alike c c' -> (forall e, alike (h e) (h' e)) ->
  alike (try_catch c h) (try_catch c' h').
Proof.
  intros Hc Hh w w' Hw. unfold try_catch. destruct (Hc w w' Hw) as [Hr Hw1].
  destruct (c w) as [[a|e] w1], (c' w') as [[a'|e'] w1']; cbn in *;
    try discriminate.
  - split; assumption.
  - injection Hr as <-. now apply Hh.
Qed.

Ltac alike_step :=
  match goal with
  | |- alike (bind _ _) (bind _ _) => apply alike_bind; [|intros ?]
  | |- alike (try_catch _ _) (try_catch _ _) => apply alike_try_catch; [|intros ?]
  | |- alike (ret _) (ret _) => apply alike_ret
  | |- alike (throw _) (throw _) => apply alike_throw
  | |- alike (lift _) (lift _) => apply alike_lift
  | |- alike (log _ _) (log _ _) => apply alike_log
  | |- alike get_state get_state => apply alike_get_state
  | |- alike (modify_state _) (modify_state _) => apply alike_modify_state
  | |- alike (record_call _) (record_call _) => apply alike_record_call
  | |- alike (match ?x with _ => _ end) (match ?x with _ => _ end) => destruct x
  end.

Section FileSystemInvisible.
Variable E : Env.
Variables mk wr : nat -> option Exn.

Lemma alike_save s : alike (StateManager.save E s) (StateManager.save (with_fs mk wr E) s).
Proof.
  intros w w' [Hs Ht].
  destruct (save_spec E s w) as (w1 & -> & Hs1 & Ht1 & _).
  destruct (save_spec (with_fs mk wr E) s w') as (w1' & -> & Hs1' & Ht1' & _).
  cbn. split; [reflexivity|]. split; congruence.
Qed.

Lemma alike_saveState :
  alike (Orchestrator.saveState E) (Orchestrator.saveState (with_fs mk wr E)).
Proof.
  intros w w' Hw. unfold Orchestrator.saveState, bind, get_state.
  destruct Hw as [Hs Ht]. rewrite Hs. now apply alike_save.
Qed.

Lemma alike_now : alike (Orchestrator.now E) (Orchestrator.now (with_fs mk wr E)).
Proof.
  intros w w' [Hs Ht]. unfold Orchestrator.now. cbn.
  split; [now rewrite Ht | now split].
Qed.

Lemma alike_await {T} (p : TimeBudget.PromiseState T) :
  alike (Orchestrator.await p) (Orchestrator.await p).
Proof. destruct p; cbn [Orchestrator.await]; alike_step. Qed.

Lemma alike_budgeted {T} label budget c (script : nat -> Behaviour T) :
  alike (Orchestrator.budgeted E label budget c script)
        (Orchestrator.budgeted (with_fs mk wr E) label budget c script).
Proof.
  unfold Orchestrator.budgeted.
  alike_step; [apply alike_now|]. alike_step; [alike_step|].
  apply alike_await.
Qed.

Lemma alike_budgeted_local {T} label budget c deadline (fn fn' : M T) :
  alike fn fn' ->
  alike (Orchestrator.budgeted_local E label budget c deadline fn)
        (Orchestrator.budgeted_local (with_fs mk wr E) label budget c deadline fn').
Proof.
  intros Hfn. unfold Orchestrator.budgeted_local.
  alike_step; [apply alike_now|]. alike_step; [alike_step|].
  intros w w' Hw. destruct (Hfn w w' Hw) as [Hr Hw1].
  destruct (fn w) as [r w1], (fn' w') as [r' w1']. cbn in Hr, Hw1. subst r'.
  now apply alike_await.
Qed.

Lemma alike_execute t : alike (PiAgent.execute E t) (PiAgent.execute (with_fs mk wr E) t).
Proof.
  unfold PiAgent.execute, PiAgent.on_error.
  alike_step; [alike_step|].
  change (pi_session (with_fs mk wr E) a t) with (pi_session E a t).
  change (message_of (with_fs mk wr E)) with (message_of E).
  repeat alike_step.
Qed.

Lemma alike_parseVerdict raw n :
  alike (IdeaJudge.parseVerdict E raw n) (IdeaJudge.parseVerdict (with_fs mk wr E) raw n).
Proof.
  unfold IdeaJudge.parseVerdict, IdeaJudge.axis.
  change (JSON_parse (with_fs mk wr E)) with (JSON_parse E).
  change (message_of (with_fs mk wr E)) with (message_of E).
  repeat alike_step.
Qed.

(** What is interpolated does not depend on the file system. *)
Lemma fs_field : JS.field (with_fs mk wr E) = JS.field E.
Proof. reflexivity. Qed.

Lemma fs_interpolate : JS.interpolate (with_fs mk wr E) = JS.interpolate E.
Proof. reflexivity. Qed.

Lemma fs_buildJudgePrompt :
  IdeaJudge.buildJudgePrompt (with_fs mk wr E) = IdeaJudge.buildJudgePrompt E.
Proof. reflexivity. Qed.

Lemma fs_rejection_line :
  Orchestrator.rejection_line (with_fs mk wr E) = Orchestrator.rejection_line E.
Proof. reflexivity. Qed.

Lemma fs_feedbackBlock :
  Orchestrator.feedbackBlock (with_fs mk wr E) = Orchestrator.feedbackBlock E.
Proof. reflexivity. Qed.

Lemma alike_judge idea repo :
  alike (IdeaJudge.judge E idea repo) (IdeaJudge.judge (with_fs mk wr E) idea repo).
Proof.
  unfold IdeaJudge.judge. rewrite fs_field, fs_buildJudgePrompt.
  alike_step; [alike_step|]. alike_step; [alike_step|].
  alike_step; [apply alike_execute|].
  alike_step; [repeat alike_step | apply alike_parseVerdict].
Qed.

Lemma alike_filterIdeas batch repos :
  alike (IdeaJudge.filterIdeas E batch repos) (IdeaJudge.filterIdeas (with_fs mk wr E) batch repos).
Proof.
  unfold IdeaJudge.filterIdeas. generalize (@nil JSON) (@nil Rejection).
  induction batch as [|idea rest IH]; intros acc_a acc_r;
    cbn [IdeaJudge.filterIdeas_loop]; rewrite ?fs_field, ?fs_interpolate.
  - repeat alike_step.
  - alike_step; [alike_step|]. alike_step.
    + alike_step; [apply alike_judge|]. alike_step; apply IH.
    + alike_step; [alike_step|]. alike_step; [alike_step|].
      alike_step; [alike_step | apply IH].
Qed.

Lemma alike_regenerate_one repo repoKey entries improved :
  alike (Orchestrator.regenerate_one E repo repoKey entries improved)
        (Orchestrator.regenerate_one (with_fs mk wr E) repo repoKey entries improved).
Proof.
  unfold Orchestrator.regenerate_one. rewrite fs_interpolate.
  alike_step; [apply alike_execute|].
  change (JSON_parse (with_fs mk wr E)) with (JSON_parse E).
  repeat alike_step.
Qed.

Lemma alike_regenerateFromFeedback rejected repos :
  alike (Orchestrator.regenerateFromFeedback E rejected repos)
        (Orchestrator.regenerateFromFeedback (with_fs mk wr E) rejected repos).
Proof.
  unfold Orchestrator.regenerateFromFeedback.
  alike_step; [alike_step|]. generalize (@nil JSON).
  induction a as [|[key entries] rest IH];
    intros improved; cbn [Orchestrator.regenerate_loop].
  - alike_step.
  - alike_step; [|apply IH]. alike_step. rewrite fs_feedbackBlock.
    alike_step; [alike_step|].
    alike_step; [|apply IH].
    alike_step; [apply alike_regenerate_one | repeat alike_step].
Qed.

Lemma alike_judge_rounds repos round left :
  alike (Orchestrator.judge_rounds E repos round left)
        (Orchestrator.judge_rounds (with_fs mk wr E) repos round left).
Proof.
  revert round. induction left as [|left IH]; intros round;
    cbn [Orchestrator.judge_rounds].
  - alike_step.
  - alike_step.
    + unfold Orchestrator.judge_round. alike_step; [alike_step|].
      change (ideaJudge_deadline (with_fs mk wr E)) with (ideaJudge_deadline E).
      apply alike_budgeted_local.
      alike_step; [apply alike_filterIdeas | alike_step].
    + destruct a as [approvedIdeas rejected].
      unfold Orchestrator.log_rejections. rewrite fs_rejection_line.
      alike_step; [repeat alike_step|].
      alike_step; [alike_step|].
      alike_step; [|apply IH].
      alike_step; [|alike_step].
      alike_step; [apply alike_regenerateFromFeedback|].
      repeat alike_step.
Qed.

Lemma alike_research_loop candidates :
  alike (Orchestrator.research_loop E candidates)
        (Orchestrator.research_loop (with_fs mk wr E) candidates).
Proof.
  induction candidates as [|idea rest IH]; cbn [Orchestrator.research_loop];
    rewrite ?fs_field.
  - alike_step.
  - alike_step; [|alike_step; [alike_step | apply IH]].
    alike_step.
    + alike_step; [alike_step|].
      alike_step; [apply alike_budgeted|].
      repeat alike_step.
    + repeat alike_step.
Qed.

Lemma alike_pipeline config :
  alike (Orchestrator.pipeline E config) (Orchestrator.pipeline (with_fs mk wr E) config).
Proof.
  unfold Orchestrator.pipeline, Orchestrator.core_phases,
    Orchestrator.deploy_step, Orchestrator.announce_step,
    Orchestrator.phase1_ScoutTrends, Orchestrator.phase2_GenerateIdeas,
    Orchestrator.phase2b_JudgeIdeas, Orchestrator.phase3_ResearchIdeas,
    Orchestrator.phase4_Implement, Orchestrator.phase5_Deploy,
    Orchestrator.phase6_Announce.
  repeat first
    [ alike_step
    | apply alike_saveState
    | apply alike_budgeted
    | apply alike_judge_rounds
    | apply alike_research_loop ].
Qed.

(** The result of a run does not depend on what the file system did. *)
Lemma run_ignores_file_system config w :
  fst (Orchestrator.run (with_fs mk wr E) config w) = fst (Orchestrator.run E config w).
Proof.
  assert (Hw : agree w w) by now split.
  destruct (alike_pipeline config w w Hw) as [Hr [Hs Ht]].
  unfold Orchestrator.run.
  destruct (Orchestrator.pipeline E config w) as [[[]|e] w1],
           (Orchestrator.pipeline (with_fs mk wr E) config w) as [[[]|e'] w1'];
    cbn in Hr, Hs, Ht; try discriminate.
  - cbn. change (Date_now (with_fs mk wr E)) with (Date_now E). now rewrite Hs, Ht.
  - injection Hr as <-.
    cbn [log modify_state]. unfold Orchestrator.saveState, bind, get_state.
    repeat match goal with |- context [StateManager.save ?X ?s ?w3] =>
      let w4 := fresh "w4" in
      destruct (save_spec X s w3) as (w4 & -> & ? & ? & _)
    end.
    cbn [fst] in *. cbn in *. change (Date_now (with_fs mk wr E)) with (Date_now E).
    repeat match goal with H : st _ = _ |- _ => rewrite H; clear H end.
    repeat match goal with H : trace _ = _ |- _ => rewrite H; clear H end.
    reflexivity.
Qed.
End FileSystemInvisible.

(** C10.  [save] never rejects: whatever [mkdir] and [writeFile] do, it
    resolves, and leaves the orchestrator's state and the calls made as
    they were.  When either operation fails the file keeps its previous
    content (the checkpoint is lost) and the only trace is one error line
    in the log; when both succeed the file holds the snapshot.  So the
    result of a run is the same whatever the file system does. *)
Theorem save_never_rejects (E : Env) (state : OrchestratorState) (w : World) :
  (exists w',
      StateManager.save E state w = (Ok tt, w')
      /\ st w' = st w /\ trace w' = trace w
      /\ match fs_mkdir E (fs_ops w), fs_writeFile E (S (fs_ops w)) with
         | None, None => disk w' = Some state /\ logs w' = logs w
         | _, _ => disk w' = disk w /\ logs w' = logs w ++ [save_failure_line]
         end)
  /\ (forall mk wr config w0,
        fst (Orchestrator.run (with_fs mk wr E) config w0)
        = fst (Orchestrator.run E config w0)).
Proof.
  split.
  - destruct (save_spec E state w) as (w' & H & Hs & Ht & Hd).
    exists w'. repeat split; assumption.
  - intros mk wr config w0. apply run_ignores_file_system.
Qed.


(** * The scenario, run *)

(** The two tests of [tests/services/time-budget.test.ts]. *)
Example time_budget_test_fast :
  TimeBudget.run Sample.happy "test-fast" 10 0 [FnSettled (Resolves 42%Z)]
  = TimeBudget.Resolved 42%Z.
Proof. reflexivity. Qed.

Example time_budget_test_slow :
  TimeBudget.run Sample.happy "test-slow" 1 0
    [TimerFired 1100; FnSettled (Resolves "too late")]
  = TimeBudget.Rejected
      (Error ("TimeBudget exceeded for " +:+ dq +:+ "test-slow" +:+ dq
              +:+ ": 1.0s / 1s")).
Proof. vm_compute. reflexivity. Qed.

(** The first idea is rejected, the regenerated one is approved and goes
    to research alone; a partial implementation lets the run succeed. *)
Example happy_run :
  let r := fst (Orchestrator.run Sample.happy Sample.live Sample.start) in
  success r = true
  /\ ideas (result_state r) = Some [Sample.gizmo]
  /\ result_idea r = Some Sample.gizmo
  /\ implementation (result_state r) = Some Sample.built
  /\ announcement (result_state r) = Some Sample.not_tweeted.
Proof. vm_compute. repeat split. Qed.

(** The acceptance rule at its edges. *)
Example edge_score_is_approved :
  fst (IdeaJudge.parseVerdict Sample.happy "{edge}" "x" Sample.start)
  = Ok {| approved := true; differentiationScore := 40;
          axes := {| problemDivergence := none; technicalNovelty := medium;
                     audienceShift := none; addedValue := none;
                     runnability := high |};
          reasoning := JStr "No reasoning provided"; suggestions := [] |}.
Proof. vm_compute. reflexivity. Qed.

Example one_strong_axis_is_rejected :
  fst (IdeaJudge.parseVerdict Sample.happy "{narrow}" "x" Sample.start)
  = Ok {| approved := false; differentiationScore := 100;
          axes := {| problemDivergence := high; technicalNovelty := none;
                     audienceShift := none; addedValue := none;
                     runnability := none |};
          reasoning := JStr "No reasoning provided"; suggestions := [] |}.
Proof. vm_compute. reflexivity. Qed.

Example unparseable_output_is_rejected :
  fst (IdeaJudge.parseVerdict Sample.happy "I think {it is fine}" "x" Sample.start)
  = Ok (IdeaJudge.failedVerdict "JSON parse error")
  /\ fst (IdeaJudge.parseVerdict Sample.happy "no verdict" "x" Sample.start)
     = Ok (IdeaJudge.failedVerdict "Could not parse LLM response").
Proof. vm_compute. split; reflexivity. Qed.

(** Runs that fail in the judging and in the research phase. *)
Example judge_down_run :
  let r := fst (Orchestrator.run Sample.judge_down Sample.live Sample.start) in
  success r = false
  /\ result_error r
     = Some "All ideas rejected by the differentiation judge after 2 rounds"
  /\ currentPhase (result_state r) = "judge-ideas".
Proof. vm_compute. repeat split. Qed.

Example nothing_ships_run :
  let r := fst (Orchestrator.run Sample.nothing_ships Sample.live Sample.start) in
  success r = false
  /\ result_error r = Some "No shippable ideas after research"
  /\ currentPhase (result_state r) = "research"
  /\ selectedIdea (result_state r) = None.
Proof. vm_compute. repeat split. Qed.

(** Rejections are grouped by source repo in order of first appearance. *)
Example group_by_repo_keeps_insertion_order :
  let rej i := {| rej_idea := i;
                  rej_verdict := IdeaJudge.failedVerdict "JSON parse error" |} in
  (let? byRepo := Orchestrator.group_by_repo
                     [rej Sample.orphan; rej Sample.clone; rej Sample.orphan;
                      rej Sample.gizmo] in
   Ok (map fst byRepo))
  = Ok [Orchestrator.KStr "nobody/nothing"; Orchestrator.KStr "acme/widget"].
Proof. vm_compute. reflexivity. Qed.

(** A live run calls the deployer and the announcer once each, a dry run
    stops after the implementation. *)
Example live_run_delivers :
  drop 9 (trace (snd (Orchestrator.run Sample.happy Sample.live Sample.start)))
  = [CallDeploy (Some Sample.built) (Some Sample.gizmo);
     CallAnnounce (Some Sample.deployed) (Some Sample.gizmo) (Some Sample.built)]
  /\ drop 9 (trace (snd (Orchestrator.run Sample.happy Sample.dry Sample.start)))
     = [].
Proof. vm_compute. split; reflexivity. Qed.

Example disk_full_run :
  let full := with_fs Sample.disk_full Sample.disk_full Sample.happy in
  fst (Orchestrator.run full Sample.live Sample.start)
  = fst (Orchestrator.run Sample.happy Sample.live Sample.start)
  /\ disk (snd (Orchestrator.run full Sample.live Sample.start)) = None.
Proof. vm_compute. split; reflexivity. Qed.

Example match_braces_is_greedy :
  match_braces "so: {a} and {b}, done" = Some "{a} and {b}"
  /\ match_braces "} before {" = None.
Proof. vm_compute. split; reflexivity. Qed.


(** Ideas and verdicts that the declared types exclude and the casts let
    through.  An idea without [dependencies] cannot be put into the
    judge's prompt; a name or a reasoning that is an object with a
    property [toString] cannot be written into a template literal. *)
Example prompt_needs_dependencies :
  IdeaJudge.buildJudgePrompt Sample.happy Sample.bare Sample.widget
  = Throw (TypeError "Cannot read properties of undefined (reading 'join')")
  /\ IdeaJudge.buildJudgePrompt Sample.happy Sample.gizmo Sample.widget
     = Ok (JudgePrompt Sample.gizmo Sample.widget).
Proof. vm_compute. split; reflexivity. Qed.

Example name_cannot_be_written :
  JS.field Sample.happy Sample.nameless "name"
  = Throw (TypeError "Cannot convert object to primitive value")
  /\ fst (IdeaJudge.filterIdeas Sample.happy [Sample.nameless] Sample.repos
            Sample.start)
     = Throw (TypeError "Cannot convert object to primitive value").
Proof. vm_compute. split; reflexivity. Qed.

(** A rejection whose reasoning cannot be written stops the judging
    phase in its first round, although another idea was approved. *)
Example opaque_reasoning_stops_the_phase :
  let res := Orchestrator.phase2b_JudgeIdeas Sample.opaque Fixture.mixed in
  fst res = Throw (TypeError "Cannot convert object to primitive value")
  /\ ideas (st (snd res)) = Some [Sample.clone; Sample.gizmo; Sample.orphan]
  /\ filter_calls (new_calls Fixture.mixed (snd res))
     = [Some [Sample.clone; Sample.gizmo; Sample.orphan]].
Proof. vm_compute. repeat split. Qed.

(** ** The theorems at the scenario *)







(** Of four candidates the third is the first to ship; the fourth is not
    researched. *)
Lemma research_selects_first_shippable_witness :
  exists w',
    Orchestrator.phase3_ResearchIdeas Sample.happy Sample.before_research
    = (Ok tt, w')
    /\ selectedIdea (st w') = Some Sample.gizmo
    /\ new_calls Sample.before_research w'
       = [CallResearch Sample.clone; CallResearch Sample.orphan;
          CallResearch Sample.gizmo].
Proof.
  destruct (research_selects_first_shippable Sample.happy Sample.before_research
              [Sample.clone; Sample.orphan; Sample.gizmo; Sample.clone] eq_refl)
    as [Hship _].
  destruct (Hship [Sample.clone; Sample.orphan] Sample.gizmo [Sample.clone]
              (Sample.report Sample.gizmo SHIP))
    as (w' & Hp & Hsel & _ & _ & Hcalls).
  - reflexivity.
  - repeat constructor.
  - intros [|[|k]] idea Hk; cbn in Hk; try discriminate Hk;
      injection Hk as <-; reflexivity.
  - reflexivity.
  - exists w'. split; [exact Hp|]. split; [exact Hsel | exact Hcalls].
Defined.

(** The implementer rejects: the run has got to the implementation
    phase, which throws. *)
Lemma failing_phase_aborts_run_witness :
  let r := fst (Orchestrator.run Sample.implementer_crashes Sample.live Sample.start) in
  success r = false
  /\ result_error r = Some "agent crashed"
  /\ currentPhase (result_state r) = "implement"
  /\ errors (result_state r)
     = [ {| err_phase := "implement"; err_error := "agent crashed";
            err_timestamp := 9000 |} ].
Proof.
  pose (E := Sample.implementer_crashes).
  pose (pre := (do! Orchestrator.phase1_ScoutTrends E in
                do! Orchestrator.saveState E in
                do! Orchestrator.phase2_GenerateIdeas E in
                do! Orchestrator.saveState E in
                do! Orchestrator.phase2b_JudgeIdeas E in
                do! Orchestrator.saveState E in
                do! Orchestrator.phase3_ResearchIdeas E in
                Orchestrator.saveState E) : M unit).
  destruct (failing_phase_aborts_run E Sample.live "implement"
              (Orchestrator.phase4_Implement E) pre Sample.start
              (snd (pre Sample.start)) (Error "agent crashed")
              (snd (Orchestrator.phase4_Implement E (snd (pre Sample.start)))))
    as (Hs & He & _ & Hp & Herr & _).
  - do 4 right. left. reflexivity.
  - reflexivity.
  - vm_compute. reflexivity.
  - vm_compute. reflexivity.
  - subst pre E. cbv zeta in *.
    split; [exact Hs|]. split; [exact He|]. split; [exact Hp|].
    rewrite Herr. vm_compute. reflexivity.
Defined.

(** A dry run with both skip flags off. *)
Lemma dry_run_never_deploys_or_announces_witness :
  Forall (fun c => ~ is_delivery c)
    (new_calls Sample.start
       (snd (Orchestrator.run Sample.happy Sample.dry Sample.start))).
Proof.
  apply (dry_run_never_deploys_or_announces Sample.happy Sample.dry Sample.start).
  reflexivity.
Defined.

(** The tweet fails in one run, the deployment in another. *)
Lemma announce_failure_is_not_fatal_deploy_failure_is_witness :
  (let r := fst (Orchestrator.run Sample.happy Sample.live Sample.start) in
   success r = true /\ announcement (result_state r) = Some Sample.not_tweeted)
  /\ (let r := fst (Orchestrator.run Sample.deploy_fails Sample.live Sample.start) in
      success r = false /\ currentPhase (result_state r) = "deploy").
Proof.
  split.
  - destruct (announce_failure_is_not_fatal_deploy_failure_is Sample.happy
                Sample.live Sample.start
                (snd (Orchestrator.core_phases Sample.happy Sample.start)))
      as [Hannounce _].
    + reflexivity.
    + vm_compute. reflexivity.
    + destruct (Hannounce
                  (snd (Orchestrator.deploy_step Sample.happy Sample.live
                          (snd (Orchestrator.core_phases Sample.happy Sample.start))))
                  Sample.not_tweeted)
        as (Hs & _ & Ha & _).
      * reflexivity.
      * vm_compute. reflexivity.
      * reflexivity.
      * reflexivity.
      * split; [exact Hs | exact Ha].
  - destruct (announce_failure_is_not_fatal_deploy_failure_is Sample.deploy_fails
                Sample.live Sample.start
                (snd (Orchestrator.core_phases Sample.deploy_fails Sample.start)))
      as [_ Hdeploy].
    + reflexivity.
    + vm_compute. reflexivity.
    + destruct (Hdeploy Sample.not_deployed) as (Hs & _ & Hp & _).
      * reflexivity.
      * reflexivity.
      * reflexivity.
      * split; [exact Hs | exact Hp].
Defined.


(** * Further properties of the code *)

(** ** The braces block of an agent's output *)

Lemma has_char_app (c : ascii) (s t : string) :
  has_char c (s +:+ t) = has_char c s || has_char c t.
Proof.
  induction s as [|c' s IH]; simpl; [reflexivity|].
  rewrite IH. now rewrite orb_assoc.
Qed.

Lemma from_first_open_Some (s t : string) :
  from_first_open s = Some t ->
  exists pre rest,
    s = pre +:+ t /\ t = String "{" rest /\ has_char "{" pre = false.
Proof.
  induction s as [|c s IH]; simpl; [discriminate|].
  destruct (Ascii.eqb c "{") eqn:Hc.
  - intros [= <-]. apply Ascii.eqb_eq in Hc as ->.
    exists EmptyString, s. repeat split.
  - intros H. destruct (IH H) as (pre & rest & -> & -> & Hpre).
    exists (String c pre), rest. simpl. rewrite Hc, Hpre. repeat split.
Qed.

Lemma from_first_open_app (pre post : string) :
  exists rest,
    from_first_open (pre +:+ String "{" post) = Some (String "{" rest)
    /\ forall c, has_char c post = true -> has_char c rest = true.
Proof.
  induction pre as [|c pre IH]; simpl.
  - exists post. split; [reflexivity | auto].
  - destruct (Ascii.eqb c "{") eqn:Hc; [|exact IH].
    apply Ascii.eqb_eq in Hc as ->.
    exists (pre +:+ String "{" post). split; [reflexivity|].
    intros c Hp. rewrite has_char_app. simpl. rewrite Hp.
    now rewrite !orb_true_r.
Qed.

Lemma upto_last_close_None (s : string) :
  upto_last_close s = None -> has_char "}" s = false.
Proof.
  induction s as [|c s IH]; simpl; [reflexivity|].
  destruct (upto_last_close s); [discriminate|].
  destruct (Ascii.eqb c "}"); [discriminate|]. intros _. now apply IH.
Qed.

Lemma upto_last_close_Some (s p : string) :
  upto_last_close s = Some p ->
  exists body post,
    p = body +:+ "}" /\ s = p +:+ post /\ has_char "}" post = false.
Proof.
  revert p. induction s as [|c s IH]; simpl; [discriminate|]. intros p.
  destruct (upto_last_close s) as [q|] eqn:Hq.
  - intros [= <-]. destruct (IH q eq_refl) as (body & post & -> & -> & Hpost).
    exists (String c body), post. repeat split. exact Hpost.
  - destruct (Ascii.eqb c "}") eqn:Hc; [|discriminate].
    intros [= <-]. apply Ascii.eqb_eq in Hc as ->.
    exists EmptyString, s. repeat split. now apply upto_last_close_None.
Qed.

(** X1.  The block [parseVerdict] and [regenerateFromFeedback] cut out of
    the agent's output starts at the first opening brace of the output and
    ends at its last closing brace, whatever lies between; there is no
    block exactly when no closing brace follows an opening one. *)
Theorem match_braces_spans_first_open_to_last_close (raw : string) :
  match match_braces raw with
  | Some m =>
      exists pre body post,
        raw = pre +:+ m +:+ post
        /\ m = "{" +:+ body +:+ "}"
        /\ has_char "{" pre = false
        /\ has_char "}" post = false
  | None =>
      forall pre post, raw = pre +:+ "{" +:+ post -> has_char "}" post = false
  end.
Proof.
  unfold match_braces.
  destruct (from_first_open raw) as [t|] eqn:Hf.
  - destruct (from_first_open_Some raw t Hf) as (pre & rest & Hraw & -> & Hpre).
    destruct (upto_last_close rest) as [p|] eqn:Hu; simpl.
    + destruct (upto_last_close_Some rest p Hu) as (body & post & -> & Hrest & Hpost).
      exists pre, body, post. rewrite Hraw, Hrest. repeat split; assumption.
    + intros pre' post' Heq.
      destruct (from_first_open_app pre' post') as (rest' & Hf' & Hin).
      rewrite Heq in Hf.
      change (pre' +:+ "{" +:+ post') with (pre' +:+ String "{" post') in Hf.
      rewrite Hf' in Hf. injection Hf as ->.
      apply upto_last_close_None in Hu.
      destruct (has_char "}" post') eqn:Hp; [|reflexivity].
      rewrite (Hin _ Hp) in Hu. discriminate.
  - intros pre' post' Heq.
    destruct (from_first_open_app pre' post') as (rest' & Hf' & _).
    rewrite Heq in Hf.
    change (pre' +:+ "{" +:+ post') with (pre' +:+ String "{" post') in Hf.
    rewrite Hf' in Hf. discriminate.
Qed.


(** ** What [PiAgent.execute] returns *)

(** X2.  [execute] never throws and makes one agent call.  Its exit code
    is 0, 1 or 124; it is 0 exactly when [success] is true, which is when
    the prompt completed with no error in the agent state, and 124 exactly
    when the timeout won and the session could be aborted.  The output is
    the streamed text, also when the call failed. *)
Theorem execute_exit_code_tells_the_outcome (E : Env) (t : PiTask) (w : World) :
  let s := pi_session E (length (trace w)) t in
  exists r w',
    PiAgent.execute E t w = (Ok r, w')
    /\ st w' = st w
    /\ new_calls w w' = [CallPi t]
    /\ output r = Some (String.concat EmptyString (streamed s))
    /\ (exitCode r = 0 \/ exitCode r = 1 \/ exitCode r = 124)%Z
    /\ (pi_success r = true <-> exitCode r = 0%Z)
    /\ (pi_success r = true <->
        ending s = Prompted None \/ ending s = Prompted (Some EmptyString))
    /\ (exitCode r = 124%Z <-> ending s = TimedOut None).
Proof.
  intros s. subst s.
  unfold PiAgent.execute, PiAgent.on_error, bind, record_call, log, ret, new_calls.
  cbn.
  destruct (ending (pi_session E (length (trace w)) t)) as [e|[e|]|[m|]];
    eexists _, _; (split; [reflexivity|]); cbn;
    rewrite ?drop_app_length;
    try (repeat split; try reflexivity; try tauto; try discriminate;
         try (intros [H|H]; discriminate H); lia).
  destruct (String.eqb m EmptyString) eqn:Hm; cbn.
  - apply String.eqb_eq in Hm as ->.
    repeat split; try reflexivity; try tauto; try discriminate.
  - apply String.eqb_neq in Hm.
    repeat split; try reflexivity; try tauto; try discriminate; try lia.
    intros [H|H]; [discriminate H | congruence].
Qed.


(** ** Batches and groups *)

Lemma judge_calls_length (sourceRepos : gmap string TrendingRepo) batch :
  length (Spec.judge_calls sourceRepos batch)
  = length (List.filter
              (fun idea =>
                 bool_decide (is_Some (IdeaJudge.source_of sourceRepos idea)))
              batch).
Proof.
  induction batch as [|idea rest IH]; [reflexivity|].
  rewrite judge_calls_cons. cbn [List.filter].
  destruct (IdeaJudge.source_of sourceRepos idea) as [repo|] eqn:Hrepo.
  - rewrite bool_decide_true by eauto. cbn. now rewrite IH.
  - rewrite bool_decide_false by (intros [? ?]; discriminate). exact IH.
Qed.

(** X3.  [filterIdeas] returns exactly when every idea of the batch can
    be presented.  It then keeps the order of the batch in both lists it
    returns; every rejection carries a verdict that is not approved, so
    one whose adjusted score is below 50 or that has fewer than two strong
    axes; the agent is called once per idea with a known source repo, and
    the orchestrator's state is not touched. *)
Theorem filterIdeas_keeps_batch_order
    (E : Env) (batch : list JSON)
    (sourceRepos : gmap string TrendingRepo) (w : World) :
  (Forall (presentable E sourceRepos) batch
   <-> exists approvedIdeas rejected w',
         IdeaJudge.filterIdeas E batch sourceRepos w
         = (Ok (approvedIdeas, rejected), w'))
  /\ forall approvedIdeas rejected w',
       IdeaJudge.filterIdeas E batch sourceRepos w
       = (Ok (approvedIdeas, rejected), w') ->
       sublist approvedIdeas batch
       /\ sublist (map rej_idea rejected) batch
       /\ Forall
            (fun x =>
               approved (rej_verdict x) = false
               /\ ~ ((50 <= Spec.adjustedScore (rej_verdict x))%Q
                     /\ 2 <= Spec.strongAxes (axes (rej_verdict x))))
            rejected
       /\ length (new_calls w w')
          = length (List.filter
                      (fun idea =>
                         bool_decide
                           (is_Some (IdeaJudge.source_of sourceRepos idea)))
                      batch)
       /\ st w' = st w.
Proof.
  destruct (filterIdeas_spec E batch sourceRepos w)
    as [(Hall & a & r & w1 & Hf & Hc & _ & Ha & Hr & _ & Hrej)
       |(pre & idea & post & e & w1 & -> & _ & Hbad & Hf & _)].
  - split; [split; [eauto | intros _; exact Hall]|].
    intros a' r' w' Hf'. rewrite Hf in Hf'. injection Hf' as <- <- <-.
    split; [exact Ha|]. split; [exact Hr|]. split.
    { apply Forall_forall. intros x Hx. apply list_elem_of_In in Hx.
      destruct (Hrej x Hx) as (_ & _ & _ & Hv & [Hiff _]).
      split; [exact Hv|]. intros H. apply Hiff in H. congruence. }
    split; [|apply Hc].
    rewrite (new_calls_made _ _ _ Hc). apply judge_calls_length.
  - split.
    + split.
      * intros Hall. destruct (presentable_not_Throw E sourceRepos _ _ _ _ Hall Hbad).
      * intros (a & r & w' & Hf'). rewrite Hf in Hf'. discriminate Hf'.
    + intros a r w' Hf'. rewrite Hf in Hf'. discriminate Hf'.
Qed.

(** The entries with a string key are those whose idea names that repo. *)
Lemma with_key_string (s : string) (l : list Rejection) :
  forall i,
    with_key (Orchestrator.KStr s) (keyed_from i l)
    = List.filter
        (fun r => match property (rej_idea r) "originalRepo" with
                  | Some (JStr s') => String.eqb s' s
                  | _ => false
                  end) l.
Proof.
  induction l as [|x l IH]; intros i; [reflexivity|].
  rewrite keyed_from_cons. unfold with_key in *. cbn [List.filter fst].
  rewrite <- (IH (S i)).
  destruct (property (rej_idea x) "originalRepo") as [[| | |s'| |]|];
    cbn [Orchestrator.key_at];
    try (rewrite bool_decide_false by discriminate; reflexivity).
  destruct (String.eqb s' s) eqn:Hs.
  - apply String.eqb_eq in Hs as ->. now rewrite bool_decide_true.
  - apply String.eqb_neq in Hs.
    rewrite bool_decide_false; [reflexivity | congruence].
Qed.

(** X4.  [regenerateFromFeedback] groups the rejections by the source
    repo their idea names; reading it throws only when an idea is
    [null].  No key occurs twice, the group of a key holds exactly the
    rejections with that key, in their order, and is never empty; every
    rejection is in a group; and the keys come in order of first
    appearance, so a longer list of rejections only adds keys at the
    end. *)
Theorem group_by_repo_partitions_the_rejections (rejected : list Rejection) :
  match Orchestrator.group_by_repo rejected with
  | Throw e => ~ no_null_idea rejected
  | Ok groups =>
      no_null_idea rejected
      /\ NoDup (map fst groups)
      /\ (forall k entries, In (k, entries) groups ->
            entries <> [] /\ entries = with_key k (keyed rejected))
      /\ (forall s entries, In (Orchestrator.KStr s, entries) groups ->
            entries
            = List.filter
                (fun r => match property (rej_idea r) "originalRepo" with
                          | Some (JStr s') => String.eqb s' s
                          | _ => false
                          end) rejected)
      /\ (forall i r, rejected !! i = Some r ->
            exists entries,
              In (Orchestrator.key_at i (property (rej_idea r) "originalRepo"),
                  entries) groups
              /\ In r entries)
      /\ (forall more groups',
            Orchestrator.group_by_repo (rejected ++ more) = Ok groups' ->
            map fst groups `prefix_of` map fst groups')
      /\ length groups <= length rejected
  end.
Proof.
  destruct (group_loop_spec rejected 0 []) as [[Hnn Hg]|[Hnull [e Hg]]];
    unfold Orchestrator.group_by_repo; rewrite Hg; [|exact Hnull].
  fold (keyed rejected).
  destruct (grouped_invariant (keyed rejected)) as (H1 & H2 & _).
  split; [exact Hnn|]. split; [exact H1|]. split; [exact H2|].
  split.
  { intros s entries Hin. destruct (H2 _ _ Hin) as [_ ->].
    apply with_key_string. }
  split; [intros i r Hi; exact (grouped_member rejected i r Hi)|].
  split.
  - intros more groups' Hg'. apply group_by_repo_Ok in Hg' as [_ ->].
    unfold keyed. rewrite keyed_from_app. apply grouped_keys_prefix.
  - rewrite <- (keyed_from_length 0 rejected). apply grouped_length.
Qed.

Lemma filter_none {A} (f : A -> bool) (l : list A) :
  (forall x, In x l -> f x = false) -> List.filter f l = [].
Proof.
  induction l as [|x l IH]; intros H; [reflexivity|]. cbn.
  rewrite (H x) by now left. apply IH. intros y Hy. apply H. now right.
Qed.

Lemma build_repoMap_snoc (ts : list TrendingRepo) (t : TrendingRepo) :
  Orchestrator.build_repoMap (ts ++ [t])
  = <[repo_key t := t]> (Orchestrator.build_repoMap ts).
Proof. unfold Orchestrator.build_repoMap. now rewrite fold_left_app. Qed.

Lemma build_repoMap_last (ts : list TrendingRepo) (k : string) :
  Orchestrator.build_repoMap ts !! k
  = last (List.filter (fun t => String.eqb (repo_key t) k) ts).
Proof.
  induction ts as [|t ts IH] using rev_ind; [reflexivity|].
  rewrite build_repoMap_snoc, List.filter_app. cbn.
  destruct (String.eqb (repo_key t) k) eqn:Hk.
  - apply String.eqb_eq in Hk as <-.
    now rewrite lookup_insert_eq, last_snoc.
  - apply String.eqb_neq in Hk.
    rewrite lookup_insert_ne by exact Hk. now rewrite app_nil_r.
Qed.

(** X5.  The lookup map of the judging phase sends a key [owner/name] to
    the last trend with that owner and name.  So every trend's key is
    found, and what is found is a trend of the list with that key. *)
Theorem build_repoMap_finds_every_trend (ts : list TrendingRepo) :
  (forall k,
      Orchestrator.build_repoMap ts !! k
      = last (List.filter
                (fun t => String.eqb (repo_owner t +:+ "/" +:+ repo_name t) k) ts))
  /\ (forall t, In t ts ->
        exists t', Orchestrator.build_repoMap ts
                     !! (repo_owner t +:+ "/" +:+ repo_name t) = Some t')
  /\ (forall k t, Orchestrator.build_repoMap ts !! k = Some t ->
        In t ts /\ repo_owner t +:+ "/" +:+ repo_name t = k).
Proof.
  split; [intros k; apply build_repoMap_last|]. split.
  - intros t Hin. rewrite build_repoMap_last.
    assert (Hf : In t (List.filter (fun t0 => String.eqb (repo_key t0) (repo_key t)) ts)).
    { apply List.filter_In. split; [exact Hin | apply String.eqb_refl]. }
    fold (repo_key t).
    destruct (List.filter _ ts) as [|x l] eqn:Hl using rev_ind; [destruct Hf|].
    rewrite last_snoc. eauto.
  - intros k t. rewrite build_repoMap_last. intros Hlast.
    apply last_Some in Hlast as (l' & Hl').
    assert (Hf : In t (List.filter (fun t0 => String.eqb (repo_key t0) k) ts)).
    { rewrite Hl'. apply in_or_app. right. now left. }
    apply List.filter_In in Hf as [Hin Hk]. apply String.eqb_eq in Hk.
    split; assumption.
Qed.


(** ** Regeneration from feedback *)

(** One regeneration attempt: one agent call, then at most one idea more. *)
Lemma regenerate_one_spec (E : Env) repo repoKey entries improved w :
  exists res w',
    Orchestrator.regenerate_one E repo repoKey entries improved w = (res, w')
    /\ calls_made [CallPi (regenerate_task repo repoKey entries)] w w'
    /\ (res = Ok improved \/ (exists x, res = Ok (improved ++ [x]))
        \/ exists e, res = Throw e).
Proof.
  unfold Orchestrator.regenerate_one.
  fold (regenerate_task repo repoKey entries).
  destruct (execute_spec E (regenerate_task repo repoKey entries) w)
    as (r & w1 & Hex & Hc & _).
  rewrite (bind_Ok _ _ _ _ _ Hex).
  destruct (IdeaJudge.call_failed r); [cbn; eauto 10|].
  destruct (match_braces _) as [m|]; [|cbn; eauto 10].
  unfold bind, lift, ret.
  destruct (JSON_parse E m) as [parsed|e]; [|eauto 10].
  destruct (get_prop parsed "name") as [n|e]; [|eauto 10].
  destruct (truthy n); [|eauto 10].
  destruct (get_prop parsed "description") as [d|e]; [|eauto 10].
  destruct (truthy d); [|eauto 10].
  destruct (get_prop parsed "coreFeatures") as [f|e]; [|eauto 10].
  destruct (truthy f); [|eauto 10].
  destruct (JS.interpolate E n); cbn [log].
  - eauto 10.
  - eexists _, _. split; [reflexivity|]. split; [exact Hc|]. eauto.
Qed.

Lemma regenerate_calls_cons (repoMap : gmap string TrendingRepo) k es rest :
  regenerate_calls repoMap ((k, es) :: rest)
  = match Orchestrator.repo_of repoMap k with
    | Some (repoKey, repo) =>
        CallPi (regenerate_task repo repoKey es) :: regenerate_calls repoMap rest
    | None => regenerate_calls repoMap rest
    end.
Proof.
  unfold regenerate_calls. cbn.
  now destruct (Orchestrator.repo_of repoMap k) as [[]|].
Qed.

Lemma regenerate_calls_app (repoMap : gmap string TrendingRepo) l1 l2 :
  regenerate_calls repoMap (l1 ++ l2)
  = regenerate_calls repoMap l1 ++ regenerate_calls repoMap l2.
Proof. unfold regenerate_calls. apply omap_app. Qed.

(** The loop over the groups, one group at a time: a group whose repo is
    not in the map is passed over; for any other the feedback is written
    first, and then the agent is asked once. *)
Lemma regenerate_loop_step (E : Env) (repoMap : gmap string TrendingRepo)
    g rest improved w :
  (is_Some (Orchestrator.repo_of repoMap (fst g)) ->
   is_Ok (Orchestrator.feedbackBlock E (snd g)) = true) ->
  exists extra w1,
    Orchestrator.regenerate_loop E (g :: rest) repoMap improved w
    = Orchestrator.regenerate_loop E rest repoMap (improved ++ extra) w1
    /\ st w1 = st w
    /\ trace w1 = trace w ++ regenerate_calls repoMap [g]
    /\ length extra <= length (regenerate_calls repoMap [g]).
Proof.
  destruct g as [key entries]. cbn [fst snd]. intros Hw.
  rewrite regenerate_calls_cons. cbn [Orchestrator.regenerate_loop].
  destruct (Orchestrator.repo_of repoMap key) as [[repoKey repo]|].
  - destruct (Orchestrator.feedbackBlock E entries) as [feedback|e];
      [|now specialize (Hw (ltac:(eauto)))].
    rewrite bind_lift_Ok.
    destruct (regenerate_one_spec E repo repoKey entries improved w)
      as (res & w1 & Hone & (Hs1 & Ht1 & _) & Hres).
    unfold bind at 1, try_catch. rewrite Hone.
    destruct Hres as [->|[[x ->]|[e ->]]].
    + exists [], w1. rewrite app_nil_r. repeat split; [assumption..|cbn; lia].
    + exists [x], w1. repeat split; [assumption..|cbn; lia].
    + eexists [], _. rewrite app_nil_r. cbn [log bind ret].
      split; [reflexivity|]. repeat split; [assumption..|cbn; lia].
  - exists [], w. rewrite !app_nil_r. repeat split. cbn. lia.
Qed.

Lemma regenerate_loop_calls (E : Env) (repoMap : gmap string TrendingRepo) :
  forall groups rest improved w,
    Forall (fun g => is_Some (Orchestrator.repo_of repoMap (fst g)) ->
                     is_Ok (Orchestrator.feedbackBlock E (snd g)) = true) groups ->
    exists more w1,
      Orchestrator.regenerate_loop E (groups ++ rest) repoMap improved w
      = Orchestrator.regenerate_loop E rest repoMap (improved ++ more) w1
      /\ st w1 = st w
      /\ trace w1 = trace w ++ regenerate_calls repoMap groups
      /\ length more <= length (regenerate_calls repoMap groups).
Proof.
  induction groups as [|g groups IH]; intros rest improved w Hall.
  - exists [], w. cbn. rewrite !app_nil_r. repeat split; reflexivity.
  - apply Forall_cons in Hall as [Hg Hall].
    destruct (regenerate_loop_step E repoMap g (groups ++ rest) improved w Hg)
      as (extra & w1 & Hstep & Hs1 & Ht1 & Hl1).
    destruct (IH rest (improved ++ extra) w1 Hall)
      as (more & w2 & Hloop & Hs2 & Ht2 & Hl2).
    exists (extra ++ more), w2. rewrite <- app_comm_cons, Hstep, Hloop, app_assoc.
    split; [reflexivity|]. split; [congruence|].
    change (g :: groups) with ([g] ++ groups).
    rewrite regenerate_calls_app, !length_app, Ht2, Ht1, <- app_assoc.
    split; [reflexivity | lia].
Qed.

Lemma regenerate_calls_length repoMap groups :
  length (regenerate_calls repoMap groups) <= length groups.
Proof.
  induction groups as [|[k es] rest IH]; [reflexivity|].
  rewrite regenerate_calls_cons.
  destruct (Orchestrator.repo_of repoMap k) as [[]|]; cbn; lia.
Qed.

(** X6.  [regenerateFromFeedback] does not touch the orchestrator's
    state.  It groups the rejections, which throws only for an idea that
    is [null], and goes through the groups in order: a group whose repo
    is not in the map is passed over; for any other it writes the
    feedback block, which throws when a name, a strategy, a reasoning or
    a suggestion cannot be written, and then asks the agent once, with
    the repo, the key and the group's rejections in the prompt.  When
    every feedback block can be written it returns, having asked once
    per group with a known repo, with at most one idea per call: never
    more ideas than there were rejections.  Otherwise it throws what the
    first block that cannot be written throws, having asked for the
    groups before it. *)
Theorem regenerate_asks_once_per_known_repo
    (E : Env) (rejected : list Rejection)
    (repoMap : gmap string TrendingRepo) (w : World) :
  let res := Orchestrator.regenerateFromFeedback E rejected repoMap w in
  let known g := is_Some (Orchestrator.repo_of repoMap (fst g)) in
  let writable g :=
    known g -> is_Ok (Orchestrator.feedbackBlock E (snd g)) = true in
  st (snd res) = st w
  /\ match Orchestrator.group_by_repo rejected with
     | Throw e => res = (Throw e, w)
     | Ok groups =>
         (Forall writable groups ->
          exists improved,
            fst res = Ok improved
            /\ new_calls w (snd res) = regenerate_calls repoMap groups
            /\ length improved <= length (new_calls w (snd res))
            /\ length (new_calls w (snd res)) <= length rejected)
         /\ (forall pre g post e,
               groups = pre ++ g :: post ->
               Forall writable pre ->
               known g ->
               Orchestrator.feedbackBlock E (snd g) = Throw e ->
               fst res = Throw e
               /\ new_calls w (snd res) = regenerate_calls repoMap pre)
     end.
Proof.
  intros res known writable.
  split; [apply (regenerate_quiet E rejected repoMap w)|].
  subst res. unfold Orchestrator.regenerateFromFeedback.
  destruct (Orchestrator.group_by_repo rejected) as [groups|e] eqn:Hg;
    [|apply bind_lift_Throw].
  rewrite bind_lift_Ok. split.
  - intros Hall.
    destruct (regenerate_loop_calls E repoMap groups [] [] w Hall)
      as (more & w1 & Hloop & _ & Ht & Hl).
    rewrite app_nil_r in Hloop. rewrite Hloop. cbn.
    assert (Hn : new_calls w w1 = regenerate_calls repoMap groups).
    { unfold new_calls. rewrite Ht. apply drop_app_length. }
    exists more. rewrite Hn. split; [reflexivity|]. split; [reflexivity|].
    split; [exact Hl|].
    etrans; [apply regenerate_calls_length|].
    apply group_by_repo_Ok in Hg as [_ ->].
    rewrite <- (keyed_from_length 0 rejected). apply grouped_length.
  - intros pre [key entries] post e' -> Hpre Hk Hbad.
    destruct (regenerate_loop_calls E repoMap pre ((key, entries) :: post) [] w Hpre)
      as (more & w1 & Hloop & _ & Ht & _).
    rewrite Hloop. cbn [Orchestrator.regenerate_loop].
    unfold known in Hk. cbn [fst snd] in Hk, Hbad.
    destruct (Orchestrator.repo_of repoMap key) as [[repoKey repo]|];
      [|destruct Hk; discriminate].
    rewrite Hbad, bind_lift_Throw. cbn [fst snd].
    split; [reflexivity|]. unfold new_calls. rewrite Ht. apply drop_app_length.
Qed.

(** ** What the phases keep *)

#[export] Instance same_on_progress {X} (proj : OrchestratorState -> X) :
  Progress (same_on proj).
Proof.
  split; unfold same_on.
  - intros w1 w2 w3 H1 H2. congruence.
  - intros w w' Hs _. now rewrite Hs.
Qed.

Lemma kept_refl s : kept s s.
Proof. unfold kept. repeat split; auto. Qed.

Lemma kept_trans s1 s2 s3 : kept s1 s2 -> kept s2 s3 -> kept s1 s3.
Proof.
  unfold kept.
  intros (A1 & A2 & A3 & A4 & A5 & A6 & A7 & A8 & A9 & A10)
         (B1 & B2 & B3 & B4 & B5 & B6 & B7 & B8 & B9 & B10).
  repeat split; try congruence; auto.
  etrans; eassumption.
Qed.

#[export] Instance grows_progress : Progress grows.
Proof.
  split; unfold grows.
  - intros w1 w2 w3. apply kept_trans.
  - intros w w' Hs _. rewrite Hs. apply kept_refl.
Qed.

(** The phases, for any relation that allows the calls [okc] and the
    assignments a phase makes. *)
Section Keeps.
Context (R : World -> World -> Prop) `{!Progress R}.
Variable okc : Call -> Prop.
Hypothesis R_call : forall c, okc c -> preserves R (record_call c).
Hypothesis okc_pi : forall t, okc (CallPi t).
Hypothesis R_phase :
  forall p, preserves R (modify_state (Orchestrator.set_currentPhase p)).
Variable E : Env.

Lemma keeps_judge_rounds repos round left :
  (forall x, okc (CallFilterIdeas x)) ->
  (forall v, preserves R (modify_state (Orchestrator.set_ideas v))) ->
  preserves R (Orchestrator.judge_rounds E repos round left).
Proof.
  intros Hfilter Hset. revert round. induction left as [|left IH]; intros round;
    cbn [Orchestrator.judge_rounds].
  - preserves_step.
  - preserves_step.
    + unfold Orchestrator.judge_round. preserves_step; [preserves_step|].
      apply (preserves_budgeted_local R okc R_call); [apply Hfilter|].
      preserves_step; [|preserves_step].
      apply (preserves_filterIdeas R okc R_call okc_pi).
    + destruct a as [approvedIdeas rejected].
      preserves_step; [apply (preserves_log_rejections R)|].
      preserves_step; [apply Hset|].
      preserves_step; [|apply IH].
      preserves_step; [|preserves_step].
      preserves_step;
        [apply (preserves_regenerateFromFeedback R okc R_call okc_pi)|].
      preserves_step; [apply Hset | preserves_step].
Qed.

Lemma keeps_research_loop candidates :
  (forall i, okc (CallResearch i)) ->
  (forall i r, preserves R (modify_state (Orchestrator.set_selected i r))) ->
  preserves R (Orchestrator.research_loop E candidates).
Proof.
  intros Hresearch Hset.
  induction candidates as [|idea rest IH]; cbn [Orchestrator.research_loop].
  - preserves_step.
  - preserves_step; [|preserves_step; [preserves_step | apply IH]].
    preserves_step; [|repeat preserves_step].
    preserves_step; [preserves_step|].
    preserves_step; [apply (preserves_budgeted R _ R_call); auto|].
    preserves_step; [|preserves_step|preserves_step].
    preserves_step; [apply Hset | preserves_step].
Qed.

Lemma keeps_saveState : preserves R (Orchestrator.saveState E).
Proof. unfold Orchestrator.saveState. repeat preserves_step. Qed.

Lemma keeps_phase1 :
  (forall o, okc (CallScoutTrends o)) ->
  (forall v, preserves R (modify_state (Orchestrator.set_trends v))) ->
  preserves R (Orchestrator.phase1_ScoutTrends E).
Proof.
  intros Hc Hset. unfold Orchestrator.phase1_ScoutTrends.
  preserves_step; [apply R_phase|].
  preserves_step; [apply (preserves_budgeted R _ R_call); auto|].
  preserves_step; [preserves_step | apply Hset].
Qed.

Lemma keeps_phase2 :
  (forall ts, okc (CallGenerateOriginalIdeas ts)) ->
  (forall v, preserves R (modify_state (Orchestrator.set_ideas v))) ->
  preserves R (Orchestrator.phase2_GenerateIdeas E).
Proof.
  intros Hc Hset. unfold Orchestrator.phase2_GenerateIdeas.
  preserves_step; [apply R_phase|].
  preserves_step; [preserves_step|].
  preserves_step; [apply (preserves_budgeted R _ R_call); auto|].
  preserves_step; [preserves_step | apply Hset].
Qed.

Lemma keeps_phase2b :
  (forall x, okc (CallFilterIdeas x)) ->
  (forall v, preserves R (modify_state (Orchestrator.set_ideas v))) ->
  preserves R (Orchestrator.phase2b_JudgeIdeas E).
Proof.
  intros Hc Hset. unfold Orchestrator.phase2b_JudgeIdeas.
  preserves_step; [apply R_phase|].
  preserves_step; [preserves_step|].
  now apply keeps_judge_rounds.
Qed.

Lemma keeps_phase3 :
  (forall i, okc (CallResearch i)) ->
  (forall i r, preserves R (modify_state (Orchestrator.set_selected i r))) ->
  preserves R (Orchestrator.phase3_ResearchIdeas E).
Proof.
  intros Hc Hset. unfold Orchestrator.phase3_ResearchIdeas.
  preserves_step; [apply R_phase|].
  preserves_step; [preserves_step|].
  preserves_step; [now apply keeps_research_loop | preserves_step].
Qed.

Lemma keeps_phase4 :
  (forall i r, okc (CallImplement i r)) ->
  (forall v, preserves R (modify_state (Orchestrator.set_implementation v))) ->
  preserves R (Orchestrator.phase4_Implement E).
Proof.
  intros Hc Hset. unfold Orchestrator.phase4_Implement.
  preserves_step; [apply R_phase|].
  preserves_step; [preserves_step|].
  preserves_step; [apply (preserves_budgeted R _ R_call); auto|].
  preserves_step; first [apply Hset | preserves_step].
Qed.

Lemma keeps_phase5 :
  (forall i d, okc (CallDeploy i d)) ->
  (forall v, preserves R (modify_state (Orchestrator.set_deployment v))) ->
  preserves R (Orchestrator.phase5_Deploy E).
Proof.
  intros Hc Hset. unfold Orchestrator.phase5_Deploy.
  preserves_step; [apply R_phase|].
  preserves_step; [preserves_step|].
  preserves_step; [apply (preserves_budgeted R _ R_call); auto|].
  preserves_step; [apply Hset | preserves_step].
Qed.

Lemma keeps_phase6 :
  (forall d i m, okc (CallAnnounce d i m)) ->
  (forall v, preserves R (modify_state (Orchestrator.set_announcement v))) ->
  preserves R (Orchestrator.phase6_Announce E).
Proof.
  intros Hc Hset. unfold Orchestrator.phase6_Announce.
  preserves_step; [apply R_phase|].
  preserves_step; [preserves_step|].
  preserves_step; [apply (preserves_budgeted R _ R_call); auto|].
  preserves_step; [apply Hset|].
  preserves_step; preserves_step.
Qed.

Lemma keeps_core_phases :
  (forall o, okc (CallScoutTrends o)) ->
  (forall ts, okc (CallGenerateOriginalIdeas ts)) ->
  (forall x, okc (CallFilterIdeas x)) ->
  (forall i, okc (CallResearch i)) ->
  (forall i r, okc (CallImplement i r)) ->
  (forall v, preserves R (modify_state (Orchestrator.set_trends v))) ->
  (forall v, preserves R (modify_state (Orchestrator.set_ideas v))) ->
  (forall i r, preserves R (modify_state (Orchestrator.set_selected i r))) ->
  (forall v, preserves R (modify_state (Orchestrator.set_implementation v))) ->
  preserves R (Orchestrator.core_phases E).
Proof.
  intros. unfold Orchestrator.core_phases.
  repeat first
    [ apply keeps_saveState
    | apply keeps_phase1; assumption
    | apply keeps_phase2; assumption
    | apply keeps_phase2b; assumption
    | apply keeps_phase3; assumption
    | apply keeps_phase4; assumption
    | preserves_step ].
Qed.

Lemma keeps_pipeline config :
  (forall c, okc c) ->
  (forall v, preserves R (modify_state (Orchestrator.set_trends v))) ->
  (forall v, preserves R (modify_state (Orchestrator.set_ideas v))) ->
  (forall i r, preserves R (modify_state (Orchestrator.set_selected i r))) ->
  (forall v, preserves R (modify_state (Orchestrator.set_implementation v))) ->
  (forall v, preserves R (modify_state (Orchestrator.set_deployment v))) ->
  (forall v, preserves R (modify_state (Orchestrator.set_announcement v))) ->
  preserves R (Orchestrator.pipeline E config).
Proof.
  intros. unfold Orchestrator.pipeline, Orchestrator.deploy_step,
    Orchestrator.announce_step.
  preserves_step; [apply keeps_core_phases; auto|].
  preserves_step; [preserves_step|].
  preserves_step.
  - preserves_step; [preserves_step|].
    preserves_step; [apply keeps_phase5; auto | apply keeps_saveState].
  - preserves_step; [preserves_step|].
    preserves_step; [apply keeps_phase6; auto | apply keeps_saveState].
Qed.
End Keeps.


(** ** The phases, one settled call at a time *)

Lemma phase1_eq (E : Env) (w : World) :
  Orchestrator.phase1_ScoutTrends E w
  = let w1 :=
      snd (record_call (CallScoutTrends scout_options)
             (set_st (Orchestrator.set_currentPhase "scout-trends" (st w)) w)) in
    match trendScout_scoutTrends E (length (trace w)) scout_options with
    | SettlesInTime (Resolves found) =>
        if (length found =? 0)%nat then
          (Throw (Error "No suitable trends found"), w1)
        else (Ok tt, set_st (Orchestrator.set_trends found (st w1)) w1)
    | SettlesInTime (Rejects e) => (Throw e, w1)
    | Overruns t _ =>
        (Throw (TimeBudget.timeout_error E "scout-trends" timeBudgets.trendScout
                  (Date_now E (length (trace w))) t), w1)
    end.
Proof.
  unfold Orchestrator.phase1_ScoutTrends, bind, modify_state.
  fold scout_options. rewrite budgeted_eq. cbn.
  destruct (trendScout_scoutTrends E (length (trace w)) scout_options)
    as [[found|e]|t l]; try reflexivity.
  now destruct found.
Qed.

Lemma phase2_eq (E : Env) (w : World) :
  Orchestrator.phase2_GenerateIdeas E w
  = let w1 :=
      snd (record_call (CallGenerateOriginalIdeas (trends (st w)))
             (set_st (Orchestrator.set_currentPhase "generate-ideas" (st w)) w)) in
    match ideaGenerator_generateOriginalIdeas E (length (trace w)) (trends (st w)) with
    | SettlesInTime (Resolves allIdeas) =>
        if (length allIdeas =? 0)%nat then
          (Throw (Error "No viable ideas generated"), w1)
        else (Ok tt, set_st (Orchestrator.set_ideas allIdeas (st w1)) w1)
    | SettlesInTime (Rejects e) => (Throw e, w1)
    | Overruns t _ =>
        (Throw (TimeBudget.timeout_error E "generate-ideas"
                  timeBudgets.ideaGenerator (Date_now E (length (trace w))) t), w1)
    end.
Proof.
  unfold Orchestrator.phase2_GenerateIdeas, bind, modify_state, get_state.
  rewrite budgeted_eq. cbn.
  destruct (ideaGenerator_generateOriginalIdeas E (length (trace w)) (trends (st w)))
    as [[found|e]|t l]; try reflexivity.
  now destruct found.
Qed.

Lemma phase4_eq (E : Env) (w : World) :
  Orchestrator.phase4_Implement E w
  = let w1 :=
      snd (record_call (CallImplement (selectedIdea (st w)) (research (st w)))
             (set_st (Orchestrator.set_currentPhase "implement" (st w)) w)) in
    match implementer_implement E (length (trace w)) (selectedIdea (st w))
            (research (st w)) with
    | SettlesInTime (Resolves result) =>
        match status result with
        | failed => (Throw (Error "Implementation failed"), w1)
        | _ => (Ok tt, set_st (Orchestrator.set_implementation result (st w1)) w1)
        end
    | SettlesInTime (Rejects e) => (Throw e, w1)
    | Overruns t _ =>
        (Throw (TimeBudget.timeout_error E "implement" timeBudgets.implementer
                  (Date_now E (length (trace w))) t), w1)
    end.
Proof.
  unfold Orchestrator.phase4_Implement, bind, modify_state, get_state.
  rewrite budgeted_eq. cbn.
  destruct (implementer_implement E (length (trace w)) (selectedIdea (st w))
              (research (st w))) as [[result|e]|t l]; try reflexivity.
  now destruct (status result).
Qed.

Lemma phase5_eq (E : Env) (w : World) :
  Orchestrator.phase5_Deploy E w
  = let w1 :=
      snd (record_call (CallDeploy (implementation (st w)) (selectedIdea (st w)))
             (set_st (Orchestrator.set_currentPhase "deploy" (st w)) w)) in
    match deployer_deploy E (length (trace w)) (implementation (st w))
            (selectedIdea (st w)) with
    | SettlesInTime (Resolves result) =>
        if deploy_success result then
          (Ok tt, set_st (Orchestrator.set_deployment result (st w1)) w1)
        else
          (Throw (Error ("Deployment failed: "
                         +:+ String.concat ", " (deploy_errors result))), w1)
    | SettlesInTime (Rejects e) => (Throw e, w1)
    | Overruns t _ =>
        (Throw (TimeBudget.timeout_error E "deploy" timeBudgets.deployer
                  (Date_now E (length (trace w))) t), w1)
    end.
Proof.
  unfold Orchestrator.phase5_Deploy, bind, modify_state, get_state.
  rewrite budgeted_eq. cbn.
  destruct (deployer_deploy E (length (trace w)) (implementation (st w))
              (selectedIdea (st w))) as [[result|e]|t l]; try reflexivity.
  now destruct (deploy_success result).
Qed.

Lemma phase6_Ok (E : Env) (w w' : World) :
  Orchestrator.phase6_Announce E w = (Ok tt, w') ->
  exists tweet,
    st w' = Orchestrator.set_announcement tweet
              (Orchestrator.set_currentPhase "announce" (st w))
    /\ trace w'
       = trace w ++ [CallAnnounce (deployment (st w)) (selectedIdea (st w))
                       (implementation (st w))].
Proof.
  unfold Orchestrator.phase6_Announce, bind, modify_state, get_state.
  rewrite budgeted_eq. cbn.
  destruct (announcer_announce E (length (trace w)) (deployment (st w))
              (selectedIdea (st w)) (implementation (st w)))
    as [[tweet|e]|t l]; try discriminate.
  destruct (tweet_success tweet); cbn; intros [= <-]; exists tweet; now split.
Qed.

(** What a returned phase leaves in the state. *)
Lemma phase1_Ok (E : Env) (w w' : World) :
  Orchestrator.phase1_ScoutTrends E w = (Ok tt, w') ->
  exists found,
    found <> []
    /\ st w' = Orchestrator.set_trends found
                 (Orchestrator.set_currentPhase "scout-trends" (st w))
    /\ trace w' = trace w ++ [CallScoutTrends scout_options].
Proof.
  rewrite phase1_eq. cbv zeta.
  destruct (trendScout_scoutTrends E (length (trace w)) scout_options)
    as [[found|e]|t l]; try discriminate.
  destruct found as [|x found]; [discriminate|]. cbn. intros [= <-].
  exists (x :: found). repeat split. discriminate.
Qed.

Lemma phase2_Ok (E : Env) (w w' : World) :
  Orchestrator.phase2_GenerateIdeas E w = (Ok tt, w') ->
  exists allIdeas,
    allIdeas <> []
    /\ st w' = Orchestrator.set_ideas allIdeas
                 (Orchestrator.set_currentPhase "generate-ideas" (st w))
    /\ trace w' = trace w ++ [CallGenerateOriginalIdeas (trends (st w))].
Proof.
  rewrite phase2_eq. cbv zeta.
  destruct (ideaGenerator_generateOriginalIdeas E (length (trace w)) (trends (st w)))
    as [[found|e]|t l]; try discriminate.
  destruct found as [|x found]; [discriminate|]. cbn. intros [= <-].
  exists (x :: found). repeat split. discriminate.
Qed.

Lemma phase4_Ok (E : Env) (w w' : World) :
  Orchestrator.phase4_Implement E w = (Ok tt, w') ->
  exists result,
    status result <> failed
    /\ st w' = Orchestrator.set_implementation result
                 (Orchestrator.set_currentPhase "implement" (st w))
    /\ trace w'
       = trace w ++ [CallImplement (selectedIdea (st w)) (research (st w))].
Proof.
  rewrite phase4_eq. cbv zeta.
  destruct (implementer_implement E (length (trace w)) (selectedIdea (st w))
              (research (st w))) as [[result|e]|t l]; try discriminate.
  destruct (status result) eqn:Hst; try discriminate; cbn; intros [= <-];
    exists result; rewrite Hst; repeat split; discriminate.
Qed.

Lemma phase5_Ok (E : Env) (w w' : World) :
  Orchestrator.phase5_Deploy E w = (Ok tt, w') ->
  exists result,
    deploy_success result = true
    /\ st w' = Orchestrator.set_deployment result
                 (Orchestrator.set_currentPhase "deploy" (st w))
    /\ trace w'
       = trace w ++ [CallDeploy (implementation (st w)) (selectedIdea (st w))].
Proof.
  rewrite phase5_eq. cbv zeta.
  destruct (deployer_deploy E (length (trace w)) (implementation (st w))
              (selectedIdea (st w))) as [[result|e]|t l]; try discriminate.
  destruct (deploy_success result) eqn:Hd; try discriminate. cbn. intros [= <-].
  exists result. repeat split. exact Hd.
Qed.

Lemma research_loop_Ok (E : Env) :
  forall candidates w w',
    Orchestrator.research_loop E candidates w = (Ok tt, w') ->
    exists idea report,
      In idea candidates
      /\ recommendation report = SHIP
      /\ st w' = Orchestrator.set_selected idea report (st w).
Proof.
  induction candidates as [|idea rest IH]; intros w w' H; [discriminate H|].
  pose proof (research_loop_cons E idea rest w) as Hc.
  destruct (JS.field E idea "name") as [name|e];
    [|rewrite Hc in H; discriminate H].
  destruct (Spec.ship_report E (length (trace w)) idea) as [report|] eqn:Hship.
  - destruct Hc as (w1 & Hl & Hs & _). rewrite Hl in H. injection H as <-.
    exists idea, report. split; [now left|]. split; [|exact Hs].
    unfold Spec.ship_report in Hship.
    destruct (researcher_research E (length (trace w)) idea) as [[r|e]|t l];
      try discriminate.
    destruct (recommendation r) eqn:Hr; try discriminate.
    now injection Hship as <-.
  - destruct Hc as (w1 & Hl & Hs & _). rewrite Hl in H.
    destruct (IH w1 w' H) as (i & r & Hin & Hr & Hst).
    exists i, r. split; [now right|]. split; [exact Hr|]. now rewrite Hst, Hs.
Qed.

Lemma phase3_Ok (E : Env) (w w' : World) :
  Orchestrator.phase3_ResearchIdeas E w = (Ok tt, w') ->
  exists candidates idea report,
    ideas (st w) = Some candidates
    /\ In idea candidates
    /\ recommendation report = SHIP
    /\ st w' = Orchestrator.set_selected idea report
                 (Orchestrator.set_currentPhase "research" (st w)).
Proof.
  unfold Orchestrator.phase3_ResearchIdeas, bind, modify_state, get_state. cbn.
  destruct (ideas (st w)) as [l|]; [|discriminate].
  intros H. apply research_loop_Ok in H as (idea & report & Hin & Hr & Hst).
  exists l, idea, report. repeat split; assumption.
Qed.

Lemma saveState_inv (E : Env) (w w' : World) r :
  Orchestrator.saveState E w = (r, w') ->
  r = Ok tt /\ st w' = st w /\ trace w' = trace w.
Proof.
  destruct (saveState_Ok E w) as (w1 & H & Hs & Ht). rewrite H.
  intros [= <- <-]. repeat split; assumption.
Qed.

(** The result of a run whose [try] block threw an [Error]. *)
Lemma run_failure (E : Env) (config : Config) (w : World) m (w1 : World) :
  Orchestrator.pipeline E config w = (Throw (Error m), w1) ->
  let r := fst (Orchestrator.run E config w) in
  let wf := snd (Orchestrator.run E config w) in
  success r = false
  /\ result_error r = Some m
  /\ result_state r
     = Orchestrator.push_error
         {| err_phase := currentPhase (st w1); err_error := m;
            err_timestamp := Date_now E (length (trace w1)) |} (st w1)
  /\ trace wf = trace w1.
Proof.
  intros Hp r wf.
  destruct (run_after_throw E config w (Error m) w1 Hp) as (H1 & H2 & H3 & H4 & _).
  repeat split; assumption.
Qed.


(** ** Empty results and failed implementations *)

(** X7.  When the scout resolves with no trend, the run fails in its
    first phase with the message "No suitable trends found": the scout
    is the only oracle called, and no trend list is stored. *)
Theorem no_trends_fails_the_run (E : Env) (config : Config) (w : World) :
  trendScout_scoutTrends E (length (trace w)) scout_options
  = SettlesInTime (Resolves []) ->
  let r := fst (Orchestrator.run E config w) in
  let wf := snd (Orchestrator.run E config w) in
  success r = false
  /\ result_error r = Some "No suitable trends found"
  /\ currentPhase (result_state r) = "scout-trends"
  /\ trends (result_state r) = trends (st w)
  /\ new_calls w wf = [CallScoutTrends scout_options].
Proof.
  intros Hscout r wf.
  pose proof (phase1_eq E w) as H1. rewrite Hscout in H1. cbn in H1.
  assert (Hp : Orchestrator.pipeline E config w
               = (Throw (Error "No suitable trends found"),
                  snd (record_call (CallScoutTrends scout_options)
                         (set_st (Orchestrator.set_currentPhase "scout-trends" (st w))
                            w)))).
  { unfold Orchestrator.pipeline, Orchestrator.core_phases.
    apply bind_Throw. apply bind_Throw. exact H1. }
  destruct (run_failure E config w _ _ Hp) as (Hs & He & Hst & Ht).
  fold r wf in Hs, He, Hst, Ht.
  split; [exact Hs|]. split; [exact He|]. rewrite Hst.
  split; [reflexivity|]. split; [reflexivity|].
  unfold new_calls. rewrite Ht. cbn. apply drop_app_length.
Qed.

(** X8.  The generator is always handed a non-empty list of trends.
    When it resolves with no idea, the run fails in the generation phase
    with the message "No viable ideas generated", the judge is not
    called and no idea list is stored. *)
Theorem no_ideas_fails_the_run (E : Env) (config : Config) (w0 w : World) :
  reaches_generation E w0 w ->
  (exists found, trends (st w) = Some found /\ found <> [])
  /\ (ideaGenerator_generateOriginalIdeas E (length (trace w)) (trends (st w))
      = SettlesInTime (Resolves []) ->
      let r := fst (Orchestrator.run E config w0) in
      let wf := snd (Orchestrator.run E config w0) in
      success r = false
      /\ result_error r = Some "No viable ideas generated"
      /\ currentPhase (result_state r) = "generate-ideas"
      /\ ideas (result_state r) = ideas (st w)
      /\ new_calls w wf = [CallGenerateOriginalIdeas (trends (st w))]).
Proof.
  unfold reaches_generation. intros Hreach.
  apply bind_inv_Ok in Hreach as ([] & wa & Hp1 & Hsave).
  pose proof Hsave as Hsave'.
  apply saveState_inv in Hsave' as (_ & Hs & Ht).
  destruct (phase1_Ok E w0 wa Hp1) as (found & Hne & Hst & _).
  split.
  { exists found. rewrite Hs, Hst. split; [reflexivity | exact Hne]. }
  intros Hgen.
  pose proof (phase2_eq E w) as H2. rewrite Hgen in H2. cbn in H2.
  assert (Hp : Orchestrator.pipeline E config w0
               = (Throw (Error "No viable ideas generated"),
                  snd (record_call (CallGenerateOriginalIdeas (trends (st w)))
                         (set_st (Orchestrator.set_currentPhase "generate-ideas" (st w))
                            w)))).
  { unfold Orchestrator.pipeline, Orchestrator.core_phases.
    apply bind_Throw.
    rewrite (bind_Ok _ _ _ _ _ Hp1), (bind_Ok _ _ _ _ _ Hsave).
    apply bind_Throw. exact H2. }
  pose proof (run_failure E config w0 _ _ Hp) as Hf. cbv zeta in Hf.
  destruct Hf as (Hs' & He & Hst' & Ht').
  split; [exact Hs'|]. split; [exact He|]. rewrite Hst'.
  split; [reflexivity|]. split; [reflexivity|].
  unfold new_calls. rewrite Ht'. cbn. apply drop_app_length.
Qed.

(** X9.  The implementer is always handed a selected idea and its
    research report, and that report recommends SHIP.  A result with
    status [failed] fails the run with "Implementation failed" and is not
    stored; a [partial] result is stored like a [complete] one and the
    phase returns. *)
Theorem failed_implementation_fails_the_run
    (E : Env) (config : Config) (w0 w : World) (result : ImplementationResult) :
  reaches_implement E w0 w ->
  (exists idea report,
      selectedIdea (st w) = Some idea /\ research (st w) = Some report
      /\ recommendation report = SHIP)
  /\ (implementer_implement E (length (trace w)) (selectedIdea (st w))
        (research (st w)) = SettlesInTime (Resolves result) ->
      (status result = failed ->
       let r := fst (Orchestrator.run E config w0) in
       success r = false
       /\ result_error r = Some "Implementation failed"
       /\ currentPhase (result_state r) = "implement"
       /\ implementation (result_state r) = implementation (st w))
      /\ (status result <> failed ->
          exists w',
            Orchestrator.phase4_Implement E w = (Ok tt, w')
            /\ implementation (st w') = Some result
            /\ selectedIdea (st w') = selectedIdea (st w))).
Proof.
  unfold reaches_implement, reaches_research, reaches_judging.
  intros (w2 & (w1 & Hr1 & Hr2) & Hr3).
  pose proof Hr3 as Hr3'.
  apply bind_inv_Ok in Hr3' as ([] & wa & Hp3 & Hsave).
  apply saveState_inv in Hsave as (_ & Hs & Ht).
  destruct (phase3_Ok E w2 wa Hp3) as (l & idea & report & _ & _ & Hship & Hst).
  split.
  { exists idea, report. rewrite Hs, Hst. repeat split. exact Hship. }
  intros Himpl. pose proof (phase4_eq E w) as H4. rewrite Himpl in H4.
  cbv zeta in H4.
  split.
  - intros Hfailed. cbv zeta. rewrite Hfailed in H4.
    assert (Hp : Orchestrator.pipeline E config w0
                 = (Throw (Error "Implementation failed"),
                    snd (record_call
                           (CallImplement (selectedIdea (st w)) (research (st w)))
                           (set_st (Orchestrator.set_currentPhase "implement" (st w))
                              w)))).
    { unfold Orchestrator.pipeline, Orchestrator.core_phases.
      apply bind_Throw.
      apply bind_inv_Ok in Hr1 as (? & ? & H1 & Hr1).
      apply bind_inv_Ok in Hr1 as (? & ? & H2 & Hr1).
      apply bind_inv_Ok in Hr1 as (? & ? & H3 & H4').
      apply bind_inv_Ok in Hr2 as (? & ? & H5 & H6).
      apply bind_inv_Ok in Hr3 as (? & ? & H7 & H8).
      rewrite (bind_Ok _ _ _ _ _ H1), (bind_Ok _ _ _ _ _ H2),
        (bind_Ok _ _ _ _ _ H3), (bind_Ok _ _ _ _ _ H4'),
        (bind_Ok _ _ _ _ _ H5), (bind_Ok _ _ _ _ _ H6),
        (bind_Ok _ _ _ _ _ H7), (bind_Ok _ _ _ _ _ H8).
      apply bind_Throw. exact H4. }
    pose proof (run_failure E config w0 _ _ Hp) as Hf. cbv zeta in Hf.
    destruct Hf as (Hs' & He & Hst' & _).
    split; [exact Hs'|]. split; [exact He|]. rewrite Hst'. split; reflexivity.
  - intros Hok. eexists. split.
    + rewrite H4. destruct (status result); [reflexivity..|congruence].
    + split; reflexivity.
Qed.


(** ** Whole runs *)

Lemma calls_only_call (P : Call -> Prop) c :
  P c -> preserves (calls_only P) (record_call c).
Proof.
  intros Hc w. exists [c]. split; [reflexivity|]. now constructor.
Qed.

Lemma calls_only_modify (P : Call -> Prop) f :
  preserves (calls_only P) (modify_state f).
Proof. intros w. exists []. cbn. split; [now rewrite app_nil_r | constructor]. Qed.

(** The calls of a run, when deploy and announce calls are allowed only
    where the configuration lets the phase run. *)
Lemma calls_only_pipeline (P : Call -> Prop) (E : Env) (config : Config) :
  (forall c, stage c <= 5 -> P c) ->
  (dryRun config = false -> skipGithub config = false ->
   forall i d, P (CallDeploy i d)) ->
  (dryRun config = false -> skipTwitter config = false ->
   forall d i m, P (CallAnnounce d i m)) ->
  preserves (calls_only P) (Orchestrator.pipeline E config).
Proof.
  intros Hcore Hdeploy Hannounce.
  assert (Hcall : forall c, P c -> preserves (calls_only P) (record_call c))
    by (intros c; apply calls_only_call).
  assert (Hpi : forall t, P (CallPi t)) by (intros t; apply Hcore; cbn; lia).
  assert (Hmod : forall f, preserves (calls_only P) (modify_state f))
    by (intros f; apply calls_only_modify).
  unfold Orchestrator.pipeline, Orchestrator.deploy_step,
    Orchestrator.announce_step.
  preserves_step.
  { apply (keeps_core_phases (calls_only P) P); auto;
      intros; apply Hcore; cbn; lia. }
  destruct (dryRun config); [preserves_step|].
  preserves_step.
  - destruct (skipGithub config); [preserves_step|].
    preserves_step;
      [apply (keeps_phase5 (calls_only P) P); auto
      | apply keeps_saveState; exact _].
  - destruct (skipTwitter config); [preserves_step|].
    preserves_step;
      [apply (keeps_phase6 (calls_only P) P); auto
      | apply keeps_saveState; exact _].
Qed.

Lemma run_Ok (E : Env) (config : Config) (w w1 : World) :
  Orchestrator.pipeline E config w = (Ok tt, w1) ->
  Orchestrator.run E config w
  = ({| success := true;
        result_idea := selectedIdea (st w1);
        result_repoUrl := repoUrl <$> deployment (st w1);
        result_tweetUrl := announcement (st w1) ≫= tweetUrl;
        totalTime :=
          Orchestrator.seconds_since (startTime (st w1))
            (Date_now E (length (trace w1)));
        result_state := st w1;
        result_error := None |}, w1).
Proof. intros H. unfold Orchestrator.run. now rewrite H. Qed.

Lemma run_trace (E : Env) (config : Config) (w : World) :
  trace (snd (Orchestrator.run E config w))
  = trace (snd (Orchestrator.pipeline E config w)).
Proof.
  destruct (Orchestrator.pipeline E config w) as [[[]|e] w1] eqn:Hp.
  - now rewrite (run_Ok _ _ _ _ Hp).
  - now destruct (run_after_throw E config w e w1 Hp) as (_ & _ & _ & Ht & _).
Qed.

Lemma run_calls_only (P : Call -> Prop) (E : Env) (config : Config) (w : World) :
  preserves (calls_only P) (Orchestrator.pipeline E config) ->
  Forall P (new_calls w (snd (Orchestrator.run E config w))).
Proof.
  intros H. destruct (H w) as (cs & Hcs & Hall).
  unfold new_calls. now rewrite run_trace, Hcs, drop_app_length.
Qed.

(** X10.  Each skip flag keeps its oracle out of the run: with
    SKIP_GITHUB set no run calls the deployer, with SKIP_TWITTER set no
    run calls the announcer, whatever the other flags say. *)
Theorem skip_flags_keep_the_oracle_out
    (E : Env) (config : Config) (w : World) :
  (skipGithub config = true ->
   Forall (fun c => ~ is_deploy_call c)
     (new_calls w (snd (Orchestrator.run E config w))))
  /\ (skipTwitter config = true ->
      Forall (fun c => ~ is_announce_call c)
        (new_calls w (snd (Orchestrator.run E config w)))).
Proof.
  split; intros Hskip; apply run_calls_only; apply calls_only_pipeline.
  - intros [] Hc; cbn in *; solve [tauto | lia].
  - intros _ H. congruence.
  - intros _ _ d i m. cbn. tauto.
  - intros [] Hc; cbn in *; solve [tauto | lia].
  - intros _ _ i d. cbn. tauto.
  - intros _ H. congruence.
Qed.

Lemma grows_call c : True -> preserves grows (record_call c).
Proof. intros _ w. apply kept_refl. Qed.

Lemma grows_pipeline (E : Env) (config : Config) :
  preserves grows (Orchestrator.pipeline E config).
Proof.
  apply (keeps_pipeline grows (fun _ => True)); auto using grows_call;
    intros; intros w; unfold grows, kept; cbn; repeat split; eauto.
Qed.

(** X11.  A run never loses what it has found: between the state a run
    starts from and the state it returns, [runId] and [startTime] are the
    same, every result field that was set is still set, and [errors] has
    only been appended to.  The returned state is the orchestrator's
    state object. *)
Theorem run_never_clears_a_result (E : Env) (config : Config) (w : World) :
  let r := fst (Orchestrator.run E config w) in
  let wf := snd (Orchestrator.run E config w) in
  kept (st w) (result_state r) /\ st wf = result_state r.
Proof.
  cbv zeta. pose proof (grows_pipeline E config w) as Hg.
  destruct (Orchestrator.pipeline E config w) as [[[]|e] w1] eqn:Hp; cbn in Hg.
  - rewrite (run_Ok _ _ _ _ Hp). cbn. split; [exact Hg | reflexivity].
  - destruct (run_after_throw E config w e w1 Hp)
      as (_ & _ & Hst & _ & w3 & Hs3 & _ & _ & Hsave).
    split.
    + rewrite Hst. eapply kept_trans; [exact Hg|].
      unfold kept. cbn. repeat split; auto. now apply prefix_app_r.
    + destruct (save_spec E (result_state (fst (Orchestrator.run E config w))) w3)
        as (w4 & Hsave' & Hs4 & _).
      rewrite Hsave in Hsave'. injection Hsave' as <-. congruence.
Qed.

Lemma same_on_call {X} (proj : OrchestratorState -> X) c :
  True -> preserves (same_on proj) (record_call c).
Proof. intros _ w. reflexivity. Qed.

Lemma errors_pipeline (E : Env) (config : Config) :
  preserves (same_on errors) (Orchestrator.pipeline E config).
Proof.
  apply (keeps_pipeline (same_on errors) (fun _ => True));
    auto using same_on_call; intros; intros w; reflexivity.
Qed.

(** X12.  The error list tells how the run ended.  A run that succeeds
    returns no error and leaves [state.errors] as it was; a run that
    fails returns the error message and has appended exactly one record
    to [state.errors], with that message and the phase the state is in. *)
Theorem run_appends_one_error_iff_it_fails
    (E : Env) (config : Config) (w : World) :
  let r := fst (Orchestrator.run E config w) in
  match result_error r with
  | None => success r = true /\ errors (result_state r) = errors (st w)
  | Some m =>
      success r = false
      /\ exists t,
           errors (result_state r)
           = errors (st w)
             ++ [ {| err_phase := currentPhase (result_state r);
                     err_error := m; err_timestamp := t |} ]
  end.
Proof.
  cbv zeta. pose proof (errors_pipeline E config w) as He.
  destruct (Orchestrator.pipeline E config w) as [[[]|e] w1] eqn:Hp;
    cbn in He; unfold same_on in He.
  - rewrite (run_Ok _ _ _ _ Hp). cbn. split; [reflexivity | exact He].
  - destruct (run_after_throw E config w e w1 Hp) as (Hs & Hm & Hst & _).
    rewrite Hm. split; [exact Hs|].
    exists (Date_now E (length (trace w1))). rewrite Hst. cbn. now rewrite He.
Qed.

Lemma synced_saveState (E : Env) (w w' : World) :
  (forall i, fs_mkdir E i = None) -> (forall i, fs_writeFile E i = None) ->
  Orchestrator.saveState E w = (Ok tt, w') -> synced w'.
Proof.
  intros Hmk Hwr. unfold Orchestrator.saveState, bind, get_state.
  destruct (save_spec E (st w) w) as (w1 & Hs & Hst & _ & Hd).
  rewrite Hs. intros [= <-]. rewrite Hmk, Hwr in Hd.
  unfold synced. destruct Hd as [-> _]. now rewrite Hst.
Qed.

Lemma synced_log l m w : synced w -> synced (snd (log l m w)).
Proof. auto. Qed.

Lemma synced_pipeline (E : Env) (config : Config) (w w1 : World) :
  (forall i, fs_mkdir E i = None) -> (forall i, fs_writeFile E i = None) ->
  Orchestrator.pipeline E config w = (Ok tt, w1) -> synced w1.
Proof.
  intros Hmk Hwr Hp. unfold Orchestrator.pipeline in Hp.
  apply bind_inv_Ok in Hp as ([] & wc & Hcore & Hrest).
  assert (Hc : synced wc).
  { unfold Orchestrator.core_phases in Hcore.
    do 9 (apply bind_inv_Ok in Hcore as ([] & ? & _ & Hcore)).
    eapply synced_saveState; eassumption. }
  destruct (dryRun config); [now injection Hrest as <-|].
  apply bind_inv_Ok in Hrest as ([] & wd & Hdeploy & Hannounce).
  assert (Hd : synced wd).
  { unfold Orchestrator.deploy_step in Hdeploy.
    destruct (skipGithub config).
    - injection Hdeploy as <-. exact Hc.
    - apply bind_inv_Ok in Hdeploy as ([] & ? & _ & Hsave).
      eapply synced_saveState; eassumption. }
  unfold Orchestrator.announce_step in Hannounce.
  destruct (skipTwitter config).
  - injection Hannounce as <-. exact Hd.
  - apply bind_inv_Ok in Hannounce as ([] & ? & _ & Hsave).
    eapply synced_saveState; eassumption.
Qed.

(** X13.  On a file system that does not fail, the state file a run
    leaves behind holds exactly the state the run returns, whether the
    run succeeded or failed. *)
Theorem state_file_holds_the_returned_state
    (E : Env) (config : Config) (w : World) :
  (forall i, fs_mkdir E i = None) ->
  (forall i, fs_writeFile E i = None) ->
  disk (snd (Orchestrator.run E config w))
  = Some (result_state (fst (Orchestrator.run E config w))).
Proof.
  intros Hmk Hwr.
  destruct (Orchestrator.pipeline E config w) as [[[]|e] w1] eqn:Hp.
  - rewrite (run_Ok _ _ _ _ Hp). cbn.
    exact (synced_pipeline E config w w1 Hmk Hwr Hp).
  - destruct (run_after_throw E config w e w1 Hp)
      as (_ & _ & _ & _ & w3 & Hs3 & _ & _ & Hsave).
    destruct (save_spec E (result_state (fst (Orchestrator.run E config w))) w3)
      as (w4 & Hsave' & _ & _ & Hd).
    rewrite Hsave in Hsave'. injection Hsave' as <-.
    rewrite Hmk, Hwr in Hd. apply Hd.
Qed.


(** ** What a successful run has done *)

Lemma same_on_core_phases {X} (proj : OrchestratorState -> X) (E : Env) :
  (forall p s, proj (Orchestrator.set_currentPhase p s) = proj s) ->
  (forall v s, proj (Orchestrator.set_trends v s) = proj s) ->
  (forall v s, proj (Orchestrator.set_ideas v s) = proj s) ->
  (forall i r s, proj (Orchestrator.set_selected i r s) = proj s) ->
  (forall v s, proj (Orchestrator.set_implementation v s) = proj s) ->
  preserves (same_on proj) (Orchestrator.core_phases E).
Proof.
  intros H0 H1 H2 H3 H4.
  apply (keeps_core_phases (same_on proj) (fun _ => True));
    auto using same_on_call; intros; intros w; unfold same_on; cbn; auto.
Qed.

Lemma same_on_phase2b {X} (proj : OrchestratorState -> X) (E : Env) :
  (forall p s, proj (Orchestrator.set_currentPhase p s) = proj s) ->
  (forall v s, proj (Orchestrator.set_ideas v s) = proj s) ->
  preserves (same_on proj) (Orchestrator.phase2b_JudgeIdeas E).
Proof.
  intros H0 H2.
  apply (keeps_phase2b (same_on proj) (fun _ => True));
    auto using same_on_call; intros; intros w; unfold same_on; cbn; auto.
Qed.

(** What the five phases that always run leave behind when all return. *)
Lemma core_phases_Ok (E : Env) (w w1 : World) :
  Orchestrator.core_phases E w = (Ok tt, w1) ->
  exists found candidates idea report result,
    found <> [] /\ In idea candidates
    /\ recommendation report = SHIP /\ status result <> failed
    /\ trends (st w1) = Some found
    /\ ideas (st w1) = Some candidates
    /\ selectedIdea (st w1) = Some idea
    /\ research (st w1) = Some report
    /\ implementation (st w1) = Some result
    /\ deployment (st w1) = deployment (st w)
    /\ announcement (st w1) = announcement (st w).
Proof.
  intros Hcore.
  pose proof (same_on_core_phases deployment E
                ltac:(reflexivity) ltac:(reflexivity) ltac:(reflexivity)
                ltac:(reflexivity) ltac:(reflexivity) w) as Hdep.
  pose proof (same_on_core_phases announcement E
                ltac:(reflexivity) ltac:(reflexivity) ltac:(reflexivity)
                ltac:(reflexivity) ltac:(reflexivity) w) as Hann.
  rewrite Hcore in Hdep, Hann. unfold same_on in Hdep, Hann. cbn in Hdep, Hann.
  unfold Orchestrator.core_phases in Hcore.
  apply bind_inv_Ok in Hcore as ([] & wa & Hp1 & Hcore).
  apply bind_inv_Ok in Hcore as ([] & wa' & Hs1 & Hcore).
  apply bind_inv_Ok in Hcore as ([] & wb & Hp2 & Hcore).
  apply bind_inv_Ok in Hcore as ([] & wb' & Hs2 & Hcore).
  apply bind_inv_Ok in Hcore as ([] & wc & Hp2b & Hcore).
  apply bind_inv_Ok in Hcore as ([] & wc' & Hs3 & Hcore).
  apply bind_inv_Ok in Hcore as ([] & wd & Hp3 & Hcore).
  apply bind_inv_Ok in Hcore as ([] & wd' & Hs4 & Hcore).
  apply bind_inv_Ok in Hcore as ([] & we & Hp4 & Hs5).
  apply saveState_inv in Hs1 as (_ & Hs1 & _).
  apply saveState_inv in Hs2 as (_ & Hs2 & _).
  apply saveState_inv in Hs3 as (_ & Hs3 & _).
  apply saveState_inv in Hs4 as (_ & Hs4 & _).
  apply saveState_inv in Hs5 as (_ & Hs5 & _).
  destruct (phase1_Ok E w wa Hp1) as (found & Hfound & Hst1 & _).
  destruct (phase2_Ok E wa' wb Hp2) as (allIdeas & _ & Hst2 & _).
  pose proof (same_on_phase2b trends E ltac:(reflexivity) ltac:(reflexivity) wb')
    as Htr.
  rewrite Hp2b in Htr. unfold same_on in Htr. cbn in Htr.
  destruct (phase3_Ok E wc' wd Hp3)
    as (candidates & idea & report & Hideas & Hin & Hship & Hst3).
  destruct (phase4_Ok E wd' we Hp4) as (result & Hstatus & Hst4 & _).
  exists found, candidates, idea, report, result.
  split; [exact Hfound|]. split; [exact Hin|]. split; [exact Hship|].
  split; [exact Hstatus|].
  assert (Hst : st w1
                = Orchestrator.set_implementation result
                    (Orchestrator.set_currentPhase "implement"
                       (Orchestrator.set_selected idea report
                          (Orchestrator.set_currentPhase "research" (st wc')))))
    by (rewrite Hs5, Hst4, Hs4, Hst3; reflexivity).
  split.
  { rewrite Hst. cbn. rewrite Hs3, Htr, Hs2, Hst2. cbn. now rewrite Hs1, Hst1. }
  split; [rewrite Hst; exact Hideas|].
  split; [rewrite Hst; reflexivity|].
  split; [rewrite Hst; reflexivity|].
  split; [rewrite Hst; reflexivity|].
  split; assumption.
Qed.

(** X14.  A run that reports success has gone through every phase: the
    state it returns holds a non-empty trend list, an idea list with the
    selected idea in it, the research report of that idea with the
    recommendation SHIP, and an implementation whose status is not
    [failed]; the returned idea is the selected one.  Unless the
    configuration skipped the deployment, the state holds a deployment
    that succeeded and the result carries its repo URL; unless it skipped
    the announcement, the state holds the announcer's answer and the
    result carries its tweet URL. *)
Theorem successful_run_went_through_every_phase
    (E : Env) (config : Config) (w : World) :
  success (fst (Orchestrator.run E config w)) = true ->
  let r := fst (Orchestrator.run E config w) in
  let s := result_state r in
  exists found candidates idea report result,
    trends s = Some found /\ found <> []
    /\ ideas s = Some candidates /\ In idea candidates
    /\ selectedIdea s = Some idea /\ result_idea r = Some idea
    /\ research s = Some report /\ recommendation report = SHIP
    /\ implementation s = Some result /\ status result <> failed
    /\ (if dryRun config || skipGithub config
        then deployment s = deployment (st w)
        else exists d, deployment s = Some d /\ deploy_success d = true
                       /\ result_repoUrl r = Some (repoUrl d))
    /\ (if dryRun config || skipTwitter config
        then announcement s = announcement (st w)
        else exists t, announcement s = Some t
                       /\ result_tweetUrl r = tweetUrl t)
    /\ result_error r = None.
Proof.
  intros Hsucc. cbv zeta.
  destruct (Orchestrator.pipeline E config w) as [[[]|e] w1] eqn:Hp.
  2:{ destruct (run_after_throw E config w e w1 Hp) as (Hf & _). congruence. }
  rewrite (run_Ok _ _ _ _ Hp). cbn [fst result_state result_idea result_repoUrl
    result_tweetUrl result_error].
  unfold Orchestrator.pipeline in Hp.
  apply bind_inv_Ok in Hp as ([] & wc & Hcore & Hrest).
  destruct (core_phases_Ok E w wc Hcore)
    as (found & candidates & idea & report & result & Hfound & Hin & Hship
        & Hstatus & Htr & Hid & Hsel & Hres & Himpl & Hdep & Hann).
  exists found, candidates, idea, report, result.
  destruct (dryRun config); cbn [orb].
  { injection Hrest as <-. rewrite Htr, Hid, Hsel, Hres, Himpl.
    repeat split; assumption. }
  apply bind_inv_Ok in Hrest as ([] & wd & Hdeploy & Hannounce).
  unfold Orchestrator.deploy_step in Hdeploy.
  unfold Orchestrator.announce_step in Hannounce.
  destruct (skipGithub config).
  - injection Hdeploy as <-. cbn [st log snd] in Hannounce.
    destruct (skipTwitter config).
    + injection Hannounce as <-. cbn [st]. rewrite Htr, Hid, Hsel, Hres, Himpl.
      repeat split; assumption.
    + apply bind_inv_Ok in Hannounce as ([] & wf & Hp6 & Hsave).
      apply saveState_inv in Hsave as (_ & Hs & _).
      apply phase6_Ok in Hp6 as (tweet & Hst6 & _).
      rewrite Hs, Hst6. cbn. rewrite Htr, Hid, Hsel, Hres, Himpl.
      repeat split; try assumption. exists tweet. split; reflexivity.
  - apply bind_inv_Ok in Hdeploy as ([] & wd0 & Hp5 & Hsave5).
    apply saveState_inv in Hsave5 as (_ & Hs5 & _).
    apply phase5_Ok in Hp5 as (d & Hd & Hst5 & _).
    destruct (skipTwitter config).
    + injection Hannounce as <-. cbn [st]. rewrite Hs5, Hst5. cbn.
      rewrite Htr, Hid, Hsel, Hres, Himpl.
      repeat split; try assumption. exists d. repeat split. exact Hd.
    + apply bind_inv_Ok in Hannounce as ([] & wf & Hp6 & Hsave).
      apply saveState_inv in Hsave as (_ & Hs & _).
      apply phase6_Ok in Hp6 as (tweet & Hst6 & _).
      rewrite Hs, Hst6. cbn. rewrite Hs5, Hst5. cbn.
      rewrite Htr, Hid, Hsel, Hres, Himpl.
      repeat split; try assumption.
      * exists d. repeat split. exact Hd.
      * exists tweet. split; reflexivity.
Qed.

(** X15.  With the deployment skipped and the announcement not, the
    announcer is still called, and it is handed no deployment: the
    argument is [undefined].  The run's result carries no repo URL. *)
Theorem skipped_deployment_announces_without_it
    (E : Env) (config : Config) (w0 w1 : World) :
  dryRun config = false ->
  skipGithub config = true ->
  skipTwitter config = false ->
  deployment (st w0) = None ->
  Orchestrator.core_phases E w0 = (Ok tt, w1) ->
  exists idea result,
    selectedIdea (st w1) = Some idea
    /\ implementation (st w1) = Some result
    /\ new_calls w1 (snd (Orchestrator.run E config w0))
       = [CallAnnounce None (Some idea) (Some result)]
    /\ result_repoUrl (fst (Orchestrator.run E config w0)) = None.
Proof.
  intros Hdry Hgit Htw Hnone Hcore.
  destruct (core_phases_Ok E w0 w1 Hcore)
    as (found & candidates & idea & report & result & _ & _ & _ & _ & _ & _
        & Hsel & _ & Himpl & Hdep & _).
  exists idea, result. split; [exact Hsel|]. split; [exact Himpl|].
  rewrite Hnone in Hdep.
  set (w2 := snd (log LWarn "⏭️  Skipping deployment (SKIP_GITHUB=true)" w1)).
  assert (Hpipe : Orchestrator.pipeline E config w0
                  = (do! Orchestrator.phase6_Announce E in
                     Orchestrator.saveState E) w2).
  { unfold Orchestrator.pipeline. rewrite (bind_Ok _ _ _ _ _ Hcore), Hdry.
    unfold Orchestrator.deploy_step, Orchestrator.announce_step.
    rewrite Hgit, Htw. reflexivity. }
  assert (Hp6 : exists res w3,
             Orchestrator.phase6_Announce E w2 = (res, w3)
             /\ trace w3 = trace w1 ++ [CallAnnounce None (Some idea) (Some result)]
             /\ deployment (st w3) = None).
  { unfold Orchestrator.phase6_Announce, bind, modify_state, get_state.
    rewrite budgeted_eq. unfold w2. cbn. rewrite Hdep, Hsel, Himpl.
    destruct (announcer_announce E (length (trace w1)) None (Some idea)
                (Some result)) as [[tweet|e]|t l]; cbn.
    - destruct (tweet_success tweet); cbn; eexists _, _;
        (split; [reflexivity|]); cbn; now split.
    - eexists _, _. split; [reflexivity|]. cbn. now split.
    - eexists _, _. split; [reflexivity|]. cbn. now split. }
  destruct Hp6 as (res & w3 & Hp6 & Ht3 & Hd3).
  destruct res as [[]|e].
  - destruct (saveState_Ok E w3) as (w4 & Hsave & Hs4 & Ht4).
    assert (Hp : Orchestrator.pipeline E config w0 = (Ok tt, w4)).
    { rewrite Hpipe, (bind_Ok _ _ _ _ _ Hp6). exact Hsave. }
    rewrite (run_Ok _ _ _ _ Hp). cbn. rewrite Hs4, Hd3. split; [|reflexivity].
    unfold new_calls. rewrite Ht4, Ht3. apply drop_app_length.
  - assert (Hp : Orchestrator.pipeline E config w0 = (Throw e, w3)).
    { rewrite Hpipe. now apply bind_Throw. }
    destruct (run_after_throw E config w0 e w3 Hp) as (_ & _ & Hst & Ht & _).
    split.
    + unfold new_calls. rewrite Ht, Ht3. apply drop_app_length.
    + unfold Orchestrator.run. rewrite Hp. cbn [log modify_state].
      unfold Orchestrator.saveState, bind, get_state.
      match goal with |- context [StateManager.save E ?s ?v] =>
        destruct (save_spec E s v) as (w4 & -> & _)
      end.
      reflexivity.
Qed.


(** ** The judging phase, round by round *)

Lemma phase2b_eq (E : Env) (w : World) :
  Orchestrator.phase2b_JudgeIdeas E w
  = Orchestrator.judge_rounds E
      (Orchestrator.build_repoMap (default [] (trends (st w)))) 0 2
      (set_st (Orchestrator.set_currentPhase "judge-ideas" (st w)) w).
Proof. reflexivity. Qed.

(** X16.  When the first judging round approves at least one idea, the
    phase first logs the rejections of the round.  When every line can
    be written the phase ends there: the approved ideas, in their
    original order, become the working set.  When a line cannot be
    written, the phase throws what the line throws and the working set
    is left as it was.  Either way the only calls made are the one
    [filterIdeas] call and its judge calls; nothing is regenerated. *)
Theorem first_round_approval_ends_the_judging
    (E : Env) (w : World) (original approvedIdeas : list JSON)
    (rejected : list Rejection) (w2 : World) :
  let repoMap := Orchestrator.build_repoMap (default [] (trends (st w))) in
  let w1 := set_st (Orchestrator.set_currentPhase "judge-ideas" (st w)) w in
  ideas (st w) = Some original ->
  Orchestrator.judge_round E 0 repoMap w1 = (Ok (approvedIdeas, rejected), w2) ->
  approvedIdeas <> [] ->
  let r := fst (Orchestrator.phase2b_JudgeIdeas E w) in
  let wf := snd (Orchestrator.phase2b_JudgeIdeas E w) in
  match JS.map (Orchestrator.rejection_line E) rejected with
  | Ok _ => r = Ok tt /\ ideas (st wf) = Some approvedIdeas
  | Throw e => r = Throw e /\ ideas (st wf) = Some original
  end
  /\ sublist approvedIdeas original
  /\ new_calls w wf
     = CallFilterIdeas (Some original) :: Spec.judge_calls repoMap original.
Proof.
  intros repoMap w1 Hideas Hround Hne r wf.
  destruct (judge_round_Ok E 0 repoMap w1 _ _ _ Hround)
    as (batch & Hb & _ & Ht & _ & Hsub & _).
  assert (Hid1 : ideas (st w1) = Some original) by exact Hideas.
  rewrite Hid1 in Hb. injection Hb as <-.
  pose proof (judge_round_spec E 0 repoMap w1) as [Hs2 _].
  rewrite Hround in Hs2. cbn [snd] in Hs2.
  assert (Hphase : Orchestrator.phase2b_JudgeIdeas E w
                   = match JS.map (Orchestrator.rejection_line E) rejected with
                     | Ok _ =>
                         (Ok tt,
                          set_st (Orchestrator.set_ideas approvedIdeas (st w2)) w2)
                     | Throw e => (Throw e, w2)
                     end).
  { rewrite phase2b_eq. fold repoMap w1. cbn [Orchestrator.judge_rounds].
    rewrite (bind_Ok _ _ _ _ _ Hround). unfold bind at 1.
    rewrite log_rejections_eq.
    destruct (JS.map (Orchestrator.rejection_line E) rejected); [|reflexivity].
    destruct approvedIdeas; [congruence | reflexivity]. }
  subst r wf. rewrite Hphase.
  split; [|split; [exact Hsub|]].
  - destruct (JS.map (Orchestrator.rejection_line E) rejected); cbn [fst snd].
    + split; reflexivity.
    + split; [reflexivity|]. now rewrite Hs2.
  - unfold new_calls.
    destruct (JS.map (Orchestrator.rejection_line E) rejected);
      cbn [snd set_st trace]; rewrite Ht; apply drop_app_length.
Qed.


(** ** The order of the calls *)

Lemma in_stages_nil lo hi w w' : trace w' = trace w -> in_stages lo hi w w'.
Proof.
  intros H. exists []. rewrite app_nil_r. repeat split; [exact H | constructor..].
Qed.

Lemma in_stages_one c w w' :
  trace w' = trace w ++ [c] -> in_stages (stage c) (stage c) w w'.
Proof.
  intros H. exists [c]. split; [exact H|]. split.
  - repeat constructor.
  - constructor; [lia | constructor].
Qed.

Lemma in_stages_loop n w w' :
  repeats n = true ->
  calls_only (fun c => stage c = n) w w' -> in_stages n n w w'.
Proof.
  intros Hn (cs & Ht & Hall). exists cs. split; [exact Ht|]. split.
  - clear Ht. induction Hall as [|c cs Hc Hcs IH]; [constructor|].
    constructor; [exact IH|].
    eapply Forall_impl; [exact Hcs|]. intros c' Hc'. right.
    split; [congruence | now rewrite Hc].
  - eapply Forall_impl; [exact Hall|]. intros c Hc. cbn in Hc. lia.
Qed.

Lemma in_stages_trans lo mid hi w1 w2 w3 :
  lo <= S mid -> mid <= hi ->
  in_stages lo mid w1 w2 -> in_stages (S mid) hi w2 w3 -> in_stages lo hi w1 w3.
Proof.
  intros Hlo Hhi (cs1 & Ht1 & Hs1 & Hr1) (cs2 & Ht2 & Hs2 & Hr2).
  exists (cs1 ++ cs2). split; [now rewrite Ht2, Ht1, app_assoc|]. split.
  - clear Ht1 Ht2. induction Hs1 as [|c cs1 Hs1 IH Hc]; [exact Hs2|].
    apply Forall_cons in Hr1 as [Hc1 Hr1]. cbn. constructor; [now apply IH|].
    apply Forall_app. split; [exact Hc|].
    eapply Forall_impl; [exact Hr2|]. intros c' Hc'. left. cbn in Hc'. lia.
  - apply Forall_app. split; (eapply Forall_impl; [eassumption|]);
      intros c Hc; cbn in Hc; lia.
Qed.

Lemma in_stages_bind {A B} lo mid hi (c : M A) (k : A -> M B) :
  lo <= S mid -> mid <= hi ->
  preserves (in_stages lo mid) c ->
  (forall a, preserves (in_stages (S mid) hi) (k a)) ->
  preserves (in_stages lo hi) (bind c k).
Proof.
  intros Hlo Hhi Hc Hk w. unfold bind. specialize (Hc w).
  destruct (c w) as [[a|e] w1]; cbn in *.
  - eapply in_stages_trans; [exact Hlo | exact Hhi | exact Hc | apply Hk].
  - destruct Hc as (cs & Ht & Hs & Hr). exists cs. split; [exact Ht|].
    split; [exact Hs|]. eapply Forall_impl; [exact Hr|].
    intros c' Hc'. cbn in Hc'. lia.
Qed.

Lemma saveState_trace (E : Env) (w : World) :
  trace (snd (Orchestrator.saveState E w)) = trace w.
Proof. destruct (saveState_Ok E w) as (w' & H & _ & Ht). now rewrite H. Qed.

Lemma phase1_trace (E : Env) (w : World) :
  trace (snd (Orchestrator.phase1_ScoutTrends E w))
  = trace w ++ [CallScoutTrends scout_options].
Proof.
  rewrite phase1_eq. cbv zeta.
  destruct (trendScout_scoutTrends E (length (trace w)) scout_options)
    as [[found|e]|t l]; try reflexivity.
  now destruct found.
Qed.

Lemma phase2_trace (E : Env) (w : World) :
  trace (snd (Orchestrator.phase2_GenerateIdeas E w))
  = trace w ++ [CallGenerateOriginalIdeas (trends (st w))].
Proof.
  rewrite phase2_eq. cbv zeta.
  destruct (ideaGenerator_generateOriginalIdeas E (length (trace w)) (trends (st w)))
    as [[found|e]|t l]; try reflexivity.
  now destruct found.
Qed.

Lemma phase4_trace (E : Env) (w : World) :
  trace (snd (Orchestrator.phase4_Implement E w))
  = trace w ++ [CallImplement (selectedIdea (st w)) (research (st w))].
Proof.
  rewrite phase4_eq. cbv zeta.
  destruct (implementer_implement E (length (trace w)) (selectedIdea (st w))
              (research (st w))) as [[result|e]|t l]; try reflexivity.
  now destruct (status result).
Qed.

Lemma phase5_trace (E : Env) (w : World) :
  trace (snd (Orchestrator.phase5_Deploy E w))
  = trace w ++ [CallDeploy (implementation (st w)) (selectedIdea (st w))].
Proof.
  rewrite phase5_eq. cbv zeta.
  destruct (deployer_deploy E (length (trace w)) (implementation (st w))
              (selectedIdea (st w))) as [[result|e]|t l]; try reflexivity.
  now destruct (deploy_success result).
Qed.

Lemma phase6_trace (E : Env) (w : World) :
  trace (snd (Orchestrator.phase6_Announce E w))
  = trace w ++ [CallAnnounce (deployment (st w)) (selectedIdea (st w))
                  (implementation (st w))].
Proof.
  unfold Orchestrator.phase6_Announce, bind, modify_state, get_state.
  rewrite budgeted_eq. cbn.
  destruct (announcer_announce E (length (trace w)) (deployment (st w))
              (selectedIdea (st w)) (implementation (st w)))
    as [[tweet|e]|t l]; try reflexivity.
  now destruct (tweet_success tweet).
Qed.

Lemma phase2b_stage (E : Env) :
  preserves (in_stages 3 3) (Orchestrator.phase2b_JudgeIdeas E).
Proof.
  intros w. apply in_stages_loop; [reflexivity|].
  apply (keeps_phase2b (calls_only (fun c => stage c = 3)) (fun c => stage c = 3));
    auto using calls_only_call, calls_only_modify.
Qed.

Lemma phase3_stage (E : Env) :
  preserves (in_stages 4 4) (Orchestrator.phase3_ResearchIdeas E).
Proof.
  intros w. apply in_stages_loop; [reflexivity|].
  apply (keeps_phase3 (calls_only (fun c => stage c = 4)) (fun c => stage c = 4));
    auto using calls_only_call, calls_only_modify.
Qed.

Lemma core_phases_stage (E : Env) :
  preserves (in_stages 1 5) (Orchestrator.core_phases E).
Proof.
  unfold Orchestrator.core_phases.
  apply (in_stages_bind 1 1 5); [lia | lia | |intros _].
  { intros w. apply (in_stages_one (CallScoutTrends scout_options)), phase1_trace. }
  apply (in_stages_bind 2 1 5); [lia | lia | |intros _].
  { intros w. apply in_stages_nil, saveState_trace. }
  apply (in_stages_bind 2 2 5); [lia | lia | |intros _].
  { intros w. apply (in_stages_one (CallGenerateOriginalIdeas (trends (st w)))), phase2_trace. }
  apply (in_stages_bind 3 2 5); [lia | lia | |intros _].
  { intros w. apply in_stages_nil, saveState_trace. }
  apply (in_stages_bind 3 3 5); [lia | lia | apply phase2b_stage |intros _].
  apply (in_stages_bind 4 3 5); [lia | lia | |intros _].
  { intros w. apply in_stages_nil, saveState_trace. }
  apply (in_stages_bind 4 4 5); [lia | lia | apply phase3_stage |intros _].
  apply (in_stages_bind 5 4 5); [lia | lia | |intros _].
  { intros w. apply in_stages_nil, saveState_trace. }
  apply (in_stages_bind 5 5 5); [lia | lia | |intros _].
  { intros w. apply (in_stages_one (CallImplement (selectedIdea (st w)) (research (st w)))),
      phase4_trace. }
  intros w. apply in_stages_nil, saveState_trace.
Qed.

Lemma pipeline_stage (E : Env) (config : Config) :
  preserves (in_stages 1 7) (Orchestrator.pipeline E config).
Proof.
  unfold Orchestrator.pipeline.
  apply (in_stages_bind 1 5 7); [lia | lia | apply core_phases_stage |intros _].
  destruct (dryRun config); [intros w; now apply in_stages_nil|].
  apply (in_stages_bind 6 6 7); [lia | lia | |intros _].
  - unfold Orchestrator.deploy_step.
    destruct (skipGithub config); [intros w; now apply in_stages_nil|].
    apply (in_stages_bind 6 6 6); [lia | lia | |intros _].
    + intros w. apply (in_stages_one (CallDeploy (implementation (st w)) (selectedIdea (st w)))),
        phase5_trace.
    + intros w. apply in_stages_nil, saveState_trace.
  - unfold Orchestrator.announce_step.
    destruct (skipTwitter config); [intros w; now apply in_stages_nil|].
    apply (in_stages_bind 7 7 7); [lia | lia | |intros _].
    + intros w. apply (in_stages_one (CallAnnounce (deployment (st w)) (selectedIdea (st w))
                                  (implementation (st w)))), phase6_trace.
    + intros w. apply in_stages_nil, saveState_trace.
Qed.

Lemma sorted_once (k : nat) (cs : list Call) :
  repeats k = false ->
  StronglySorted follows cs ->
  length (List.filter (fun c => (stage c =? k)%nat) cs) <= 1.
Proof.
  intros Hk Hs. induction Hs as [|c cs Hs IH Hc]; [cbn; lia|].
  cbn. destruct (stage c =? k)%nat eqn:Hck; [|exact IH].
  apply Nat.eqb_eq in Hck. cbn.
  rewrite filter_none; [cbn; lia|].
  intros c' Hc'. apply Nat.eqb_neq. intros Heq.
  rewrite Forall_forall in Hc. apply list_elem_of_In in Hc'.
  destruct (Hc c' Hc') as [Hlt|[_ Hrep]].
  - lia.
  - rewrite Hck, Hk in Hrep. discriminate.
Qed.

(** X18.  The oracles are called in pipeline order: in the calls of a
    run, a call is followed only by calls of a later stage, or of the
    same stage when that stage is the judging or the research, which
    loop.  So the scout, the generator, the implementer, the deployer and
    the announcer are each called at most once per run. *)
Theorem oracles_are_called_in_pipeline_order
    (E : Env) (config : Config) (w : World) :
  let calls := new_calls w (snd (Orchestrator.run E config w)) in
  StronglySorted
    (fun a b =>
       stage a < stage b
       \/ (stage a = stage b /\ (stage a = 3 \/ stage a = 4)))
    calls
  /\ forall k, k <> 3 -> k <> 4 ->
       length (List.filter (fun c => (stage c =? k)%nat) calls) <= 1.
Proof.
  cbv zeta. destruct (pipeline_stage E config w) as (cs & Ht & Hs & _).
  assert (Hcalls : new_calls w (snd (Orchestrator.run E config w)) = cs).
  { unfold new_calls. rewrite run_trace, Ht. apply drop_app_length. }
  rewrite Hcalls. split.
  - clear Ht Hcalls. induction Hs as [|c cs Hs IH Hc]; constructor; [exact IH|].
    eapply Forall_impl; [exact Hc|]. intros c' [Hlt|[Heq Hrep]]; [now left|].
    right. split; [exact Heq|]. unfold repeats in Hrep.
    apply orb_true_iff in Hrep as [H|H]; apply Nat.eqb_eq in H; auto.
  - intros k H3 H4. apply sorted_once; [|exact Hs].
    unfold repeats. apply orb_false_iff.
    split; apply Nat.eqb_neq; congruence.
Qed.



(** ** The environment check and the entry point *)

(** X19.  [validateConfig] throws exactly when the run is not a dry run
    and GITHUB_TOKEN or GITHUB_USERNAME is not set or is empty; the
    message lists the missing names in that order.  In a dry run it never
    throws, whatever is missing. *)
Theorem validateConfig_requires_github_unless_dry_run (env : ProcessEnv) :
  let missing name := env !! name = None \/ env !! name = Some EmptyString in
  let dry := env !! "DRY_RUN" = Some "true" in
  (EnvConfig.validateConfig env = Ok tt
   <-> dry \/ (~ missing "GITHUB_TOKEN" /\ ~ missing "GITHUB_USERNAME"))
  /\ (~ dry -> missing "GITHUB_TOKEN" -> missing "GITHUB_USERNAME" ->
      EnvConfig.validateConfig env
      = Throw (Error "Missing required environment variables: GITHUB_TOKEN, GITHUB_USERNAME"))
  /\ (~ dry -> missing "GITHUB_TOKEN" -> ~ missing "GITHUB_USERNAME" ->
      EnvConfig.validateConfig env
      = Throw (Error "Missing required environment variables: GITHUB_TOKEN"))
  /\ (~ dry -> ~ missing "GITHUB_TOKEN" -> missing "GITHUB_USERNAME" ->
      EnvConfig.validateConfig env
      = Throw (Error "Missing required environment variables: GITHUB_USERNAME")).
Proof.
  cbv zeta.
  assert (Hunset : forall name,
             EnvConfig.unset env name = true
             <-> env !! name = None \/ env !! name = Some EmptyString).
  { intros name. unfold EnvConfig.unset.
    destruct (env !! name) as [v|]; [|tauto].
    rewrite String.eqb_eq. split; [intros ->; now right|].
    intros [H|[= ->]]; [discriminate | reflexivity]. }
  assert (Hdry : dryRun (EnvConfig.system env) = true
                 <-> env !! "DRY_RUN" = Some "true").
  { cbn. unfold EnvConfig.flag. apply bool_decide_eq_true. }
  unfold EnvConfig.validateConfig, EnvConfig.required. cbn [List.filter].
  pose proof (Hunset "GITHUB_TOKEN") as Ht.
  pose proof (Hunset "GITHUB_USERNAME") as Hu.
  destruct (dryRun (EnvConfig.system env)) eqn:Hd;
    destruct (EnvConfig.unset env "GITHUB_TOKEN") eqn:H1;
    destruct (EnvConfig.unset env "GITHUB_USERNAME") eqn:H2;
    cbn; repeat split; try tauto; try discriminate;
    try (intros; exfalso; intuition congruence);
    intuition (try discriminate; try congruence).
Qed.

(** X20.  [main] exits with 0 or 1, and with 0 exactly when the
    orchestrator ran and reported success.  When a required variable is
    missing outside a dry run, it exits with 1 before the orchestrator is
    built: no oracle is called.  In a dry run it starts the orchestrator
    without credentials, and that run calls neither the deployer nor the
    announcer. *)
Theorem main_exit_code_reports_the_run
    (env : ProcessEnv) (logger_init construct : option Exn)
    (E : Env) (runId : string) :
  let code := fst (Main.main env logger_init construct E runId) in
  let ran := snd (Main.main env logger_init construct E runId) in
  (code = 0 \/ code = 1)%Z
  /\ (code = 0%Z <-> exists r w, ran = Some (r, w) /\ success r = true)
  /\ (EnvConfig.validateConfig env <> Ok tt -> code = 1%Z /\ ran = None)
  /\ (env !! "DRY_RUN" = Some "true" -> logger_init = None -> construct = None ->
      exists r w,
        ran = Some (r, w)
        /\ (r, w) = Orchestrator.run E (EnvConfig.system env)
                      (Orchestrator.initial_world runId (Date_now E 0))
        /\ Forall (fun c => ~ is_delivery c) (trace w)).
Proof.
  cbv zeta. unfold Main.main.
  destruct logger_init as [e|].
  { cbn. split; [now right|]. split; [|split; [auto | discriminate]].
    split; [discriminate | intros (r & w & H & _); discriminate]. }
  destruct (EnvConfig.validateConfig env) as [[]|e] eqn:Hv.
  2:{ cbn. split; [now right|]. split; [|split; [auto|]].
      - split; [discriminate | intros (r & w & H & _); discriminate].
      - intros Hdry. exfalso.
        unfold EnvConfig.validateConfig in Hv.
        assert (Hd : dryRun (EnvConfig.system env) = true)
          by (cbn; unfold EnvConfig.flag; now apply bool_decide_eq_true).
        rewrite Hd, andb_false_r in Hv. discriminate. }
  destruct construct as [e|].
  { cbn. split; [now right|]. split; [|split; [congruence | discriminate]].
    split; [discriminate | intros (r & w & H & _); discriminate]. }
  cbn [fst snd].
  set (w0 := Orchestrator.initial_world runId (Date_now E 0)).
  destruct (Orchestrator.run E (EnvConfig.system env) w0) as [r w] eqn:Hrun.
  cbn [fst snd].
  split; [destruct (success r); auto|].
  split.
  { split.
    - intros Hc. exists r, w. split; [reflexivity|].
      destruct (success r); [reflexivity | discriminate].
    - intros (r' & w' & [= <- <-] & Hs). now rewrite Hs. }
  split; [congruence|].
  intros Hdry _ _. exists r, w. split; [reflexivity|]. split; [reflexivity|].
  assert (Hd : dryRun (EnvConfig.system env) = true)
    by (cbn; unfold EnvConfig.flag; now apply bool_decide_eq_true).
  pose proof (run_calls_only (fun c => ~ is_delivery c) E (EnvConfig.system env) w0)
    as Hcalls.
  rewrite Hrun in Hcalls. cbn in Hcalls. unfold new_calls in Hcalls.
  cbn in Hcalls. apply Hcalls. apply calls_only_pipeline.
  - intros [] Hc; cbn in *; solve [tauto | lia].
  - congruence.
  - congruence.
Qed.


(** ** The template fallback of the idea generator *)

(** X21.  In [validateIdea] the clamp of the confidence never acts: the
    confidence is 70 minus 20 for more than 8 hours, 10 for more than
    five dependencies, 10 for more than three must-have features and 15
    for a complex idea, so it lies between 15 and 70, and it is 70
    exactly when there is no concern.  There is one concern per penalty
    and a recommendation exactly for the must-have features.  An idea of
    more than 10 hours, or with three or more concerns, is never
    buildable, and an idea of more than 8 hours carries the time-budget
    concern. *)
Theorem validateIdea_confidence_is_never_clamped (idea : DetailedIdea) :
  let v := IdeaGenerator.validateIdea idea in
  let penalty (b : bool) (n : Z) := if b then n else 0%Z in
  confidence v
  = (70 - penalty (IdeaGenerator.over_budget idea) 20
        - penalty (IdeaGenerator.many_dependencies idea) 10
        - penalty (IdeaGenerator.many_musts idea) 10
        - penalty (IdeaGenerator.is_complex (complexity idea)) 15)%Z
  /\ (15 <= confidence v <= 70)%Z
  /\ (confidence v = 70%Z <-> concerns v = [])
  /\ length (concerns v) <= 4
  /\ (recommendations v <> [] <-> IdeaGenerator.many_musts idea = true)
  /\ (isBuildable v = true <->
      (estimatedHours idea <= 10)%Q /\ length (concerns v) <= 2)
  /\ ((8 < estimatedHours idea)%Q -> In "Exceeds 8 hour time budget" (concerns v))
  /\ isNovel v = true.
Proof.
  cbv zeta. unfold IdeaGenerator.validateIdea.
  cbn [confidence concerns recommendations isBuildable isNovel].
  assert (Hover : (8 < estimatedHours idea)%Q -> IdeaGenerator.over_budget idea = true).
  { intros H. unfold IdeaGenerator.over_budget. apply negb_true_iff.
    destruct (Qle_bool (estimatedHours idea) 8) eqn:Hq; [|reflexivity].
    apply Qle_bool_iff in Hq. lra. }
  assert (Hbuild : forall n, Qle_bool (estimatedHours idea) 10 && (n <? 3)%nat = true
                             <-> (estimatedHours idea <= 10)%Q /\ n <= 2).
  { intros n. rewrite andb_true_iff, Qle_bool_iff, Nat.ltb_lt.
    split; intros [H1 H2]; (split; [exact H1 | lia]). }
  rewrite Hbuild.
  destruct (IdeaGenerator.over_budget idea);
    destruct (IdeaGenerator.many_dependencies idea);
    destruct (IdeaGenerator.many_musts idea);
    destruct (IdeaGenerator.is_complex (complexity idea));
    cbn; repeat split; try lia; try discriminate; try tauto; try congruence;
    try (intros H; specialize (Hover H); discriminate);
    try (intros; now left).
Qed.

Lemma inferDependencies_length (toLowerCase : string -> string) (repo : TrendingRepo) :
  length (IdeaGenerator.inferDependencies toLowerCase repo) <= 3.
Proof.
  unfold IdeaGenerator.inferDependencies. cbv zeta.
  repeat match goal with
         | |- context [if ?b then _ else _] => destruct b
         end; cbn; lia.
Qed.

Lemma template_validation (toLowerCase : string -> string) (repo : TrendingRepo) :
  IdeaGenerator.validateIdea (IdeaGenerator.complementaryStrategy toLowerCase repo)
  = {| isNovel := true; isBuildable := true; isInteresting := true;
       confidence := 70; concerns := []; recommendations := [] |}.
Proof.
  pose proof (inferDependencies_length toLowerCase repo) as Hlen.
  unfold IdeaGenerator.validateIdea, IdeaGenerator.over_budget,
    IdeaGenerator.many_dependencies, IdeaGenerator.many_musts.
  cbn [IdeaGenerator.complementaryStrategy estimatedHours dependencies
       coreFeatures complexity summary slopFactor strategy
       IdeaGenerator.is_complex].
  assert (Hdeps : (5 <? length (["commander"; "chalk"]
                                ++ IdeaGenerator.inferDependencies toLowerCase repo))%nat
                  = false).
  { apply Nat.ltb_ge. rewrite length_app. cbn. lia. }
  rewrite Hdeps. reflexivity.
Qed.

(** X22.  The template idea built for a repo always passes the
    generator's own validation, with no concern and the full confidence
    of 70: it is planned for 5 hours, has two must-have features, is of
    moderate complexity and has between two and five dependencies.  Its
    source repo is the repo's [owner/name]. *)
Theorem complementary_template_passes_validation
    (toLowerCase : string -> string) (repo : TrendingRepo) :
  let idea := IdeaGenerator.complementaryStrategy toLowerCase repo in
  IdeaGenerator.validateIdea idea
  = {| isNovel := true; isBuildable := true; isInteresting := true;
       confidence := 70; concerns := []; recommendations := [] |}
  /\ 2 <= length (dependencies idea) <= 5
  /\ originalRepo (summary idea) = repo_owner repo +:+ "/" +:+ repo_name repo
  /\ strategy (summary idea) = complementary
  /\ idea_name (summary idea) = repo_name repo +:+ "-analyzer".
Proof.
  cbv zeta. split; [apply template_validation|].
  pose proof (inferDependencies_length toLowerCase repo) as Hlen.
  cbn [IdeaGenerator.complementaryStrategy dependencies summary originalRepo
       strategy idea_name].
  rewrite length_app. cbn [length]. repeat split; lia.
Qed.

Lemma fallback_loop_spec (toLowerCase : string -> string) :
  forall repos ideas,
    IdeaGenerator.fallback_loop toLowerCase repos ideas
    = ideas ++ map (IdeaGenerator.complementaryStrategy toLowerCase) repos.
Proof.
  induction repos as [|repo rest IH]; intros ideas;
    cbn [IdeaGenerator.fallback_loop map].
  - now rewrite app_nil_r.
  - rewrite template_validation. cbn. rewrite IH, <- app_assoc. reflexivity.
Qed.

(** X23.  The fallback of the generator offers exactly one template idea
    for each of the first three trends, in their order: none is dropped
    by the validation.  So it returns an idea whenever there is a trend,
    and the source repo of each of its ideas is in the lookup map the
    judging phase builds from the same trends: a fallback idea is always
    judged, never approved for lack of a source. *)
Theorem fallback_offers_a_template_for_each_of_three_trends
    (toLowerCase : string -> string) (repos : list TrendingRepo) :
  let ideas := IdeaGenerator.fallbackComplementary toLowerCase repos in
  ideas = map (IdeaGenerator.complementaryStrategy toLowerCase) (take 3 repos)
  /\ length ideas = Nat.min 3 (length repos)
  /\ (repos <> [] -> ideas <> [])
  /\ Forall
       (fun idea =>
          exists repo,
            Orchestrator.build_repoMap repos !! originalRepo (summary idea)
            = Some repo
            /\ repo_owner repo +:+ "/" +:+ repo_name repo
               = originalRepo (summary idea))
       ideas.
Proof.
  cbv zeta. unfold IdeaGenerator.fallbackComplementary.
  rewrite fallback_loop_spec. cbn [app].
  split; [reflexivity|]. split; [now rewrite length_map, length_take|].
  split; [destruct repos; [congruence | discriminate]|].
  apply Forall_forall. intros idea Hin.
  apply list_elem_of_In, in_map_iff in Hin as (repo & <- & Hin).
  assert (Hrepo : In repo repos).
  { apply list_elem_of_In. eapply subseteq_take. apply list_elem_of_In, Hin. }
  cbn [IdeaGenerator.complementaryStrategy summary originalRepo].
  fold (repo_key repo). rewrite build_repoMap_last.
  assert (Hf : In repo (List.filter (fun t => String.eqb (repo_key t) (repo_key repo)) repos)).
  { apply List.filter_In. split; [exact Hrepo | apply String.eqb_refl]. }
  destruct (last (List.filter (fun t => String.eqb (repo_key t) (repo_key repo)) repos))
    as [t|] eqn:Hlast.
  - exists t. split; [reflexivity|].
    apply last_Some in Hlast as (l' & Hl').
    assert (Ht : In t (List.filter (fun t => String.eqb (repo_key t) (repo_key repo)) repos)).
    { rewrite Hl'. apply in_or_app. right. now left. }
    apply List.filter_In in Ht as [_ Ht]. now apply String.eqb_eq in Ht.
  - apply last_None in Hlast. rewrite Hlast in Hf. destruct Hf.
Qed.


(** ** The rule-based research decision *)

Lemma filter_length_0 {A} (f : A -> bool) (l : list A) :
  (0 <? length (List.filter f l))%nat = true <-> Exists (fun x => f x = true) l.
Proof.
  rewrite Nat.ltb_lt. induction l as [|x l IH]; cbn.
  - split; [lia | intros H; inversion H].
  - destruct (f x) eqn:Hx; cbn.
    + split; [intros _; now left | lia].
    + rewrite IH. split; [intros H; now right|].
      intros H. inversion H; subst; [congruence | assumption].
Qed.

(** X24.  The rule-based decision recommends ABORT exactly when a risk
    is a blocker, and SHIP exactly when no risk is a blocker, the idea is
    novel, at most one risk is high and the dependency risk is not high;
    otherwise it recommends PIVOT.  A SHIP decision has confidence 85, or
    75 with one high risk, so the floor of 50 never acts, and its
    reasoning is always the one for a novel idea. *)
Theorem heuristicDecision_ships_only_novel_and_low_risk
    (existence : ExistenceCheck) (deps : DependencyReport) (risks : list Risk) :
  let d := ResearchMaster.heuristicDecision existence deps risks in
  let highRisks := length (List.filter ResearchMaster.is_high risks) in
  (decision_recommendation d = ABORT
   <-> Exists (fun r => severity r = severity_blocker) risks)
  /\ (decision_recommendation d = SHIP
      <-> Forall (fun r => severity r <> severity_blocker) risks
          /\ existence_isNovel existence = true
          /\ highRisks <= 1
          /\ overallRisk deps <> risk_high)
  /\ (decision_recommendation d = SHIP ->
      decision_confidence d = (85 - 10 * Z.of_nat highRisks)%Z
      /\ decision_reasoning d = "Novel idea with manageable risks — ship it!")
  /\ (decision_confidence d = 90 \/ decision_confidence d = 70
      \/ decision_confidence d = 65 \/ decision_confidence d = 85
      \/ decision_confidence d = 75)%Z.
Proof.
  cbv zeta. unfold ResearchMaster.heuristicDecision.
  assert (Hblock : forall r, ResearchMaster.is_blocker r = true
                             <-> severity r = severity_blocker).
  { intros r. unfold ResearchMaster.is_blocker.
    destruct (severity r); split; congruence. }
  assert (Hex : Exists (fun r => ResearchMaster.is_blocker r = true) risks
                <-> Exists (fun r => severity r = severity_blocker) risks).
  { split; intros H; (eapply Exists_impl; [exact H|]); intros r; apply Hblock. }
  assert (Hnone : ~ Exists (fun r => severity r = severity_blocker) risks
                  <-> Forall (fun r => severity r <> severity_blocker) risks).
  { rewrite <- Forall_Exists_neg. reflexivity. }
  pose proof (filter_length_0 ResearchMaster.is_blocker risks) as Hb.
  destruct (0 <? length (List.filter ResearchMaster.is_blocker risks))%nat eqn:Hlen.
  { assert (Hyes : Exists (fun r => severity r = severity_blocker) risks)
      by (apply Hex, Hb; reflexivity).
    cbn. repeat split; try discriminate; try tauto. }
  assert (Hno : ~ Exists (fun r => severity r = severity_blocker) risks).
  { intros H. apply Hex, Hb in H. discriminate. }
  pose proof (proj1 Hnone Hno) as Hall.
  destruct (existence_isNovel existence); cbn [negb].
  2:{ cbn. repeat split; try discriminate; try tauto. }
  set (n := length (List.filter ResearchMaster.is_high risks)).
  destruct (1 <? n)%nat eqn:Hn; cbn [orb].
  { apply Nat.ltb_lt in Hn. cbn.
    repeat split; try discriminate; try tauto. intros (_ & _ & H & _). lia. }
  apply Nat.ltb_ge in Hn.
  assert (Hconf : Z.max 50 (85 - Z.of_nat n * 10) = (85 - 10 * Z.of_nat n)%Z) by lia.
  destruct (overallRisk deps) eqn:Hrisk; cbn [decision_recommendation
    decision_confidence decision_reasoning].
  - split; [split; [discriminate | tauto]|].
    split; [split; [intros _; repeat split; [assumption | lia | discriminate]
                   | reflexivity]|].
    split; [intros _; split; [exact Hconf | reflexivity]|].
    rewrite Hconf. destruct n as [|[|n]]; [tauto | tauto | lia].
  - split; [split; [discriminate | tauto]|].
    split; [split; [intros _; repeat split; [assumption | lia | discriminate]
                   | reflexivity]|].
    split; [intros _; split; [exact Hconf | reflexivity]|].
    rewrite Hconf. destruct n as [|[|n]]; [tauto | tauto | lia].
  - split; [split; [discriminate | tauto]|].
    split; [split; [discriminate | intros (_ & _ & _ & H); congruence]|].
    split; [discriminate|]. tauto.
Qed.

Lemma identifyRisks_high (E : Env) (idea : DetailedIdea) (deps : DependencyReport) :
  length (List.filter ResearchMaster.is_high
            (ResearchMaster.identifyRisks E idea deps))
  = (if IdeaGenerator.is_complex (complexity idea) then 1 else 0)
    + match overallRisk deps with
      | risk_high => 1
      | _ => 0
      end.
Proof.
  unfold ResearchMaster.identifyRisks.
  destruct (negb (Qle_bool (estimatedHours idea) 6));
    destruct (IdeaGenerator.is_complex (complexity idea));
    destruct (overallRisk deps);
    destruct (IdeaGenerator.many_musts idea); reflexivity.
Qed.

Lemma identifyRisks_severity (E : Env) (idea : DetailedIdea) (deps : DependencyReport) :
  Forall (fun r => severity r = severity_medium \/ severity r = severity_high)
    (ResearchMaster.identifyRisks E idea deps).
Proof.
  unfold ResearchMaster.identifyRisks.
  destruct (negb (Qle_bool (estimatedHours idea) 6));
    destruct (IdeaGenerator.is_complex (complexity idea));
    destruct (overallRisk deps);
    destruct (IdeaGenerator.many_musts idea);
    cbn [app];
    repeat first [apply List.Forall_nil | apply List.Forall_cons; [cbn; auto|]].
Qed.

(** X25.  On the risks [identifyRisks] finds, the rule-based decision
    never recommends ABORT: those risks are of medium or high severity,
    never blockers.  It recommends SHIP exactly when the idea is novel
    and the dependency risk is not high, with confidence 75 for a complex
    idea and 85 otherwise, and PIVOT in every other case. *)
Theorem heuristic_on_identified_risks_never_aborts
    (E : Env) (idea : DetailedIdea) (existence : ExistenceCheck)
    (deps : DependencyReport) :
  let risks := ResearchMaster.identifyRisks E idea deps in
  let d := ResearchMaster.heuristicDecision existence deps risks in
  Forall (fun r => severity r = severity_medium \/ severity r = severity_high) risks
  /\ length risks <= 4
  /\ decision_recommendation d <> ABORT
  /\ (decision_recommendation d = SHIP
      <-> existence_isNovel existence = true /\ overallRisk deps <> risk_high)
  /\ (decision_recommendation d = SHIP ->
      decision_confidence d
      = if IdeaGenerator.is_complex (complexity idea) then 75%Z else 85%Z).
Proof.
  cbv zeta. split; [apply identifyRisks_severity|]. split.
  { unfold ResearchMaster.identifyRisks.
    destruct (negb (Qle_bool (estimatedHours idea) 6));
      destruct (IdeaGenerator.is_complex (complexity idea));
      destruct (overallRisk deps);
      destruct (IdeaGenerator.many_musts idea); cbn; lia. }
  unfold ResearchMaster.heuristicDecision.
  assert (Hb : List.filter ResearchMaster.is_blocker
                 (ResearchMaster.identifyRisks E idea deps) = []).
  { apply filter_none. intros r Hr.
    pose proof (identifyRisks_severity E idea deps) as Hs.
    rewrite Forall_forall in Hs. apply list_elem_of_In in Hr.
    unfold ResearchMaster.is_blocker.
    destruct (Hs r Hr) as [-> | ->]; reflexivity. }
  rewrite Hb, identifyRisks_high. cbn [length Nat.ltb Nat.leb].
  destruct (existence_isNovel existence);
    destruct (IdeaGenerator.is_complex (complexity idea));
    destruct (overallRisk deps); cbn;
    repeat split; try discriminate; try tauto; try congruence;
    try (intros [H1 H2]; congruence).
Qed.


(** ** The trend scout *)

Lemma insert_by_potential_perm x l :
  Permutation (TrendScout.insert_by_potential x l) (x :: l).
Proof.
  induction l as [|y l IH]; cbn; [reflexivity|].
  destruct (ideaPotential x <? ideaPotential y)%Z; [|reflexivity].
  rewrite IH. apply perm_swap.
Qed.

Lemma insert_by_potential_sorted x l :
  StronglySorted (fun a b => (ideaPotential b <= ideaPotential a)%Z) l ->
  StronglySorted (fun a b => (ideaPotential b <= ideaPotential a)%Z)
    (TrendScout.insert_by_potential x l).
Proof.
  induction 1 as [|y l Hs IH Hy]; cbn; [repeat constructor|].
  destruct (ideaPotential x <? ideaPotential y)%Z eqn:Hxy.
  - apply Z.ltb_lt in Hxy. constructor; [exact IH|].
    rewrite insert_by_potential_perm. constructor; [lia | exact Hy].
  - apply Z.ltb_ge in Hxy. constructor; [now constructor|].
    constructor; [exact Hxy|].
    eapply Forall_impl; [exact Hy|]. intros z Hz. cbn in Hz. lia.
Qed.

Lemma insert_by_potential_stable (p : Z) x l :
  List.filter (fun r => (ideaPotential r =? p)%Z) (TrendScout.insert_by_potential x l)
  = List.filter (fun r => (ideaPotential r =? p)%Z) (x :: l).
Proof.
  induction l as [|y l IH]; [reflexivity|]. cbn [TrendScout.insert_by_potential].
  destruct (ideaPotential x <? ideaPotential y)%Z eqn:Hxy; [|reflexivity].
  apply Z.ltb_lt in Hxy. cbn [List.filter] in *. rewrite IH.
  destruct (ideaPotential x =? p)%Z eqn:Hx; [|reflexivity].
  apply Z.eqb_eq in Hx.
  destruct (ideaPotential y =? p)%Z eqn:Hy; [|reflexivity].
  apply Z.eqb_eq in Hy. lia.
Qed.

Lemma rankByPotential_sorted repos :
  StronglySorted (fun a b => (ideaPotential b <= ideaPotential a)%Z)
    (TrendScout.rankByPotential repos).
Proof.
  induction repos as [|x l IH]; cbn; [constructor|].
  now apply insert_by_potential_sorted.
Qed.

Lemma rankByPotential_perm repos :
  Permutation (TrendScout.rankByPotential repos) repos.
Proof.
  induction repos as [|x l IH]; cbn; [reflexivity|].
  rewrite insert_by_potential_perm. now constructor.
Qed.

(** X26.  [rankByPotential] returns the repos it is given, each as often
    as it came, ordered by descending idea potential; repos of equal
    potential keep the order they came in. *)
Theorem rankByPotential_sorts_by_descending_potential (repos : list AnalyzedRepo) :
  let ranked := TrendScout.rankByPotential repos in
  Permutation ranked repos
  /\ StronglySorted (fun a b => (ideaPotential b <= ideaPotential a)%Z) ranked
  /\ forall p,
       List.filter (fun r => (ideaPotential r =? p)%Z) ranked
       = List.filter (fun r => (ideaPotential r =? p)%Z) repos.
Proof.
  cbv zeta. split; [apply rankByPotential_perm|].
  split; [apply rankByPotential_sorted|].
  intros p. induction repos as [|x l IH]; [reflexivity|].
  cbn [TrendScout.rankByPotential foldr].
  rewrite insert_by_potential_stable. cbn [List.filter].
  fold (TrendScout.rankByPotential l). now rewrite IH.
Qed.

Lemma calculateIdeaPotential_range (toLowerCase : string -> string)
    (repo : RepoDetails) :
  (35 <= TrendScout.calculateIdeaPotential toLowerCase repo <= 100)%Z
  /\ ((size repo <= 10000)%Z ->
      (50 <= TrendScout.calculateIdeaPotential toLowerCase repo)%Z).
Proof.
  unfold TrendScout.calculateIdeaPotential. cbv zeta.
  set (description := toLowerCase _).
  set (big := (10000 <? size repo)%Z).
  assert (Hbig : (size repo <= 10000)%Z -> big = false)
    by (intros H; apply Z.ltb_ge; exact H).
  repeat match goal with
         | |- context [if ?b then (?s + ?k)%Z
                       else if ?c then (?s + ?j)%Z else ?s] =>
             let d := fresh "d" in
             let H := fresh "H" in
             assert (H : exists d,
                        (if b then (s + k)%Z else if c then (s + j)%Z else s)
                        = (s + d)%Z /\ (0 <= d <= k)%Z)
               by (destruct b; [exists k | destruct c; [exists j | exists 0%Z]];
                   lia);
             destruct H as (d & -> & ?)
         | |- context [if ?b then (?s + ?k)%Z else ?s] =>
             let d := fresh "d" in
             let H := fresh "H" in
             assert (H : exists d, (if b then (s + k)%Z else s) = (s + d)%Z
                                   /\ (0 <= d <= k)%Z)
               by (destruct b; [exists k | exists 0%Z]; lia);
             destruct H as (d & -> & ?)
         end.
  destruct big; [|split; [lia | intros _; lia]].
  split; [lia|]. intros Hsmall. specialize (Hbig Hsmall). discriminate.
Qed.

(** X27.  The idea potential the scout computes lies between 35 and
    100, and is at least 50 unless the repo is larger than 10000: the
    lower clamp never acts.  The scout always names at least one idea
    surface, and the general one only when no keyword matched; the
    explanation of the score is never empty. *)
Theorem idea_potential_lies_between_35_and_100
    (toLowerCase : string -> string) (repo : RepoDetails) :
  let score := TrendScout.calculateIdeaPotential toLowerCase repo in
  let surfaces := TrendScout.detectIdeaSurfaces toLowerCase repo in
  (35 <= score <= 100)%Z
  /\ ((size repo <= 10000)%Z -> (50 <= score)%Z)
  /\ surfaces <> []
  /\ (In "general-derivative" surfaces <-> surfaces = ["general-derivative"])
  /\ TrendScout.explainScore repo score <> EmptyString.
Proof.
  cbv zeta. destruct (calculateIdeaPotential_range toLowerCase repo) as [H1 H2].
  split; [exact H1|]. split; [exact H2|].
  assert (Hsurf : exists parts,
             TrendScout.detectIdeaSurfaces toLowerCase repo
             = (if (length parts =? 0)%nat then parts ++ ["general-derivative"]
                else parts)
             /\ ~ In "general-derivative" parts).
  { unfold TrendScout.detectIdeaSurfaces. cbv zeta.
    set (desc := toLowerCase _).
    eexists. split; [reflexivity|].
    generalize (includes desc "framework"),
      (includes desc "cli" || includes desc "command"),
      (includes desc "library" || includes desc "lib"),
      (includes desc "api"), (includes desc "tool" || includes desc "utility").
    intros b1 b2 b3 b4 b5 Hin.
    destruct b1, b2, b3, b4, b5; cbn in Hin;
      repeat (destruct Hin as [Hin|Hin]; [discriminate Hin|]); exact Hin. }
  destruct Hsurf as (parts & -> & Hparts).
  split; [|split].
  - destruct parts; cbn; discriminate.
  - destruct parts as [|x parts]; cbn.
    + split; [reflexivity | intros _; now left].
    + split; [intros H; contradiction|].
      intros [= -> ->]. exfalso. apply Hparts. now left.
  - unfold TrendScout.explainScore. cbv zeta.
    destruct (String.eqb _ EmptyString) eqn:Heq; [discriminate|].
    now apply String.eqb_neq in Heq.
Qed.

Lemma fetch_spec (gh : GitHub) (languages : list string) :
  forall periods repos calls,
  exists asked,
    snd (TrendScout.fetch gh periods languages repos calls)
    = calls ++ map (fun p => GetTrending p languages) asked
    /\ asked `prefix_of` periods
    /\ (periods <> [] -> asked <> [])
    /\ (forall k p, asked !! k = Some p -> S k < length asked ->
          github_getTrending gh (length calls + k) p languages = Ok [])
    /\ (forall p, last asked = Some p ->
          github_getTrending gh (length calls + (length asked - 1)) p languages
          = Ok [] ->
          asked = periods)
    /\ match fst (TrendScout.fetch gh periods languages repos calls) with
       | Throw e => exists i p, github_getTrending gh i p languages = Throw e
       | Ok found =>
           asked = periods \/ found <> []
       end.
Proof.
  induction periods as [|period rest IH]; intros repos calls;
    cbn [TrendScout.fetch].
  - exists []. cbn. rewrite app_nil_r.
    split; [reflexivity|]. split; [reflexivity|]. split; [auto|].
    split; [intros k p Hk; discriminate Hk|].
    split; [intros p Hp; discriminate Hp | now left].
  - destruct (github_getTrending gh (length calls) period languages)
      as [found|e] eqn:Hget.
    + destruct (0 <? length found)%nat eqn:Hlen.
      * exists [period]. cbn [map snd fst length].
        split; [reflexivity|]. split; [now apply prefix_cons, prefix_nil|].
        split; [discriminate|].
        split; [intros k p _ Hk; cbn in Hk; lia|].
        split.
        -- intros p [= <-]. rewrite Nat.add_0_r, Hget. intros [= ->].
           discriminate Hlen.
        -- right. destruct found; [discriminate Hlen | discriminate].
      * destruct found; [|discriminate Hlen].
        destruct (IH [] (calls ++ [GetTrending period languages]))
          as (asked & Hcalls & Hpre & Hne & Hempty & Hlast & Hres).
        rewrite length_app in Hempty, Hlast. cbn [length] in Hempty, Hlast.
        exists (period :: asked). rewrite Hcalls, <- app_assoc.
        split; [reflexivity|]. split; [now apply prefix_cons|].
        split; [discriminate|]. split; [|split].
        -- intros [|k] p Hk Hlt; cbn in Hk, Hlt.
           ++ injection Hk as <-. now rewrite Nat.add_0_r.
           ++ replace (length calls + S k) with (length calls + 1 + k) by lia.
              apply Hempty; [exact Hk | lia].
        -- intros p Hp Hlisting. f_equal.
           destruct asked as [|q asked'].
           ++ destruct rest; [reflexivity|]. now destruct Hne.
           ++ apply (Hlast p); [exact Hp|].
              cbn [length] in Hlisting |- *.
              replace (length calls + 1 + (S (length asked') - 1))
                with (length calls + (S (S (length asked')) - 1)) by lia.
              exact Hlisting.
        -- destruct (fst (TrendScout.fetch gh rest languages [] _)); [|exact Hres].
           destruct Hres as [->|H]; [now left | now right].
    + exists [period]. cbn [map snd fst length].
      split; [reflexivity|]. split; [now apply prefix_cons, prefix_nil|].
      split; [discriminate|].
      split; [intros k p _ Hk; cbn in Hk; lia|].
      split; [|eauto].
      intros p [= <-]. rewrite Nat.add_0_r, Hget. discriminate.
Qed.

Lemma analyzeRepo_spec (toLowerCase : string -> string) (gh : GitHub)
    (url : string) (calls : list GitHubCall) :
  exists made,
    snd (TrendScout.analyzeRepo toLowerCase gh url calls) = calls ++ made
    /\ Forall is_details_call made
    /\ length made <= 1
    /\ match fst (TrendScout.analyzeRepo toLowerCase gh url calls) with
       | Ok a => (35 <= ideaPotential a <= 100)%Z
       | Throw _ => True
       end.
Proof.
  unfold TrendScout.analyzeRepo.
  destruct (match_github_url url) as [[owner repo]|].
  - destruct (github_getRepoDetails gh (length calls) owner repo) as [details|e];
      exists [GetRepoDetails owner repo]; cbn;
      (split; [reflexivity|]); (split; [repeat constructor|]);
      (split; [lia|]); [|exact I].
    apply calculateIdeaPotential_range.
  - exists []. cbn. rewrite app_nil_r. repeat split; [constructor | lia].
Qed.

Lemma analyze_all_spec (toLowerCase : string -> string) (gh : GitHub) :
  forall candidates done calls,
  exists more made,
    TrendScout.analyze_all toLowerCase gh candidates done calls
    = (Ok (done ++ more), calls ++ made)
    /\ Forall is_details_call made
    /\ length made <= length candidates
    /\ Forall (fun a => (35 <= ideaPotential a <= 100)%Z) more.
Proof.
  induction candidates as [|repo rest IH]; intros done calls;
    cbn [TrendScout.analyze_all].
  - exists [], []. rewrite !app_nil_r. repeat split; constructor.
  - destruct (analyzeRepo_spec toLowerCase gh (raw_url repo) calls)
      as (made1 & Hcalls & Hmade1 & Hlen1 & Hres).
    destruct (TrendScout.analyzeRepo toLowerCase gh (raw_url repo) calls)
      as [[a|e] calls1]; cbn [fst snd] in Hcalls, Hres; subst calls1.
    + destruct (IH (done ++ [a]) (calls ++ made1))
        as (more & made & Hl & Hmade & Hlen & Hmore).
      exists (a :: more), (made1 ++ made).
      rewrite Hl, <- !app_assoc. split; [reflexivity|].
      split; [now apply Forall_app|].
      split; [rewrite length_app; cbn; lia|]. now constructor.
    + destruct (IH done (calls ++ made1))
        as (more & made & Hl & Hmade & Hlen & Hmore).
      exists more, (made1 ++ made).
      rewrite Hl, <- !app_assoc. split; [reflexivity|].
      split; [now apply Forall_app|].
      split; [rewrite length_app; cbn; lia | exact Hmore].
Qed.

Lemma StronglySorted_take {A} (R : A -> A -> Prop) (n : nat) (l : list A) :
  StronglySorted R l -> StronglySorted R (take n l).
Proof.
  intros H. revert n. induction H as [|x l Hs IH Hx]; intros [|n]; cbn;
    try constructor; [apply IH|].
  rewrite Forall_forall in *. intros y Hy. apply Hx.
  eapply subseteq_take. exact Hy.
Qed.

(** X28.  [scoutTrends] asks GitHub for the requested period and widens
    it only while a period has no result: the periods asked are a
    non-empty prefix of daily, weekly, monthly (for a daily request),
    the listing of every period but the last one asked was empty, and
    when the listing of the last one asked was empty too there was no
    wider period left.  It then looks up the details of at most ten repos.  Only a failed
    listing makes it fail; a failed analysis just drops the repo.  What
    it returns are at most five repos, by descending idea potential, each
    with a potential between 35 and 100. *)
Theorem scoutTrends_returns_at_most_five_ranked_repos
    (toLowerCase : string -> string) (gh : GitHub) (options : ScoutOptions)
    (calls : list GitHubCall) :
  let result := TrendScout.scoutTrends toLowerCase gh options calls in
  (exists asked analysed,
      snd result
      = calls ++ map (fun p => GetTrending p (language options)) asked ++ analysed
      /\ asked <> []
      /\ asked `prefix_of` TrendScout.periods_for (period options)
      /\ (forall k p, asked !! k = Some p -> S k < length asked ->
            github_getTrending gh (length calls + k) p (language options)
            = Ok [])
      /\ (forall p, last asked = Some p ->
            github_getTrending gh (length calls + (length asked - 1)) p
              (language options) = Ok [] ->
            asked = TrendScout.periods_for (period options))
      /\ Forall is_details_call analysed
      /\ length analysed <= 10)
  /\ match fst result with
     | Ok repos =>
         length repos <= 5
         /\ StronglySorted (fun a b => (ideaPotential b <= ideaPotential a)%Z) repos
         /\ Forall (fun a => (35 <= ideaPotential a <= 100)%Z) repos
     | Throw e =>
         exists i p, github_getTrending gh i p (language options) = Throw e
     end
  /\ TrendScout.periods_for "daily" = ["daily"; "weekly"; "monthly"].
Proof.
  cbv zeta. unfold TrendScout.scoutTrends.
  destruct (fetch_spec gh (language options)
              (TrendScout.periods_for (period options)) [] calls)
    as (asked & Hcalls & Hpre & Hne & Hempty & Hlast & Hres).
  destruct (TrendScout.fetch gh _ (language options) [] calls)
    as [[repos|e] calls1]; cbn [fst snd] in Hcalls, Hres; subst calls1.
  2:{ split; [|split; [exact Hres | reflexivity]].
      exists asked, []. cbn [fst snd]. rewrite app_nil_r.
      split; [reflexivity|]. split; [apply Hne; discriminate|].
      split; [exact Hpre|]. split; [exact Hempty|]. split; [exact Hlast|].
      split; [constructor | cbn; lia]. }
  destruct (analyze_all_spec toLowerCase gh
              (take 10 (List.filter (TrendScout.passes options) repos)) []
              (calls ++ map (fun p => GetTrending p (language options)) asked))
    as (more & made & Hl & Hmade & Hlen & Hmore).
  rewrite Hl. cbn [app fst snd]. split; [|split; [|reflexivity]].
  - exists asked, made. rewrite <- app_assoc. split; [reflexivity|].
    split; [apply Hne; discriminate|]. split; [exact Hpre|].
    split; [exact Hempty|]. split; [exact Hlast|].
    split; [exact Hmade|]. rewrite length_take in Hlen. lia.
  - split; [rewrite length_take; lia|]. split.
    + apply StronglySorted_take, rankByPotential_sorted.
    + rewrite Forall_forall. intros a Ha.
      apply subseteq_take in Ha.
      rewrite rankByPotential_perm in Ha.
      rewrite Forall_forall in Hmore. now apply Hmore.
Qed.


(** ** The announcer *)

Lemma composeTweetText_length
    (templates : TweetTemplates.TweetStyle -> TweetTemplates.TweetData -> JsText)
    style data :
  length (TweetTemplates.composeTweetText templates style data) <= 280.
Proof.
  unfold TweetTemplates.composeTweetText. cbv zeta.
  destruct (length (templates style data) <=? 280)%nat eqn:Hlen.
  - now apply Nat.leb_le in Hlen.
  - apply Nat.leb_gt in Hlen. rewrite length_app, length_take.
    change (length (units "...")) with 3. lia.
Qed.

Section Announcer.
Variable templates :
  TweetTemplates.TweetStyle -> TweetTemplates.TweetData -> JsText.
Variables (hour : Z) (random : Q) (toLowerCase : JsText -> JsText).
Variable fakeId : string.
Variable idea_complexity : GeneratedIdea -> Complexity.
Variable totalHours : ImplementationResult -> Q.

Lemma announce_cases deployment idea implementation :
  TwitterAnnouncer.announce templates hour random toLowerCase fakeId
    idea_complexity totalHours deployment (Some idea) implementation
  = Ok TwitterAnnouncer.failed_tweet
  \/ exists d i text,
       deployment = Some d /\ implementation = Some i
       /\ text
          = TweetTemplates.composeTweetText templates
              (TweetTemplates.selectTweetStyle hour random (slopFactor idea)
                 (idea_complexity idea))
              {| TweetTemplates.data_name := idea_name idea;
                 TweetTemplates.data_description := tagline idea;
                 TweetTemplates.githubUrl := repoUrl d;
                 TweetTemplates.hours := totalHours i;
                 TweetTemplates.data_originalRepo := originalRepo idea;
                 TweetTemplates.data_strategy := strategy idea |}
       /\ TwitterAnnouncer.validateTweet toLowerCase text = true
       /\ TwitterAnnouncer.announce templates hour random toLowerCase fakeId
            idea_complexity totalHours deployment (Some idea) implementation
          = Ok {| tweet_success := true;
                  tweetUrl :=
                    Some ("https://twitter.com/dev/null/status/" +:+ fakeId) |}.
Proof.
  unfold TwitterAnnouncer.announce. cbv zeta.
  destruct deployment as [d|]; [|now left].
  destruct implementation as [i|]; [|now left].
  destruct (TwitterAnnouncer.validateTweet toLowerCase _) eqn:Hv; [|now left].
  right. exists d, i. eexists. repeat split. exact Hv.
Qed.

(** X29.  Given an idea, [announce] never rejects.  It reports success
    only when it was handed a deployment and an implementation and the
    composed text passed the checks: the text then holds a GitHub or a
    dry-run URL and none of the banned words.  A composed text never
    exceeds 280 code units, so the length check never rejects.  Without
    a deployment the answer is always a failure with no tweet URL. *)
Theorem announce_never_rejects_and_needs_a_deployment
    (deployment : option DeploymentResult) (idea : GeneratedIdea)
    (implementation : option ImplementationResult) :
  let announce :=
    TwitterAnnouncer.announce templates hour random toLowerCase fakeId
      idea_complexity totalHours in
  (exists result, announce deployment (Some idea) implementation = Ok result
     /\ (tweet_success result = true ->
         exists d i text,
           deployment = Some d /\ implementation = Some i
           /\ text
              = TweetTemplates.composeTweetText templates
                  (TweetTemplates.selectTweetStyle hour random (slopFactor idea)
                     (idea_complexity idea))
                  {| TweetTemplates.data_name := idea_name idea;
                     TweetTemplates.data_description := tagline idea;
                     TweetTemplates.githubUrl := repoUrl d;
                     TweetTemplates.hours := totalHours i;
                     TweetTemplates.data_originalRepo := originalRepo idea;
                     TweetTemplates.data_strategy := strategy idea |}
           /\ (text_includes text (units "github.com") = true
               \/ text_includes text (units "twitter.com/dryrun") = true)
           /\ Forall (fun word => text_includes (toLowerCase text) word = false)
                (TwitterAnnouncer.banned)
           /\ tweetUrl result
              = Some ("https://twitter.com/dev/null/status/" +:+ fakeId))
     /\ (tweet_success result = false -> tweetUrl result = None))
  /\ announce None (Some idea) implementation = Ok TwitterAnnouncer.failed_tweet
  /\ announce deployment (Some idea) None = Ok TwitterAnnouncer.failed_tweet
  /\ forall style data,
       length (TweetTemplates.composeTweetText templates style data) <= 280.
Proof.
  cbv zeta. split; [|split; [reflexivity|split]].
  - destruct (announce_cases deployment idea implementation)
      as [->|(d & i & text & -> & -> & Htext & Hv & ->)].
    + eexists. split; [reflexivity|]. split; [discriminate | reflexivity].
    + eexists. split; [reflexivity|]. split; [|discriminate].
      intros _. exists d, i, text. split; [reflexivity|]. split; [reflexivity|].
      split; [exact Htext|].
      unfold TwitterAnnouncer.validateTweet in Hv.
      destruct (280 <? length text)%nat; [discriminate|].
      destruct (negb (text_includes text (units "github.com"))
                && negb (text_includes text (units "twitter.com/dryrun")))
        eqn:Hurl; [discriminate|].
      destruct (existsb _ TwitterAnnouncer.banned) eqn:Hban; [discriminate|].
      split; [|split; [|reflexivity]].
      * apply andb_false_iff in Hurl as [H|H]; apply negb_false_iff in H; auto.
      * apply Forall_forall. intros word Hword.
        destruct (text_includes (toLowerCase text) word) eqn:Hw; [|reflexivity].
        assert (Hex : existsb (fun word => text_includes (toLowerCase text) word)
                        TwitterAnnouncer.banned = true).
        { apply existsb_exists. exists word.
          split; [now apply list_elem_of_In | exact Hw]. }
        congruence.
  - unfold TwitterAnnouncer.announce. cbv zeta. now destruct deployment.
  - intros style data. apply composeTweetText_length.
Qed.

(** X30.  With the deployment skipped and the announcement not, a run
    whose announcer is [announce] can never tweet.  The five phases
    having returned with a selected idea that has the fields of the
    declared type, the announcer is called without a deployment and
    answers with a failure; the run stores that answer, logs the
    non-fatal warning and still reports success, with no repo URL and no
    tweet URL. *)
Theorem skipped_deployment_can_never_tweet
    (E : Env) (config : Config) (w0 w1 : World) :
  dryRun config = false ->
  skipGithub config = true ->
  skipTwitter config = false ->
  deployment (st w0) = None ->
  (forall i d v idea impl,
      declared v = Some idea ->
      announcer_announce E i d (Some v) impl
      = SettlesInTime
          (Orchestrator.settle_of
             (TwitterAnnouncer.announce templates hour random toLowerCase fakeId
                idea_complexity totalHours d (Some idea) impl))) ->
  Orchestrator.core_phases E w0 = (Ok tt, w1) ->
  (forall v, selectedIdea (st w1) = Some v -> is_Some (declared v)) ->
  let r := fst (Orchestrator.run E config w0) in
  let wf := snd (Orchestrator.run E config w0) in
  success r = true
  /\ announcement (result_state r) = Some TwitterAnnouncer.failed_tweet
  /\ result_tweetUrl r = None
  /\ result_repoUrl r = None
  /\ In tweet_failure_line (logs wf)
  /\ exists idea impl,
       new_calls w1 wf = [CallAnnounce None (Some idea) (Some impl)].
Proof.
  intros Hdry Hgit Htw Hnone Hann Hcore Hdecl.
  destruct (core_phases_Ok E w0 w1 Hcore)
    as (found & candidates & idea & report & result & _ & _ & _ & _ & _ & _
        & Hsel & _ & Himpl & Hdep & _).
  rewrite Hnone in Hdep. destruct (Hdecl idea Hsel) as [typed Htyped].
  set (w2 := snd (log LWarn "⏭️  Skipping deployment (SKIP_GITHUB=true)" w1)).
  assert (Hres : announcer_announce E (length (trace w2)) (deployment (st w2))
                   (selectedIdea (st w2)) (implementation (st w2))
                 = SettlesInTime (Resolves TwitterAnnouncer.failed_tweet)).
  { unfold w2. cbn [log snd st]. rewrite Hdep, Hsel.
    rewrite (Hann _ _ _ typed _ Htyped). reflexivity. }
  destruct (phase6_resolved E w2 _ Hres) as (w3 & Hp6 & Hs3 & Ht3 & Hl3).
  destruct (save_spec E (st w3) w3) as (w4 & Hsave & Hs4 & Ht4 & Hd4).
  assert (Hpipe : Orchestrator.pipeline E config w0 = (Ok tt, w4)).
  { assert (Heq : Orchestrator.pipeline E config w0
                  = (do! Orchestrator.phase6_Announce E in
                     Orchestrator.saveState E) w2).
    { unfold Orchestrator.pipeline. rewrite (bind_Ok _ _ _ _ _ Hcore), Hdry.
      unfold Orchestrator.deploy_step, Orchestrator.announce_step.
      rewrite Hgit, Htw. reflexivity. }
    rewrite Heq, (bind_Ok _ _ _ _ _ Hp6).
    unfold Orchestrator.saveState, bind, get_state. exact Hsave. }
  cbv zeta. rewrite (run_Ok _ _ _ _ Hpipe).
  cbn [fst snd success result_state result_tweetUrl result_repoUrl].
  rewrite Hs4, Hs3. cbn. rewrite Hdep.
  split; [reflexivity|]. split; [reflexivity|]. split; [reflexivity|].
  split; [reflexivity|]. split.
  - assert (Hin : In tweet_failure_line (logs w3)).
    { rewrite Hl3. apply in_or_app. right. now left. }
    destruct (fs_mkdir E (fs_ops w3)); [|destruct (fs_writeFile E (S (fs_ops w3)))];
      destruct Hd4 as [_ ->]; try exact Hin; apply in_or_app; now left.
  - exists idea, result. unfold new_calls. rewrite Ht4, Ht3.
    unfold w2. cbn [log snd st trace]. rewrite Hdep, Hsel, Himpl.
    apply drop_app_length.
Qed.
End Announcer.


(** ** The further properties at the scenario *)

(** No closing brace follows the opening one. *)
Lemma match_braces_spans_first_open_to_last_close_witness :
  match_braces "} before {" = None
  /\ has_char "}" EmptyString = false.
Proof.
  split; [reflexivity|].
  pose proof (match_braces_spans_first_open_to_last_close "} before {") as H.
  cbn in H. apply (H "} before " EmptyString). reflexivity.
Defined.

(** The scout finds nothing. *)
Lemma no_trends_fails_the_run_witness :
  let r := fst (Orchestrator.run Fixture.no_trends Sample.live Sample.start) in
  success r = false
  /\ result_error r = Some "No suitable trends found"
  /\ currentPhase (result_state r) = "scout-trends".
Proof.
  destruct (no_trends_fails_the_run Fixture.no_trends Sample.live Sample.start
              eq_refl) as (H1 & H2 & H3 & _).
  split; [exact H1|]. split; [exact H2 | exact H3].
Defined.

(** The generator finds nothing. *)
Lemma no_ideas_fails_the_run_witness :
  let r := fst (Orchestrator.run Fixture.no_ideas Sample.live Sample.start) in
  trends (st (Fixture.after_scout Fixture.no_ideas)) = Some [Sample.widget]
  /\ success r = false
  /\ result_error r = Some "No viable ideas generated".
Proof.
  assert (Hreach : reaches_generation Fixture.no_ideas Sample.start
                     (Fixture.after_scout Fixture.no_ideas))
    by (vm_compute; reflexivity).
  destruct (no_ideas_fails_the_run Fixture.no_ideas Sample.live Sample.start
              (Fixture.after_scout Fixture.no_ideas) Hreach) as [_ Hfail].
  split; [vm_compute; reflexivity|].
  destruct (Hfail eq_refl) as (H1 & H2 & _). split; [exact H1 | exact H2].
Defined.

(** The implementer returns a failed build. *)
Lemma failed_implementation_fails_the_run_witness :
  let r := fst (Orchestrator.run Fixture.broken_build Sample.live Sample.start) in
  success r = false
  /\ result_error r = Some "Implementation failed"
  /\ implementation (result_state r) = None.
Proof.
  assert (Hreach : reaches_implement Fixture.broken_build Sample.start
                     (Fixture.after_research Fixture.broken_build)).
  { exists (Fixture.after_judging Fixture.broken_build). split.
    - exists (Fixture.after_generation Fixture.broken_build). split.
      + vm_compute. reflexivity.
      + vm_compute. reflexivity.
    - vm_compute. reflexivity. }
  destruct (failed_implementation_fails_the_run Fixture.broken_build Sample.live
              Sample.start (Fixture.after_research Fixture.broken_build)
              Fixture.broken Hreach) as [_ Himpl].
  destruct (Himpl eq_refl) as [Hfailed _].
  destruct (Hfailed eq_refl) as (H1 & H2 & _ & H4).
  split; [exact H1|]. split; [exact H2|]. rewrite H4. vm_compute. reflexivity.
Defined.

(** A live run with the deployment skipped. *)
Lemma skip_flags_keep_the_oracle_out_witness :
  Forall (fun c => ~ is_deploy_call c)
    (new_calls Sample.start
       (snd (Orchestrator.run Sample.happy Fixture.no_github Sample.start))).
Proof.
  apply (skip_flags_keep_the_oracle_out Sample.happy Fixture.no_github Sample.start).
  reflexivity.
Defined.

(** The happy run of the scenario. *)
Lemma successful_run_went_through_every_phase_witness :
  let r := fst (Orchestrator.run Sample.happy Sample.live Sample.start) in
  exists idea report,
    result_idea r = Some idea
    /\ research (result_state r) = Some report
    /\ recommendation report = SHIP.
Proof.
  destruct (successful_run_went_through_every_phase Sample.happy Sample.live
              Sample.start)
    as (found & candidates & idea & report & result & _ & _ & _ & _ & _ & Hi
        & Hr & Hs & _).
  - vm_compute. reflexivity.
  - exists idea, report. split; [exact Hi|]. split; [exact Hr | exact Hs].
Defined.

(** The scenario's file system never fails. *)
Lemma state_file_holds_the_returned_state_witness :
  disk (snd (Orchestrator.run Sample.happy Sample.live Sample.start))
  = Some (result_state (fst (Orchestrator.run Sample.happy Sample.live Sample.start))).
Proof.
  apply state_file_holds_the_returned_state; intros i; reflexivity.
Defined.

Lemma skipped_deployment_announces_without_it_witness :
  exists idea result,
    new_calls (snd (Orchestrator.core_phases Sample.happy Sample.start))
      (snd (Orchestrator.run Sample.happy Fixture.no_github Sample.start))
    = [CallAnnounce None (Some idea) (Some result)].
Proof.
  destruct (skipped_deployment_announces_without_it Sample.happy Fixture.no_github
              Sample.start (snd (Orchestrator.core_phases Sample.happy Sample.start)))
    as (idea & result & _ & _ & Hcalls & _).
  - reflexivity.
  - reflexivity.
  - reflexivity.
  - reflexivity.
  - vm_compute. reflexivity.
  - exists idea, result. exact Hcalls.
Defined.

(** Of three ideas the first round approves two: the distinct one and
    the one whose source is unknown. *)
Lemma first_round_approval_ends_the_judging_witness :
  ideas (st (snd (Orchestrator.phase2b_JudgeIdeas Sample.happy Fixture.mixed)))
  = Some [Sample.gizmo; Sample.orphan].
Proof.
  destruct (first_round_approval_ends_the_judging Sample.happy Fixture.mixed
              [Sample.clone; Sample.gizmo; Sample.orphan]
              [Sample.gizmo; Sample.orphan]
              (Fixture.round1_rejected Sample.happy Fixture.mixed)
              (snd (Fixture.round1 Sample.happy Fixture.mixed)))
    as (Hout & _).
  - reflexivity.
  - vm_compute. reflexivity.
  - discriminate.
  - destruct (JS.map (Orchestrator.rejection_line Sample.happy)
                (Fixture.round1_rejected Sample.happy Fixture.mixed)) eqn:Hlines.
    + exact (proj2 Hout).
    + vm_compute in Hlines. discriminate Hlines.
Defined.


(** Neither variable is set, outside a dry run and in one. *)
Lemma validateConfig_requires_github_unless_dry_run_witness :
  EnvConfig.validateConfig ∅
  = Throw (Error "Missing required environment variables: GITHUB_TOKEN, GITHUB_USERNAME")
  /\ EnvConfig.validateConfig {[ "DRY_RUN" := "true" ]} = Ok tt.
Proof.
  split.
  - apply (validateConfig_requires_github_unless_dry_run ∅).
    + discriminate.
    + now left.
    + now left.
  - apply (validateConfig_requires_github_unless_dry_run {[ "DRY_RUN" := "true" ]}).
    left. reflexivity.
Defined.

(** No variable is set: nothing runs. *)
Lemma main_exit_code_reports_the_run_witness :
  Main.main ∅ None None Sample.happy "run-1" = (1%Z, None).
Proof.
  destruct (main_exit_code_reports_the_run ∅ None None Sample.happy "run-1")
    as (_ & _ & H & _).
  destruct H as [H1 H2]; [discriminate|].
  destruct (Main.main ∅ None None Sample.happy "run-1") as [code ran].
  cbn in H1, H2. now rewrite H1, H2.
Defined.

(** Twelve hours are over the budget. *)
Lemma validateIdea_confidence_is_never_clamped_witness :
  In "Exceeds 8 hour time budget"
    (concerns (IdeaGenerator.validateIdea Fixture.twelve_hours))
  /\ isBuildable (IdeaGenerator.validateIdea Fixture.twelve_hours) = false.
Proof.
  destruct (validateIdea_confidence_is_never_clamped Fixture.twelve_hours)
    as (_ & _ & _ & _ & _ & Hbuild & Hover & _).
  split; [apply Hover; reflexivity|].
  destruct (isBuildable (IdeaGenerator.validateIdea Fixture.twelve_hours));
    [|reflexivity].
  destruct (proj1 Hbuild eq_refl) as [H _]. vm_compute in H. now destruct H.
Defined.

(** A novel idea with healthy dependencies and one high risk. *)
Lemma heuristicDecision_ships_only_novel_and_low_risk_witness :
  decision_confidence
    (ResearchMaster.heuristicDecision Fixture.novel Fixture.healthy
       (ResearchMaster.identifyRisks Sample.happy Fixture.twelve_hours
          Fixture.healthy))
  = 75%Z.
Proof.
  destruct (heuristicDecision_ships_only_novel_and_low_risk Fixture.novel
              Fixture.healthy
              (ResearchMaster.identifyRisks Sample.happy Fixture.twelve_hours
                 Fixture.healthy))
    as (_ & _ & Hship & _).
  destruct (Hship eq_refl) as [Hconf _]. rewrite Hconf. reflexivity.
Defined.

Lemma heuristic_on_identified_risks_never_aborts_witness :
  decision_recommendation
    (ResearchMaster.heuristicDecision Fixture.novel Fixture.healthy
       (ResearchMaster.identifyRisks Sample.happy Fixture.twelve_hours
          Fixture.healthy))
  = SHIP.
Proof.
  destruct (heuristic_on_identified_risks_never_aborts Sample.happy
              Fixture.twelve_hours Fixture.novel Fixture.healthy)
    as (_ & _ & _ & Hship & _).
  apply Hship. split; [reflexivity | discriminate].
Defined.

(** A small TypeScript repo. *)
Lemma idea_potential_lies_between_35_and_100_witness :
  (50 <= TrendScout.calculateIdeaPotential id Fixture.details)%Z.
Proof.
  destruct (idea_potential_lies_between_35_and_100 id Fixture.details)
    as (_ & H & _).
  apply H. vm_compute. discriminate.
Defined.

(** A deployed idea is announced; no deployment, no tweet. *)
Lemma announce_never_rejects_and_needs_a_deployment_witness :
  exists result,
    Fixture.announce (Some Sample.deployed) (Some Fixture.gizmo) (Some Sample.built)
    = Ok result
    /\ tweetUrl result = Some "https://twitter.com/dev/null/status/42".
Proof.
  destruct (announce_never_rejects_and_needs_a_deployment Fixture.template 12
              (1 # 2) id "42" (fun _ => moderate) (fun _ => 5%Q)
              (Some Sample.deployed) Fixture.gizmo (Some Sample.built))
    as ((result & Hr & Hyes & _) & _).
  exists result. split; [exact Hr|].
  destruct Hyes as (d & i & text & _ & _ & _ & _ & _ & Hurl).
  - unfold Fixture.announce in *.
    assert (Hs : tweet_success
                   (match TwitterAnnouncer.announce Fixture.template 12 (1 # 2) id
                            "42" (fun _ => moderate) (fun _ => 5%Q)
                            (Some Sample.deployed) (Some Fixture.gizmo)
                            (Some Sample.built) with
                    | Ok t => t
                    | Throw _ => TwitterAnnouncer.failed_tweet
                    end) = true) by (vm_compute; reflexivity).
    rewrite Hr in Hs. exact Hs.
  - exact Hurl.
Defined.

(** The scenario with the announcer of the code and no deployment. *)
Lemma skipped_deployment_can_never_tweet_witness :
  let r := fst (Orchestrator.run Fixture.announcing Fixture.no_github Sample.start) in
  success r = true
  /\ announcement (result_state r) = Some TwitterAnnouncer.failed_tweet
  /\ result_tweetUrl r = None.
Proof.
  destruct (skipped_deployment_can_never_tweet Fixture.template 12 (1 # 2) id "42"
              (fun _ => moderate) (fun _ => 5%Q)
              Fixture.announcing Fixture.no_github Sample.start
              (snd (Orchestrator.core_phases Fixture.announcing Sample.start)))
    as (H1 & H2 & H3 & _).
  - reflexivity.
  - reflexivity.
  - reflexivity.
  - reflexivity.
  - intros i d v idea impl Hd.
    unfold Fixture.announcing, Fixture.with_oracles. cbn [announcer_announce].
    unfold Fixture.announcer. now rewrite Hd.
  - vm_compute. reflexivity.
  - intros v Hv. vm_compute in Hv. injection Hv as <-. vm_compute. eauto.
  - split; [exact H1|]. split; [exact H2 | exact H3].
Defined.


